(** * debedrockify: the migration engine, embedded and verified

    The engine turns a Bedrock-style WordPress tree into the conventional
    layout.  This development embeds the final draft of the engine (the one
    with the database phase) and proves properties of its precondition
    checks, its configuration templater and its database procedure.

    JavaScript strings are sequences of UTF-16 code units; they are modelled
    as lists of numbers.  Console output is left out. *)

From Stdlib Require Import Ascii String.
From Stdlib Require Import List ZArith NArith Bool Arith Lia.
Import ListNotations.

(** ** JavaScript strings *)

Definition jschar := N.
Definition jsstring := list jschar.

(** A literal of the source, as a sequence of code units. *)
Definition js (s : string) : jsstring :=
  map N_of_ascii (list_ascii_of_string s).

Definition jschar_eqb (a b : jschar) : bool := N.eqb a b.

Fixpoint jsstring_eqb (a b : jsstring) : bool :=
  match a, b with
  | [], [] => true
  | x :: a', y :: b' => jschar_eqb x y && jsstring_eqb a' b'
  | _, _ => false
  end.

(** [startsWith p s]: [p] is found at index 0 of [s]. *)
Fixpoint startsWith (p s : jsstring) : bool :=
  match p, s with
  | [], _ => true
  | _ :: _, [] => false
  | a :: p', b :: s' => jschar_eqb a b && startsWith p' s'
  end.

(** Index of the first occurrence of [p] in [s], if there is one. *)
Fixpoint search (p s : jsstring) : option nat :=
  if startsWith p s then Some 0
  else match s with
       | [] => None
       | _ :: s' => option_map S (search p s')
       end.

(** [String.prototype.indexOf]: -1 when the pattern does not occur. *)
Definition indexOf (s p : jsstring) : Z :=
  match search p s with
  | Some i => Z.of_nat i
  | None => (-1)%Z
  end.

Definition includesStr (s p : jsstring) : bool :=
  match search p s with Some _ => true | None => false end.

(** Number of positions of [s] at which [p] occurs. *)
Fixpoint occurrences (p s : jsstring) : nat :=
  (if startsWith p s then 1 else 0) +
  match s with
  | [] => 0
  | _ :: s' => occurrences p s'
  end.

Definition ch (a : ascii) : jschar := N_of_ascii a.

Arguments ch : simpl never.
Arguments js : simpl never.

(** The replacement-text expansion of [String.prototype.replace]
    (GetSubstitution) for a match without capture groups: [$$] is a dollar
    sign, [$&] the matched text, [$`] the text before the match, [$'] the
    text after it; any other [$] stands for itself. *)
Fixpoint getSubstitution (matched before after repl : jsstring) : jsstring :=
  match repl with
  | [] => []
  | c :: r =>
      if jschar_eqb c (ch "$") then
        match r with
        | [] => [c]
        | d :: r' =>
            if jschar_eqb d (ch "$") then
              ch "$" :: getSubstitution matched before after r'
            else if jschar_eqb d (ch "&") then
              matched ++ getSubstitution matched before after r'
            else if jschar_eqb d (ch "`") then
              before ++ getSubstitution matched before after r'
            else if jschar_eqb d (ch "'") then
              after ++ getSubstitution matched before after r'
            else c :: getSubstitution matched before after r
        end
      else c :: getSubstitution matched before after r
  end.

(** [s.replace(pat, repl)] with a string pattern: only the first occurrence
    is replaced. *)
Definition replace (s pat repl : jsstring) : jsstring :=
  match search pat s with
  | None => s
  | Some i =>
      let before := firstn i s in
      let after := skipn (i + length pat) s in
      before ++ getSubstitution pat before after repl ++ after
  end.

(** The class [\s] of a regular expression without the unicode flag. *)
Definition isWhiteSpace (c : jschar) : bool :=
  ((9 <=? c) && (c <=? 13) || (c =? 32) || (c =? 160) || (c =? 5760)
   || (8192 <=? c) && (c <=? 8202) || (c =? 8232) || (c =? 8233)
   || (c =? 8239) || (c =? 8287) || (c =? 12288) || (c =? 65279))%N.

Fixpoint skipWhiteSpace (s : jsstring) : nat * jsstring :=
  match s with
  | c :: s' =>
      if isWhiteSpace c then
        let (n, r) := skipWhiteSpace s' in (S n, r)
      else (0, s)
  | [] => (0, [])
  end.

(** Length of the match of [/\$table_prefix\s*=\s*'wp_'/] at index 0. *)
Definition tablePrefixAt (s : jsstring) : option nat :=
  let head := js "$table_prefix" in
  let tail := js "'wp_'" in
  if startsWith head s then
    let (n1, s1) := skipWhiteSpace (skipn (length head) s) in
    match s1 with
    | c :: s2 =>
        if jschar_eqb c (ch "=") then
          let (n2, s3) := skipWhiteSpace s2 in
          if startsWith tail s3
          then Some (length head + n1 + 1 + n2 + length tail)
          else None
        else None
    | [] => None
    end
  else None.

(** Index and length of the first match of the table-prefix expression. *)
Fixpoint searchTablePrefix (s : jsstring) : option (nat * nat) :=
  match tablePrefixAt s with
  | Some len => Some (0, len)
  | None =>
      match s with
      | [] => None
      | _ :: s' =>
          match searchTablePrefix s' with
          | Some (i, len) => Some (S i, len)
          | None => None
          end
      end
  end.

(** [s.replace(/\$table_prefix\s*=\s*'wp_'/, repl)]. *)
Definition replaceTablePrefix (s repl : jsstring) : jsstring :=
  match searchTablePrefix s with
  | None => s
  | Some (i, len) =>
      let before := firstn i s in
      let matched := firstn len (skipn i s) in
      let after := skipn (i + len) s in
      before ++ getSubstitution matched before after repl ++ after
  end.

(** lodash [trimStart(s, c)] and [trimEnd(s, c)] for a one-character set. *)
Fixpoint trimStart (s : jsstring) (c : jschar) : jsstring :=
  match s with
  | x :: s' => if jschar_eqb x c then trimStart s' c else s
  | [] => []
  end.

Definition trimEnd (s : jsstring) (c : jschar) : jsstring :=
  rev (trimStart (rev s) c).

(** [Array.prototype.join]. *)
Fixpoint join (sep : jsstring) (l : list jsstring) : jsstring :=
  match l with
  | [] => []
  | [x] => x
  | x :: l' => x ++ sep ++ join sep l'
  end.

Definition dquote : jschar := 34%N.

(** [formatPaths]: the paths, each in double quotes, separated by commas. *)
Definition formatPaths (paths : list jsstring) : jsstring :=
  dquote :: join (dquote :: js ", " ++ [dquote]) paths ++ [dquote].

(** ** The environment file *)

(** The object returned by the environment-file parser: the first binding
    of a key is the one a property read sees. *)
Definition Env := list (jsstring * jsstring).

Fixpoint env_get (env : Env) (key : jsstring) : option jsstring :=
  match env with
  | [] => None
  | (k, v) :: env' => if jsstring_eqb k key then Some v else env_get env' key
  end.

(** String conversion of a property read: a missing key reads [undefined]. *)
Definition toStr (v : option jsstring) : jsstring :=
  match v with
  | Some s => s
  | None => js "undefined"
  end.

(** Truthiness of a property read: [undefined] and the empty string are
    falsy. *)
Definition truthy (v : option jsstring) : bool :=
  match v with
  | Some (_ :: _) => true
  | _ => false
  end.

(** [v === lit]. *)
Definition strictEq (v : option jsstring) (lit : jsstring) : bool :=
  match v with
  | Some s => jsstring_eqb s lit
  | None => false
  end.

(** ** populateWpConfig *)

Inductive Pattern :=
| Lit (s : jsstring)
| TablePrefixRe.

Definition secretPlaceholder : jsstring := js "put your unique phrase here".

Arguments secretPlaceholder : simpl never.

(** The [findReplace] table; [None] is the source's [null]. *)
Definition findReplace (env : Env) : list (Pattern * option jsstring) :=
  [ (Lit (js "database_name_here"), Some (toStr (env_get env (js "DB_NAME"))));
    (Lit (js "username_here"), Some (toStr (env_get env (js "DB_USER"))));
    (Lit (js "password_here"), Some (toStr (env_get env (js "DB_PASSWORD"))));
    (Lit (js "localhost"), Some (toStr (env_get env (js "DB_HOST"))));
    (Lit (js "define('WP_DEBUG', false)"),
     Some (js "define('WP_DEBUG', "
           ++ (if strictEq (env_get env (js "WP_ENV")) (js "development")
               then js "true" else js "false")
           ++ js ")"));
    (TablePrefixRe,
     if truthy (env_get env (js "DB_PREFIX"))
     then Some (js "$table_prefix = '"
                ++ toStr (env_get env (js "DB_PREFIX")) ++ js "'")
     else None) ].

(** One turn of the [for] loop over [findReplace]. *)
Definition applyRule (template : jsstring) (rule : Pattern * option jsstring)
  : jsstring :=
  match rule with
  | (_, None) => template
  | (Lit find, Some repl) => replace template find repl
  | (TablePrefixRe, Some repl) => replaceTablePrefix template repl
  end.

Definition applyRules (rules : list (Pattern * option jsstring))
  (template : jsstring) : jsstring :=
  fold_left applyRule rules template.

(** The [while] loop over the secret placeholder.  [generate k] is the
    result of the [k]-th call of [randomstring.generate(64)]; the loop
    returns the text and the number of calls made so far.  [None]: the loop
    is still running when the fuel is spent. *)
Fixpoint secretLoop (fuel : nat) (generate : nat -> jsstring) (k : nat)
  (template : jsstring) : option (jsstring * nat) :=
  if (indexOf template secretPlaceholder =? -1)%Z then Some (template, k)
  else match fuel with
       | 0 => None
       | S fuel' =>
           secretLoop fuel' generate (S k)
             (replace template secretPlaceholder (generate k))
       end.

Definition populateWpConfig (fuel : nat) (generate : nat -> jsstring)
  (k : nat) (template : jsstring) (env : Env) : option (jsstring * nat) :=
  secretLoop fuel generate k (applyRules (findReplace env) template).

(** ** Tokens of the random source *)

(** The default character set of [randomstring.generate]: digits and
    unaccented letters. *)
Definition isAlphanumeric (c : jschar) : bool :=
  ((48 <=? c) && (c <=? 57) || (65 <=? c) && (c <=? 90)
   || (97 <=? c) && (c <=? 122))%N.

(** What [randomstring.generate(64)] can return. *)
Definition isToken (tok : jsstring) : bool :=
  (length tok =? 64) && forallb isAlphanumeric tok.

Definition countChar (c : jschar) (s : jsstring) : nat :=
  count_occ N.eq_dec s c.

Definition space : jschar := ch " ".

Definition endsWith (q s : jsstring) : bool :=
  (length q <=? length s) && jsstring_eqb (skipn (length s - length q) s) q.

(** No proper suffix of [p] begins [tok] and no proper prefix of [p] ends
    it: put in place of an occurrence of [p], [tok] completes no other
    occurrence with the text around it. *)
Definition boundaryFree (p tok : jsstring) : bool :=
  forallb (fun m => negb (startsWith (skipn m p) tok)
                    && negb (endsWith (firstn m p) tok))
          (seq 1 (length p - 1)).

(** The replacement the specification describes: one pass from left to
    right in which the i-th occurrence of the placeholder [p] receives the
    i-th token.  [skip] counts the characters of the occurrence being
    replaced that are still to be dropped. *)
Fixpoint replaceEachOf (p : jsstring) (generate : nat -> jsstring)
  (k skip : nat) (s : jsstring) : jsstring :=
  match s with
  | [] => []
  | c :: s' =>
      match skip with
      | S n => replaceEachOf p generate k n s'
      | 0 =>
          if startsWith p s
          then generate k ++ replaceEachOf p generate (S k) (length p - 1) s'
          else c :: replaceEachOf p generate k 0 s'
      end
  end.

Definition replaceEach : (nat -> jsstring) -> nat -> nat -> jsstring
                         -> jsstring :=
  replaceEachOf secretPlaceholder.

(** A token that is a token of the random source and completes no
    occurrence of the placeholder with the text around it. *)
Definition goodToken (tok : jsstring) : bool :=
  isToken tok && boundaryFree secretPlaceholder tok.

(** [inert x]: whatever follows [x], the placeholder starts nowhere in
    [x]. *)
Definition inert (x : jsstring) : Prop :=
  forall s j, j < length x ->
    startsWith secretPlaceholder (skipn j (x ++ s)) = false.

(** The segments of a text between the occurrences of a separator, put
    together again with one token in place of each separator. *)
Fixpoint weave (segs toks : list jsstring) : jsstring :=
  match segs with
  | [] => []
  | s :: segs' =>
      match segs', toks with
      | _ :: _, t :: toks' => s ++ t ++ weave segs' toks'
      | _, _ => s
      end
  end.

(** ** The world around the engine *)

(** The engine tells two kinds of errors apart: its own [Interruption]
    and everything else. *)
Inductive JsError :=
| Interruption (message : jsstring)
| SystemError (message : jsstring).

(** Result of a call into a library: a value, or the message of the error
    it raised. *)
Inductive Try (A : Type) :=
| Done (a : A)
| Failed (message : jsstring).

Arguments Done {A} a.
Arguments Failed {A} message.

(** The file system as the engine uses it: [fs.access], the entries of a
    directory as [globby] reads them, [make-dir], [mv], [fs.readFile],
    [fs.writeFile], [node-env-file] and a write stream fed by a pipe.  A
    call that changes the disk returns the disk it leaves behind, also when
    it fails. *)
Class FileSystem (F : Type) := {
  fs_access : F -> jsstring -> bool;
  fs_entries : F -> jsstring -> Try (list jsstring);
  fs_makeDir : F -> jsstring -> Try unit * F;
  fs_mv : F -> jsstring -> jsstring -> Try unit * F;
  fs_readFile : F -> jsstring -> Try jsstring;
  fs_writeFile : F -> jsstring -> jsstring -> Try unit * F;
  fs_envFile : F -> jsstring -> Try Env;
  fs_pipe : F -> jsstring -> jsstring -> Try unit * F
}.

(** [globby('*', {cwd})]: the names of the entries of [cwd], files and
    directories, that the pattern [*] matches.  It matches no name that
    begins with a dot. *)
Definition hidden (name : jsstring) : bool := startsWith (js ".") name.

Definition fs_globby {F} `{FileSystem F} (d : F) (cwd : jsstring)
  : Try (list jsstring) :=
  match fs_entries d cwd with
  | Done names => Done (filter (fun name => negb (hidden name)) names)
  | Failed m => Failed m
  end.

(** The table [wp_options], as far as the engine touches it. *)
Inductive SqlValue :=
| SqlNull
| SqlText (s : jsstring).

Record Row := { option_name : jsstring; option_value : SqlValue }.

(** The two statements the engine sends:
    [DELETE FROM wp_options WHERE option_name IN (names)] and
    [INSERT INTO wp_options (option_name, option_value) VALUES (?, ?)]. *)
Inductive Statement :=
| DeleteOptions (names : list jsstring)
| InsertOption (name : jsstring) (value : SqlValue).

Definition execute (q : Statement) (table : list Row) : list Row :=
  match q with
  | DeleteOptions names =>
      filter (fun r => negb (existsb (jsstring_eqb (option_name r)) names))
        table
  | InsertOption name value =>
      table ++ [{| option_name := name; option_value := value |}]
  end.

(** A query parameter: [undefined] is sent as [NULL]. *)
Definition toSql (v : option jsstring) : SqlValue :=
  match v with
  | Some s => SqlText s
  | None => SqlNull
  end.

(** Arguments of the dump utility: [-u user], [-p] with the password
    appended, and the database. *)
Record DumpArgs := {
  dump_user : option jsstring;
  dump_password : jsstring;
  dump_database : option jsstring
}.

(** What the run cannot decide: the random source, the clock, whether the
    dump utility can be started ([spawnError] is the error of [spawn] if
    not, and [streamOpened] tells whether the write stream has created its
    file by the time that error is raised), the output of the dump utility
    and the failures of the database client. *)
Record Oracle := {
  generate : nat -> jsstring;
  getTime : jsstring;
  spawnError : option jsstring;
  streamOpened : bool;
  mysqldump : DumpArgs -> list Row -> jsstring;
  connectError : option jsstring;
  queryError : nat -> option jsstring;
  endError : option jsstring
}.

Inductive Method :=
| MysqlBackup
| MysqlConnect
| UpdateDbSiteUrl
| MysqlDisconnect.

(** What a run leaves in its trace: the methods of the database procedure
    as they are entered and left, the statements the server carried out,
    and the calls that change the disk. *)
Inductive Event :=
| Enter (m : Method)
| Leave (m : Method)
| Query (q : Statement)
| MakeDir (path : jsstring)
| Mv (src dest : jsstring)
| WriteFile (path data : jsstring)
| Pipe (dest : jsstring).

(** The engine object and the world it acts on. *)
Record State (F : Type) := {
  root : jsstring;
  env : option Env;
  mysql : bool;
  disk : F;
  wp_options : list Row;
  connected : bool;
  queries : nat;
  calls : nat;
  trace : list Event
}.

Arguments root {F} _.
Arguments env {F} _.
Arguments mysql {F} _.
Arguments disk {F} _.
Arguments wp_options {F} _.
Arguments connected {F} _.
Arguments queries {F} _.
Arguments calls {F} _.
Arguments trace {F} _.

(** How a method ends: it returns; it throws (its promise is rejected); an
    error raised outside every promise, the ['error'] event of a child
    process that nobody listens to, ends the process on the spot; or it is
    still running when the fuel of the secret loop is spent. *)
Inductive Outcome (F A : Type) :=
| Returns (a : A) (s : State F)
| Throws (e : JsError) (s : State F)
| Crashes (message : jsstring) (s : State F)
| Diverges.

Arguments Returns {F A} a s.
Arguments Throws {F A} e s.
Arguments Crashes {F A} message s.
Arguments Diverges {F A}.

Definition M (F A : Type) := State F -> Outcome F A.

Definition ret {F A} (a : A) : M F A := fun s => Returns a s.

Definition throw {F A} (e : JsError) : M F A := fun s => Throws e s.

Definition bind {F A B} (m : M F A) (k : A -> M F B) : M F B :=
  fun s =>
    match m s with
    | Returns a s' => k a s'
    | Throws e s' => Throws e s'
    | Crashes m s' => Crashes m s'
    | Diverges => Diverges
    end.

Notation "x <- m ;; k" := (bind m (fun x => k))
  (at level 61, m at next level, right associativity).
Notation "m ;;; k" := (bind m (fun _ => k))
  (at level 61, right associativity).

Definition gets {F A} (f : State F -> A) : M F A := fun s => Returns (f s) s.

Definition emit {F} (e : Event) : M F unit :=
  fun s =>
    Returns tt
      {| root := root s; env := env s; mysql := mysql s; disk := disk s;
         wp_options := wp_options s; connected := connected s;
         queries := queries s; calls := calls s;
         trace := trace s ++ [e] |}.

Definition setDisk {F} (d : F) : M F unit :=
  fun s =>
    Returns tt
      {| root := root s; env := env s; mysql := mysql s; disk := d;
         wp_options := wp_options s; connected := connected s;
         queries := queries s; calls := calls s; trace := trace s |}.

(** A [for ... of] loop with an awaited body. *)
Fixpoint forEach {F A} (l : list A) (body : A -> M F unit) : M F unit :=
  match l with
  | [] => ret tt
  | x :: l' => body x ;;; forEach l' body
  end.

(** A method of the database procedure, with its entry and its return in
    the trace. *)
Definition method {F A} (m : Method) (body : M F A) : M F A :=
  emit (Enter m) ;;; r <- body ;; emit (Leave m) ;;; ret r.

(** What a function returns that ends in [return false] on one path and
    falls off its end on the other. *)
Inductive FalseOrUndefined := JsFalse | JsUndefined.

(** lodash [intersection]: the values of the first array that the second
    one holds too, each once, in the order of the first array. *)
Definition includes (l : list jsstring) (x : jsstring) : bool :=
  existsb (jsstring_eqb x) l.

Definition intersection (a b : list jsstring) : list jsstring :=
  fold_left
    (fun result x =>
       if negb (includes result x) && includes b x
       then result ++ [x] else result)
    a [].

Definition expectedPresent : list jsstring :=
  [js ".env"; js "web/app"; js "web/wp"; js "web/wp/wp-config-sample.php"].

Definition expectedAbsent : list jsstring := [js "web/wp/wp-config.php"].

Definition wpFolders : list jsstring :=
  [js "languages"; js "mu-plugins"; js "plugins"; js "themes"; js "uploads";
   js "upgrade"].

(** The exit code of the process; [None] while the run has not ended.
    The handler around [run] exits with 1 for an [Interruption] and with
    127 for any other error it catches; an exception that nobody catches
    ends the process with code 1. *)
Definition exitCode {F A} (o : Outcome F A) : option Z :=
  match o with
  | Returns _ _ => Some 0%Z
  | Throws (Interruption _) _ => Some 1%Z
  | Throws (SystemError _) _ => Some 127%Z
  | Crashes _ _ => Some 1%Z
  | Diverges => None
  end.

Section Engine.

Context {F : Type} `{FileSystem F}.
Variable world : Oracle.
Variable fuel : nat.

(** ** Wrappers of the library calls *)

Definition lift {A} (r : Try A) : M F A :=
  match r with
  | Done a => ret a
  | Failed m => throw (SystemError m)
  end.

Definition globby (cwd : jsstring) : M F (list jsstring) :=
  fun s => lift (fs_globby (disk s) cwd) s.

Definition readFile (path : jsstring) : M F jsstring :=
  fun s => lift (fs_readFile (disk s) path) s.

Definition mutate (e : Event) (op : F -> Try unit * F) : M F unit :=
  emit e ;;;
  r <- gets (fun s => op (disk s)) ;;
  setDisk (snd r) ;;; lift (fst r).

Definition makeDir (path : jsstring) : M F unit :=
  mutate (MakeDir path) (fun d => fs_makeDir d path).

Definition mv (src dest : jsstring) : M F unit :=
  mutate (Mv src dest) (fun d => fs_mv d src dest).

Definition writeFile (path data : jsstring) : M F unit :=
  mutate (WriteFile path data) (fun d => fs_writeFile d path data).

(** A read of [this.env[key]]; a [TypeError] while [this.env] is not
    set. *)
Definition envField (key : jsstring) : M F (option jsstring) :=
  fun s =>
    match env s with
    | Some e => Returns (env_get e key) s
    | None => Throws (SystemError (js "TypeError")) s
    end.

(** ** The engine *)

Definition abs (s : State F) (path : jsstring) : jsstring :=
  root s ++ js "/" ++ trimStart path (ch "/").

Definition exists_ (s : State F) (relPath : jsstring) : bool :=
  fs_access (disk s) (abs s relPath).

Definition checkAllPairs (s : State F) (paths : list jsstring)
  : list (jsstring * bool) :=
  map (fun path => (path, exists_ s path)) paths.

Definition filterByStatus (s : State F) (paths : list jsstring)
  (presentExpected : bool) : list jsstring :=
  map fst
    (filter (fun pair => negb (Bool.eqb (snd pair) presentExpected))
       (checkAllPairs s paths)).

Definition checkPresence : M F unit :=
  absent <- gets (fun s => filterByStatus s expectedPresent true) ;;
  if negb (length absent =? 0) then
    throw (Interruption (js "Expected file(s): " ++ formatPaths absent
                         ++ js " not present"))
  else
    present <- gets (fun s => filterByStatus s expectedAbsent false) ;;
    if negb (length present =? 0) then
      throw (Interruption (js "Unexpected file(s): " ++ formatPaths present
                           ++ js " present"))
    else ret tt.

Definition conflictMessage (intersect : list jsstring)
  (path1 path2 : jsstring) : jsstring :=
  js "Conflict: " ++ formatPaths intersect ++ js " present in both "
  ++ path1 ++ js " and " ++ path2 ++ js ", remove one to continue".

Definition checkConflicts (path1 path2 : jsstring) : M F unit :=
  in1 <- (fun s => globby (abs s path1) s) ;;
  in2 <- (fun s => globby (abs s path2) s) ;;
  let intersect := intersection in1 in2 in
  if negb (length intersect =? 0) then
    throw (Interruption (conflictMessage intersect path1 path2))
  else ret tt.

Definition moveWpContents (wpFolder : jsstring) : M F FalseOrUndefined :=
  let cwd := js "web/app/" ++ wpFolder in
  present <- gets (fun s => exists_ s cwd) ;;
  if negb present then ret JsFalse
  else
    (fun s => makeDir (abs s (js "web/wp/wp-content/" ++ wpFolder)) s) ;;;
    files <- globby cwd ;;
    forEach files
      (fun file =>
         let src := js "web/app/" ++ wpFolder ++ js "/" ++ file in
         let dest := js "web/wp/wp-content/" ++ wpFolder ++ js "/" ++ file in
         fun s => mv (abs s src) (abs s dest) s) ;;;
    ret JsUndefined.

Definition sanityChecks : M F unit :=
  checkPresence ;;;
  forEach wpFolders
    (fun wpFolder =>
       checkConflicts (js "web/app/" ++ wpFolder)
         (js "web/wp/wp-content/" ++ wpFolder)).

Definition archive (path : jsstring) : M F FalseOrUndefined :=
  present <- gets (fun s => exists_ s path) ;;
  if negb present then ret JsFalse
  else
    let path := trimStart path (ch "/") in
    (fun s => mv (abs s path) (abs s (js ".debedrockify/old/" ++ path)) s) ;;;
    ret JsUndefined.

Definition readEnv : M F unit :=
  fun s =>
    match fs_envFile (disk s) (abs s (js ".env")) with
    | Done e =>
        Returns tt
          {| root := root s; env := Some e; mysql := mysql s;
             disk := disk s; wp_options := wp_options s;
             connected := connected s; queries := queries s;
             calls := calls s; trace := trace s |}
    | Failed m => Throws (SystemError m) s
    end.

(** [mysqldump] starts the dump utility with [spawn] and attaches no
    listener to the child.  If the utility cannot be started, the child
    emits ['error'] on the next tick, after the write stream has been
    created and before anything is written: the process ends there. *)
Definition mysqlBackup : M F unit :=
  method MysqlBackup
    (user <- envField (js "DB_USER") ;;
     password <- envField (js "DB_PASSWORD") ;;
     database <- envField (js "DB_NAME") ;;
     let args := {| dump_user := user;
                    dump_password := js "-p" ++ toStr password;
                    dump_database := database |} in
     fun s =>
       let dest := abs s (js ".debedrockify/mysql_backup_"
                          ++ getTime world ++ js ".sql") in
       match spawnError world with
       | Some m =>
           Crashes m
             {| root := root s; env := env s; mysql := mysql s;
                disk := if streamOpened world
                        then snd (fs_pipe (disk s) dest [])
                        else disk s;
                wp_options := wp_options s; connected := connected s;
                queries := queries s; calls := calls s;
                trace := trace s |}
       | None =>
           mutate (Pipe dest)
             (fun d => fs_pipe d dest (mysqldump world args (wp_options s)))
             s
       end).

Definition envToWpConfig : M F unit :=
  template <- (fun s => readFile (abs s (js "web/wp/wp-config-sample.php")) s) ;;
  fun s =>
    match env s with
    | None => Throws (SystemError (js "TypeError")) s
    | Some e =>
        match populateWpConfig fuel (generate world) (calls s) template e with
        | None => Diverges
        | Some (wpConfig, n) =>
            writeFile (abs s (js "web/wp/wp-config.php")) wpConfig
              {| root := root s; env := env s; mysql := mysql s;
                 disk := disk s; wp_options := wp_options s;
                 connected := connected s; queries := queries s;
                 calls := n; trace := trace s |}
        end
    end.

Definition mysqlConnect : M F unit :=
  method MysqlConnect
    (envField (js "DB_HOST") ;;; envField (js "DB_USER") ;;;
     envField (js "DB_PASSWORD") ;;; envField (js "DB_NAME") ;;;
     fun s =>
       match connectError world with
       | Some m => Throws (SystemError m) s
       | None =>
           Returns tt
             {| root := root s; env := env s; mysql := true;
                disk := disk s; wp_options := wp_options s;
                connected := true; queries := queries s;
                calls := calls s; trace := trace s |}
       end).

Definition mysqlEnd : M F unit :=
  fun s =>
    if negb (mysql s) then Throws (SystemError (js "TypeError")) s
    else
      match endError world with
      | Some m => Throws (SystemError m) s
      | None =>
          Returns tt
            {| root := root s; env := env s; mysql := mysql s;
               disk := disk s; wp_options := wp_options s;
               connected := false; queries := queries s;
               calls := calls s; trace := trace s |}
      end.

Definition mysqlDisconnect : M F unit := method MysqlDisconnect mysqlEnd.

Definition mysqlQuery (q : Statement) : M F unit :=
  fun s =>
    if negb (mysql s) then Throws (SystemError (js "TypeError")) s
    else
      let s' := {| root := root s; env := env s; mysql := mysql s;
                   disk := disk s; wp_options := wp_options s;
                   connected := connected s; queries := S (queries s);
                   calls := calls s; trace := trace s |} in
      if negb (connected s)
      then Throws (SystemError (js "PROTOCOL_ENQUEUE_AFTER_QUIT")) s'
      else
        match queryError world (queries s) with
        | Some m => Throws (SystemError m) s'
        | None =>
            Returns tt
              {| root := root s; env := env s; mysql := mysql s;
                 disk := disk s; wp_options := execute q (wp_options s);
                 connected := connected s; queries := S (queries s);
                 calls := calls s; trace := trace s ++ [Query q] |}
        end.

Definition updateDbSiteUrl : M F unit :=
  method UpdateDbSiteUrl
    (mysqlQuery (DeleteOptions [js "siteurl"; js "home"]) ;;;
     url <- envField (js "WP_HOME") ;;
     mysqlQuery (InsertOption (js "siteurl") (toSql url)) ;;;
     mysqlQuery (InsertOption (js "home") (toSql url))).

Definition doDb : M F unit :=
  mysqlBackup ;;; mysqlConnect ;;; updateDbSiteUrl ;;; mysqlDisconnect.

Definition run : M F unit :=
  sanityChecks ;;;
  (fun s => makeDir (abs s (js ".debedrockify/old")) s) ;;;
  readEnv ;;;
  envToWpConfig ;;;
  doDb.

(** The engine object of a run started in directory [cwd]. *)
Definition newEngine (cwd : jsstring) (d : F) (table : list Row)
  : State F :=
  {| root := trimEnd cwd (ch "/"); env := None; mysql := false; disk := d;
     wp_options := table; connected := false; queries := 0; calls := 0;
     trace := [] |}.

Definition main (cwd : jsstring) (d : F) (table : list Row) : option Z :=
  exitCode (run (newEngine cwd d table)).

End Engine.

(** ** A file system in memory

    The theorems hold for every file system; this one, a list of absolute
    paths with what is found there, serves to run the engine on examples.
    An environment file is given by its text and by the bindings that
    [node-env-file] reads from it; the model does not parse the text. *)

Inductive Node :=
| Dir
| File (data : jsstring)
| EnvFile (data : jsstring) (bindings : Env).

Definition MemFS := list (jsstring * Node).

Definition mem_find (d : MemFS) (p : jsstring) : option Node :=
  match find (fun e => jsstring_eqb (fst e) p) d with
  | Some e => Some (snd e)
  | None => None
  end.

Definition mem_access (d : MemFS) (p : jsstring) : bool :=
  match mem_find d p with
  | Some _ => true
  | None => false
  end.

(** The directory a path lies in: the path up to its last slash.  The
    empty path stands for the root directory. *)
Fixpoint dropName (r : jsstring) : jsstring :=
  match r with
  | [] => []
  | c :: r' => if jschar_eqb c (ch "/") then r' else dropName r'
  end.

Definition parent (p : jsstring) : jsstring := rev (dropName (rev p)).

Definition isDir (d : MemFS) (p : jsstring) : bool :=
  match p with
  | [] => true
  | _ => match mem_find d p with
         | Some Dir => true
         | _ => false
         end
  end.

Definition isBelow (dir p : jsstring) : bool := startsWith (dir ++ js "/") p.

Definition mem_remove (p : jsstring) (d : MemFS) : MemFS :=
  filter (fun e => negb (jsstring_eqb (fst e) p)) d.

(** The name of [path] as an entry of directory [cwd]: what follows
    [cwd/], if that holds no further slash. *)
Definition childName (cwd path : jsstring) : option jsstring :=
  if isBelow cwd path then
    let name := skipn (length cwd + 1) path in
    match name with
    | [] => None
    | _ :: _ => if existsb (jschar_eqb (ch "/")) name then None else Some name
    end
  else None.

(** The entries of a directory, in the order of the list; none for a
    directory that does not exist. *)
Definition mem_entries (d : MemFS) (cwd : jsstring) : Try (list jsstring) :=
  Done (flat_map (fun e => match childName cwd (fst e) with
                           | Some name => [name]
                           | None => []
                           end) d).

(** The directories [make-dir] goes through for [p]: [p] and the
    directories above it, from the top. *)
Fixpoint dirsOf (done rest : jsstring) : list jsstring :=
  match rest with
  | [] => [done]
  | c :: rest' =>
      (if jschar_eqb c (ch "/") && negb (length done =? 0)
       then [done] else [])
      ++ dirsOf (done ++ [c]) rest'
  end.

(** [make-dir] creates the directory and the missing directories above
    it; it fails if one of them is there as a file. *)
Definition mem_makeDir (d : MemFS) (p : jsstring) : Try unit * MemFS :=
  let dirs := dirsOf [] p in
  if existsb (fun q => mem_access d q && negb (isDir d q)) dirs
  then (Failed (js "EEXIST"), d)
  else (Done tt,
        d ++ map (fun q => (q, Dir))
               (filter (fun q => negb (mem_access d q)) dirs)).

(** [mv] renames: the source has to exist and the directory of the
    destination too; a file takes the place of a file, a directory that of
    an empty directory. *)
Definition mem_mv (d : MemFS) (src dest : jsstring) : Try unit * MemFS :=
  let moved :=
    map (fun e =>
           if jsstring_eqb (fst e) src then (dest, snd e)
           else if isBelow src (fst e)
                then (dest ++ skipn (length src) (fst e), snd e)
                else e) (mem_remove dest d) in
  match mem_find d src with
  | None => (Failed (js "ENOENT"), d)
  | Some node =>
      if negb (isDir d (parent dest)) then (Failed (js "ENOENT"), d)
      else if jsstring_eqb src dest then (Done tt, d)
      else if isBelow src dest then (Failed (js "EINVAL"), d)
      else
        match node, mem_find d dest with
        | Dir, Some Dir =>
            if existsb (fun e => isBelow dest (fst e)) d
            then (Failed (js "ENOTEMPTY"), d)
            else (Done tt, moved)
        | Dir, Some _ => (Failed (js "ENOTDIR"), d)
        | _, Some Dir => (Failed (js "EISDIR"), d)
        | _, _ => (Done tt, moved)
        end
  end.

Definition mem_readFile (d : MemFS) (p : jsstring) : Try jsstring :=
  match mem_find d p with
  | Some (File data) => Done data
  | Some (EnvFile data _) => Done data
  | Some Dir => Failed (js "EISDIR")
  | None => Failed (js "ENOENT")
  end.

(** Writing a file, at once or through a stream: the directory of the file
    has to exist. *)
Definition mem_writeFile (d : MemFS) (p data : jsstring)
  : Try unit * MemFS :=
  if negb (isDir d (parent p)) then (Failed (js "ENOENT"), d)
  else
    match mem_find d p with
    | Some Dir => (Failed (js "EISDIR"), d)
    | _ => (Done tt, (p, File data) :: mem_remove p d)
    end.

Definition mem_envFile (d : MemFS) (p : jsstring) : Try Env :=
  match mem_find d p with
  | Some (EnvFile _ bindings) => Done bindings
  | Some _ => Failed (js "no bindings given")
  | None => Failed (js "Environment file doesn't exist")
  end.

#[export] Instance MemFileSystem : FileSystem MemFS := {
  fs_access := mem_access;
  fs_entries := mem_entries;
  fs_makeDir := mem_makeDir;
  fs_mv := mem_mv;
  fs_readFile := mem_readFile;
  fs_writeFile := mem_writeFile;
  fs_envFile := mem_envFile;
  fs_pipe := mem_writeFile
}.

(** A world without failures: the tokens are 64 characters, the first four
    of them the decimal digits of the number of the call. *)
Definition digit (n : nat) : jschar := N.of_nat (48 + n mod 10).

Definition sampleToken (k : nat) : jsstring :=
  [digit (k / 1000); digit (k / 100); digit (k / 10); digit k]
  ++ repeat (ch "x") 60.

Definition calmWorld : Oracle :=
  {| generate := sampleToken;
     getTime := js "1500000000000";
     spawnError := None;
     streamOpened := false;
     mysqldump := fun _ _ => js "-- dump";
     connectError := None;
     queryError := fun _ => None;
     endError := None |}.

Definition file (path content : string) : jsstring * Node :=
  (js path, File (js content)).

Definition dir (path : string) : jsstring * Node := (js path, Dir).

Definition sampleEnv : Env :=
  [ (js "DB_NAME", js "wp"); (js "DB_USER", js "u");
    (js "DB_PASSWORD", js "p"); (js "DB_HOST", js "localhost");
    (js "WP_HOME", js "https://example.com") ].

(** The example site of the specification, in [/site]. *)
Definition sampleDisk : MemFS :=
  [ dir "/site";
    (js "/site/.env",
     EnvFile (js "DB_NAME=wp
DB_USER=u
DB_PASSWORD=p
DB_HOST=localhost
WP_HOME=https://example.com") sampleEnv);
    dir "/site/web";
    dir "/site/web/app";
    dir "/site/web/app/themes";
    dir "/site/web/app/themes/mytheme";
    dir "/site/web/wp";
    file "/site/web/wp/wp-config-sample.php"
      "define('DB_NAME', 'database_name_here');
define('DB_USER', 'username_here');
define('DB_PASSWORD', 'password_here');
define('DB_HOST', 'localhost');
define('AUTH_KEY', 'put your unique phrase here');
define('NONCE_KEY', 'put your unique phrase here');
$table_prefix = 'wp_';
define('WP_DEBUG', false);" ].

Definition sampleTable : list Row :=
  [ {| option_name := js "siteurl";
       option_value := SqlText (js "http://old.test") |};
    {| option_name := js "blogname"; option_value := SqlText (js "Blog") |};
    {| option_name := js "siteurl";
       option_value := SqlText (js "http://older.test") |} ].


(** A random source all of whose tokens begin with [here]; the digits make
    the tokens differ. *)
Definition hereToken (k : nat) : jsstring :=
  js "here" ++ [digit (k / 100); digit (k / 10); digit k]
  ++ repeat (ch "a") 57.

Definition nestedTemplate : jsstring :=
  js "put your unique phrase put your unique phrase here".

(** A tree that already has a [wp-config.php] and lacks its [.env]. *)
Definition halfMigratedDisk : MemFS :=
  [ dir "/site"; dir "/site/web"; dir "/site/web/app"; dir "/site/web/wp";
    file "/site/web/wp/wp-config-sample.php" "<?php";
    file "/site/web/wp/wp-config.php" "<?php" ].

(** A tree in which a theme of the same name sits on both sides. *)
Definition conflictingDisk : MemFS :=
  sampleDisk ++
  [ dir "/site/web/wp/wp-content";
    dir "/site/web/wp/wp-content/themes";
    dir "/site/web/wp/wp-content/themes/mytheme";
    dir "/site/web/wp/wp-content/themes/twentyten" ].

(** A tree in which both upload folders hold a hidden entry of the same
    name. *)
Definition hiddenConflictDisk : MemFS :=
  sampleDisk ++
  [ dir "/site/web/app/uploads";
    (js "/site/web/app/uploads/.gitkeep", File []);
    dir "/site/web/wp/wp-content";
    dir "/site/web/wp/wp-content/uploads";
    (js "/site/web/wp/wp-content/uploads/.gitkeep", File []) ].

(** The table after the statements of a trace have been carried out on
    it. *)
Definition replay (evs : list Event) (table : list Row) : list Row :=
  fold_left (fun t e => match e with
                        | Query q => execute q t
                        | _ => t
                        end) evs table.

(** The events of the rewrite step: its entry and its statements. *)
Definition rewrites (e : Event) : bool :=
  match e with
  | Enter UpdateDbSiteUrl => true
  | Query _ => true
  | _ => false
  end.

Definition isSiteKey (r : Row) : bool :=
  existsb (jsstring_eqb (option_name r)) [js "siteurl"; js "home"].

Definition named (name : jsstring) (r : Row) : bool :=
  jsstring_eqb (option_name r) name.

(** A world in which the server rejects the first statement. *)
Definition lockedWorld : Oracle :=
  {| generate := sampleToken;
     getTime := js "1500000000000";
     spawnError := None;
     streamOpened := false;
     mysqldump := fun _ _ => js "-- dump";
     connectError := None;
     queryError := fun n => match n with
                            | 0 => Some (js "ER_LOCK_WAIT_TIMEOUT")
                            | _ => None
                            end;
     endError := None |}.

(** The example site once [run] has made its folder [.debedrockify/old]. *)
Definition preparedDisk : MemFS :=
  sampleDisk ++ [ dir "/site/.debedrockify"; dir "/site/.debedrockify/old" ].

(** The engine of the example site when the database procedure begins:
    the folder is made and the environment file is read. *)
Definition readyEngine : State MemFS :=
  {| root := js "/site"; env := Some sampleEnv; mysql := false;
     disk := preparedDisk; wp_options := sampleTable; connected := false;
     queries := 0; calls := 0; trace := [] |}.

(** The same engine with its connection open. *)
Definition connectedEngine : State MemFS :=
  {| root := js "/site"; env := Some sampleEnv; mysql := true;
     disk := preparedDisk; wp_options := sampleTable; connected := true;
     queries := 0; calls := 0; trace := [] |}.

(** A world in which the dump utility is not installed. *)
Definition toollessWorld : Oracle :=
  {| generate := sampleToken;
     getTime := js "1500000000000";
     spawnError := Some (js "spawn mysqldump ENOENT");
     streamOpened := true;
     mysqldump := fun _ _ => js "-- dump";
     connectError := None;
     queryError := fun _ => None;
     endError := None |}.

(** The example site with a file of its own at the top, once [run] has
    made its folder. *)
Definition archiveDisk : MemFS :=
  preparedDisk ++ [ file "/site/composer.json" "{}" ].

(** [extends s s' evs]: from [s] to [s'] the trace has grown by [evs], the
    table has gone through the statements of [evs], and the environment is
    the same. *)
Definition extends {F} (s s' : State F) (evs : list Event) : Prop :=
  trace s' = trace s ++ evs /\
  wp_options s' = replay evs (wp_options s) /\
  env s' = env s /\ root s' = root s.

(** The connection as the engine and the server see it. *)
Definition conn {F} (s : State F) : bool * bool := (mysql s, connected s).

Definition isLeaveBackup (e : Event) : bool :=
  match e with
  | Leave MysqlBackup => true
  | _ => false
  end.

(** [guarded seen evs]: reading [evs] from the left, no event of the
    rewrite step comes before the backup has returned; [seen] tells
    whether it had returned before [evs]. *)
Fixpoint guarded (seen : bool) (evs : list Event) : bool :=
  match evs with
  | [] => true
  | e :: r =>
      (negb (rewrites e) || seen) && guarded (seen || isLeaveBackup e) r
  end.

(** What the sanity checks look for. *)
Definition presenceViolation {F} `{FileSystem F} (s : State F) : Prop :=
  (exists p, In p expectedPresent /\ exists_ s p = false) \/
  (exists p, In p expectedAbsent /\ exists_ s p = true).

Definition conflictViolation {F} `{FileSystem F} (s : State F) : Prop :=
  exists folder in1 in2 x,
    In folder wpFolders /\
    fs_globby (disk s) (abs s (js "web/app/" ++ folder)) = Done in1 /\
    fs_globby (disk s) (abs s (js "web/wp/wp-content/" ++ folder))
    = Done in2 /\
    In x in1 /\ In x in2.

(** [systemOnly m]: [m] never throws an [Interruption]. *)
Definition systemOnly {F A} (m : M F A) : Prop :=
  forall s e s', m s = Throws e s' -> exists msg, e = SystemError msg.

(** [grows s s' evs]: from [s] to [s'] the trace has grown by [evs], the
    table has gone through the statements of [evs], and the root is the
    same. *)
Definition grows {F} (s s' : State F) (evs : list Event) : Prop :=
  trace s' = trace s ++ evs /\
  wp_options s' = replay evs (wp_options s) /\
  root s' = root s.

(** The moves [moveWpContents] makes for the entries [files] of a content
    folder, by the engine of root [r]. *)
Definition movesOf (r wpFolder : jsstring) (files : list jsstring)
  : list Event :=
  map (fun file =>
         Mv (r ++ js "/" ++ js "web/app/" ++ wpFolder ++ js "/" ++ file)
            (r ++ js "/" ++ js "web/wp/wp-content/" ++ wpFolder
               ++ js "/" ++ file))
      files.

(** The loop of [moveWpContents] on the disk alone: [mv] is called for the
    entries in their order until a call fails; the result is the number of
    calls made, the result of the last of them, and the disk they leave. *)
Fixpoint moveAll {F} `{FileSystem F} (r wpFolder : jsstring)
  (files : list jsstring) (d : F) : nat * Try unit * F :=
  match files with
  | [] => (0, Done tt, d)
  | file :: files' =>
      let src := r ++ js "/" ++ js "web/app/" ++ wpFolder ++ js "/" ++ file in
      let dest := r ++ js "/" ++ js "web/wp/wp-content/" ++ wpFolder
                  ++ js "/" ++ file in
      match fs_mv d src dest with
      | (Done _, d') =>
          let '(n, result, d'') := moveAll r wpFolder files' d' in
          (S n, result, d'')
      | (Failed m, d') => (1, Failed m, d')
      end
  end.

Definition isMove (e : Event) : bool :=
  match e with
  | Mv _ _ => true
  | _ => false
  end.

(** ** A file system with a working directory

    A path that does not begin with a slash is taken from the working
    directory of the process, as the libraries do. *)
Record ProcFS := { proc_cwd : jsstring; proc_disk : MemFS }.

Definition resolve (p : ProcFS) (path : jsstring) : jsstring :=
  if startsWith (js "/") path then path
  else proc_cwd p ++ js "/" ++ path.

Definition onDisk (p : ProcFS) (r : Try unit * MemFS) : Try unit * ProcFS :=
  (fst r, {| proc_cwd := proc_cwd p; proc_disk := snd r |}).

#[export] Instance ProcFileSystem : FileSystem ProcFS := {
  fs_access := fun p path => mem_access (proc_disk p) (resolve p path);
  fs_entries := fun p cwd => mem_entries (proc_disk p) (resolve p cwd);
  fs_makeDir := fun p path =>
    onDisk p (mem_makeDir (proc_disk p) (resolve p path));
  fs_mv := fun p src dest =>
    onDisk p (mem_mv (proc_disk p) (resolve p src) (resolve p dest));
  fs_readFile := fun p path => mem_readFile (proc_disk p) (resolve p path);
  fs_writeFile := fun p path data =>
    onDisk p (mem_writeFile (proc_disk p) (resolve p path) data);
  fs_envFile := fun p path => mem_envFile (proc_disk p) (resolve p path);
  fs_pipe := fun p dest data =>
    onDisk p (mem_writeFile (proc_disk p) (resolve p dest) data)
}.

(** The example site, with the process started in [/site]. *)
Definition sampleProc : ProcFS :=
  {| proc_cwd := js "/site"; proc_disk := sampleDisk |}.

(** The events of the database procedure. *)
Definition isDbEvent (e : Event) : bool :=
  match e with
  | Enter _ | Leave _ | Query _ | Pipe _ => true
  | _ => false
  end.

(** The statements of the rewrite step for the site URL [url]. *)
Definition rewriteStatements (url : SqlValue) : list Statement :=
  [DeleteOptions [js "siteurl"; js "home"];
   InsertOption (js "siteurl") url;
   InsertOption (js "home") url].

(** The trace of a database procedure that goes through. *)
Definition dbTrace (dest : jsstring) (url : SqlValue) : list Event :=
  [Enter MysqlBackup; Pipe dest; Leave MysqlBackup;
   Enter MysqlConnect; Leave MysqlConnect; Enter UpdateDbSiteUrl]
  ++ map Query (rewriteStatements url)
  ++ [Leave UpdateDbSiteUrl; Enter MysqlDisconnect; Leave MysqlDisconnect].


(** ** The first draft of the engine

    In the first drafts [exists] awaits the probe and returns nothing, and
    [checkPresence] takes the paths to check. *)

(** What [exists] of the draft returns: [undefined], whatever the probe
    says. *)
Definition existsDraft {F} `{FileSystem F} (s : State F)
  (relPath : jsstring) : option bool :=
  let _ := fs_access (disk s) (abs s relPath) in None.

(** Truthiness of what [exists] returned. *)
Definition truthyBool (v : option bool) : bool :=
  match v with
  | Some b => b
  | None => false
  end.

Definition archiveDraft {F} `{FileSystem F} (path : jsstring)
  : M F FalseOrUndefined :=
  present <- gets (fun s => existsDraft s path) ;;
  if negb (truthyBool present) then ret JsFalse
  else
    let path := trimStart path (ch "/") in
    (fun s => mv (abs s path) (abs s (js ".debedrockify/old/" ++ path)) s) ;;;
    ret JsUndefined.

Definition moveWpContentsDraft {F} `{FileSystem F} (wpFolder : jsstring)
  : M F FalseOrUndefined :=
  let cwd := js "web/app/" ++ wpFolder in
  present <- gets (fun s => existsDraft s cwd) ;;
  if negb (truthyBool present) then ret JsFalse
  else
    (fun s => makeDir (abs s (js "web/wp/wp-content/" ++ wpFolder)) s) ;;;
    files <- globby cwd ;;
    forEach files
      (fun file =>
         let src := js "web/app/" ++ wpFolder ++ js "/" ++ file in
         let dest := js "web/wp/wp-content/" ++ wpFolder ++ js "/" ++ file in
         fun s => mv (abs s src) (abs s dest) s) ;;;
    ret JsUndefined.

(** The array [absent] of the draft: for each path, [undefined] if the
    probe succeeds and the path if it fails. *)
Definition absentDraft {F} `{FileSystem F} (s : State F)
  (paths : list jsstring) : list (option jsstring) :=
  map (fun p => if fs_access (disk s) (abs s p) then None else Some p) paths.

(** lodash [filter] without a predicate keeps the truthy values: here the
    strings that are not empty. *)
Definition compact (l : list (option jsstring)) : list jsstring :=
  flat_map (fun v => match v with
                     | Some (c :: r) => [c :: r]
                     | _ => []
                     end) l.

Definition checkPresenceDraft {F} `{FileSystem F} (paths : list jsstring)
  : M F unit :=
  absent <- gets (fun s => absentDraft s paths) ;;
  if negb (length (compact absent) =? 0) then
    throw (Interruption (formatPaths (compact absent) ++ js " not present"))
  else ret tt.

(** ** Facts about strings *)

Lemma jschar_eqb_eq (a b : jschar) : jschar_eqb a b = true <-> a = b.
Proof. apply N.eqb_eq. Qed.

Lemma jschar_eqb_refl (a : jschar) : jschar_eqb a a = true.
Proof. apply N.eqb_refl. Qed.

Lemma jsstring_eqb_eq (a b : jsstring) : jsstring_eqb a b = true <-> a = b.
Proof.
  revert b; induction a as [|x a IH]; intros [|y b]; simpl; split;
    try congruence; try reflexivity.
  - intros H. apply andb_true_iff in H as [H1 H2].
    apply jschar_eqb_eq in H1. apply IH in H2. congruence.
  - intros H. inversion H; subst. rewrite jschar_eqb_refl. simpl.
    now apply IH.
Qed.

Lemma startsWith_app (p r : jsstring) : startsWith p (p ++ r) = true.
Proof.
  induction p as [|a p IH]; simpl; [reflexivity|].
  now rewrite jschar_eqb_refl.
Qed.

Lemma startsWith_inv (p s : jsstring) :
  startsWith p s = true -> s = p ++ skipn (length p) s.
Proof.
  revert s; induction p as [|a p IH]; intros s H; simpl in *; [reflexivity|].
  destruct s as [|b s]; [discriminate|].
  apply andb_true_iff in H as [H1 H2].
  apply jschar_eqb_eq in H1. subst b. simpl. f_equal. now apply IH.
Qed.

Lemma startsWith_iff (p s : jsstring) :
  startsWith p s = true <-> exists r, s = p ++ r.
Proof.
  split.
  - intros H. eexists. now apply startsWith_inv.
  - intros [r ->]. apply startsWith_app.
Qed.

(** Matching [p] against [a ++ x] splits along [a]. *)
Lemma startsWith_split (p a x : jsstring) :
  startsWith p (a ++ x) =
  startsWith (firstn (length a) p) a && startsWith (skipn (length a) p) x.
Proof.
  revert p; induction a as [|c a IH]; intros p; simpl.
  - reflexivity.
  - destruct p as [|d p]; simpl; [reflexivity|].
    rewrite IH. now rewrite andb_assoc.
Qed.

(** [search] finds the first index at which the pattern matches. *)
Lemma search_Some (p s : jsstring) (i : nat) :
  search p s = Some i ->
  startsWith p (skipn i s) = true /\ i <= length s /\
  forall j, j < i -> startsWith p (skipn j s) = false.
Proof.
  revert i; induction s as [|c s IH]; intros i; simpl.
  - destruct (startsWith p []) eqn:E; [|discriminate].
    intros [= <-]. simpl. rewrite E. repeat split; auto. intros j Hj; lia.
  - destruct (startsWith p (c :: s)) eqn:E.
    + intros [= <-]. simpl. rewrite E. repeat split; auto with arith.
      intros j Hj; lia.
    + destruct (search p s) as [i'|]; [|discriminate].
      simpl. intros [= <-]. destruct (IH i' eq_refl) as (H1 & H2 & H3).
      simpl. repeat split; auto with arith.
      intros [|j] Hj; simpl; [exact E|]. apply H3. lia.
Qed.

Lemma search_None (p s : jsstring) :
  search p s = None -> forall j, startsWith p (skipn j s) = false.
Proof.
  induction s as [|c s IH]; simpl.
  - destruct (startsWith p []) eqn:E; [discriminate|].
    intros _ [|j]; simpl; exact E.
  - destruct (startsWith p (c :: s)) eqn:E; [discriminate|].
    destruct (search p s); [discriminate|].
    intros _ [|j]; simpl; [exact E|]. now apply IH.
Qed.

(** Skipping a stretch in which the pattern does not start. *)
Lemma search_skip (p x s : jsstring) :
  (forall j, j < length x -> startsWith p (skipn j (x ++ s)) = false) ->
  search p (x ++ s) = option_map (Nat.add (length x)) (search p s).
Proof.
  induction x as [|c x IH]; intros H; simpl.
  - destruct (search p s); reflexivity.
  - pose proof (H 0) as H0. simpl in H0. rewrite H0 by lia. rewrite IH.
    + destruct (search p s); reflexivity.
    + intros j Hj. apply (H (S j)). simpl; lia.
Qed.

Lemma search_occurs (p a b : jsstring) : search p (a ++ p ++ b) <> None.
Proof.
  intros H. pose proof (search_None _ _ H (length a)) as H'.
  rewrite skipn_app, skipn_all, Nat.sub_diag in H'. simpl in H'.
  now rewrite startsWith_app in H'.
Qed.

Lemma search_decompose (p s : jsstring) (i : nat) :
  search p s = Some i ->
  s = firstn i s ++ p ++ skipn (i + length p) s /\ length (firstn i s) = i.
Proof.
  intros H. destruct (search_Some _ _ _ H) as (H1 & H2 & _).
  apply startsWith_inv in H1. split.
  - rewrite skipn_skipn in H1. rewrite (Nat.add_comm i).
    rewrite <- H1. symmetry. apply firstn_skipn.
  - apply firstn_length_le. exact H2.
Qed.

Lemma in_skipn {A} (x : A) (n : nat) (l : list A) :
  In x (skipn n l) -> In x l.
Proof.
  intros H. rewrite <- (firstn_skipn n l). apply in_or_app. now right.
Qed.

Lemma in_firstn {A} (x : A) (n : nat) (l : list A) :
  In x (firstn n l) -> In x l.
Proof.
  intros H. rewrite <- (firstn_skipn n l). apply in_or_app. now left.
Qed.

(** ** Facts about the secret loop *)

Lemma getSubstitution_plain (matched before after repl : jsstring) :
  existsb (jschar_eqb (ch "$")) repl = false ->
  getSubstitution matched before after repl = repl.
Proof.
  induction repl as [|c r IH]; simpl; [reflexivity|].
  intros H. apply orb_false_iff in H as [H1 H2].
  assert (E : jschar_eqb c (ch "$") = false).
  { unfold jschar_eqb in *. rewrite N.eqb_sym. exact H1. }
  rewrite E. f_equal. now apply IH.
Qed.

Lemma replace_plain (s pat repl : jsstring) (i : nat) :
  search pat s = Some i ->
  existsb (jschar_eqb (ch "$")) repl = false ->
  replace s pat repl = firstn i s ++ repl ++ skipn (i + length pat) s.
Proof.
  intros H Hp. unfold replace. rewrite H.
  now rewrite getSubstitution_plain.
Qed.

Lemma isToken_length (tok : jsstring) : isToken tok = true -> length tok = 64.
Proof.
  unfold isToken. intros H. apply andb_true_iff in H as [H _].
  now apply Nat.eqb_eq.
Qed.

Lemma isToken_alnum (tok : jsstring) (c : jschar) :
  isToken tok = true -> In c tok -> isAlphanumeric c = true.
Proof.
  unfold isToken. intros H Hc. apply andb_true_iff in H as [_ H].
  rewrite forallb_forall in H. now apply H.
Qed.

Lemma isToken_plain (tok : jsstring) :
  isToken tok = true -> existsb (jschar_eqb (ch "$")) tok = false.
Proof.
  intros H. destruct (existsb _ tok) eqn:E; [|reflexivity].
  apply existsb_exists in E as (c & Hc & Hd).
  apply jschar_eqb_eq in Hd. subst c.
  apply (isToken_alnum _ _ H) in Hc. discriminate.
Qed.

Lemma isToken_no_space (tok : jsstring) :
  isToken tok = true -> countChar space tok = 0.
Proof.
  intros H. unfold countChar. apply count_occ_not_In. intros Hc.
  apply (isToken_alnum _ _ H) in Hc. discriminate.
Qed.

(** A token never contains the placeholder: the placeholder has spaces. *)
Lemma isToken_no_placeholder (tok : jsstring) :
  isToken tok = true -> search secretPlaceholder tok = None.
Proof.
  intros H. destruct (search secretPlaceholder tok) as [i|] eqn:E;
    [|reflexivity].
  apply search_decompose in E as [E _].
  assert (Hc : In space tok).
  { rewrite E. apply in_or_app. right. apply in_or_app. left.
    vm_compute. tauto. }
  apply (isToken_alnum _ _ H) in Hc. discriminate.
Qed.

Lemma countChar_app (c : jschar) (a b : jsstring) :
  countChar c (a ++ b) = countChar c a + countChar c b.
Proof. apply count_occ_app. Qed.

(** One turn of the loop takes the four spaces of an occurrence away. *)
Lemma replace_spaces (t tok : jsstring) (i : nat) :
  isToken tok = true ->
  search secretPlaceholder t = Some i ->
  countChar space (replace t secretPlaceholder tok) + 4 = countChar space t.
Proof.
  intros Ht Hs. rewrite (replace_plain _ _ _ _ Hs (isToken_plain _ Ht)).
  destruct (search_decompose _ _ _ Hs) as [E _].
  rewrite E at 3. rewrite !countChar_app.
  rewrite (isToken_no_space _ Ht).
  change (countChar space secretPlaceholder) with 4. lia.
Qed.

Lemma search_spaces (t : jsstring) (i : nat) :
  search secretPlaceholder t = Some i -> 4 <= countChar space t.
Proof.
  intros Hs. destruct (search_decompose _ _ _ Hs) as [E _].
  rewrite E, !countChar_app.
  change (countChar space secretPlaceholder) with 4. lia.
Qed.

Lemma indexOf_absent (s p : jsstring) :
  (indexOf s p =? -1)%Z = true <-> search p s = None.
Proof.
  unfold indexOf. destruct (search p s) as [i|]; split; intros H;
    try reflexivity; try discriminate.
  apply Z.eqb_eq in H. lia.
Qed.

Lemma secretLoop_done (fuel : nat) (gen : nat -> jsstring) (k : nat)
  (t : jsstring) :
  search secretPlaceholder t = None ->
  secretLoop fuel gen k t = Some (t, k).
Proof.
  intros H. apply indexOf_absent in H.
  destruct fuel; simpl; now rewrite H.
Qed.

Lemma secretLoop_step (fuel : nat) (gen : nat -> jsstring) (k i : nat)
  (t : jsstring) :
  search secretPlaceholder t = Some i ->
  secretLoop (S fuel) gen k t =
  secretLoop fuel gen (S k) (replace t secretPlaceholder (gen k)).
Proof.
  intros H. simpl.
  destruct (indexOf t secretPlaceholder =? -1)%Z eqn:E; [|reflexivity].
  apply indexOf_absent in E. congruence.
Qed.

Lemma secretLoop_spent (gen : nat -> jsstring) (k i : nat) (t : jsstring) :
  search secretPlaceholder t = Some i -> secretLoop 0 gen k t = None.
Proof.
  intros H. simpl.
  destruct (indexOf t secretPlaceholder =? -1)%Z eqn:E; [|reflexivity].
  apply indexOf_absent in E. congruence.
Qed.

(** The text the loop returns holds no placeholder. *)
Lemma secretLoop_clean (fuel : nat) (gen : nat -> jsstring) :
  forall k t out n,
    secretLoop fuel gen k t = Some (out, n) ->
    search secretPlaceholder out = None.
Proof.
  induction fuel as [|fuel IH]; intros k t out n; simpl;
    destruct (indexOf t secretPlaceholder =? -1)%Z eqn:E;
    try discriminate.
  - intros [= <- <-]. now apply indexOf_absent.
  - intros [= <- <-]. now apply indexOf_absent.
  - apply IH.
Qed.

(** With tokens of the random source the loop stops: every turn takes four
    spaces away. *)
Lemma secretLoop_total (gen : nat -> jsstring) :
  (forall k, isToken (gen k) = true) ->
  forall fuel k t,
    countChar space t < 4 * S fuel ->
    exists out n, secretLoop fuel gen k t = Some (out, n).
Proof.
  intros Hg. induction fuel as [|fuel IH]; intros k t Hm.
  - destruct (search secretPlaceholder t) as [i|] eqn:E.
    + apply search_spaces in E. lia.
    + exists t, k. now apply secretLoop_done.
  - destruct (search secretPlaceholder t) as [i|] eqn:E.
    + rewrite (secretLoop_step _ _ _ _ _ E). apply IH.
      pose proof (replace_spaces _ _ _ (Hg k) E). lia.
    + exists t, k. now apply secretLoop_done.
Qed.

Lemma boundaryFree_spec (p tok : jsstring) (m : nat) :
  boundaryFree p tok = true -> 0 < m < length p ->
  startsWith (skipn m p) tok = false /\ endsWith (firstn m p) tok = false.
Proof.
  unfold boundaryFree. intros H Hm. rewrite forallb_forall in H.
  assert (Hin : In m (seq 1 (length p - 1))) by (apply in_seq; lia).
  apply H in Hin. apply andb_true_iff in Hin as [H1 H2].
  now rewrite negb_true_iff in H1, H2.
Qed.

(** A good token put after a stretch without placeholder leaves the whole
    stretch, token included, without placeholder. *)
Lemma inert_fresh (pre suf tok : jsstring) :
  (forall j, j < length pre ->
     startsWith secretPlaceholder
       (skipn j (pre ++ secretPlaceholder ++ suf)) = false) ->
  goodToken tok = true ->
  inert (pre ++ tok).
Proof.
  intros H Hg s j Hj. apply andb_true_iff in Hg as [Ht Hb].
  pose proof (isToken_length _ Ht) as Hlen.
  assert (HP : length secretPlaceholder = 27) by reflexivity.
  rewrite length_app in Hj. rewrite <- app_assoc.
  destruct (Nat.lt_ge_cases j (length pre)) as [Hlt|Hge].
  - specialize (H j Hlt). rewrite skipn_app in *.
    replace (j - length pre) with 0 in * by lia. simpl skipn in *.
    pose proof (length_skipn j pre) as La.
    remember (skipn j pre) as a eqn:Ea. clear Ea.
    rewrite startsWith_split in *.
    destruct (Nat.lt_ge_cases (length a) (length secretPlaceholder))
      as [Hm|Hm].
    + destruct (boundaryFree_spec _ _ (length a) Hb) as [Hs _]; [lia|].
      rewrite (startsWith_split _ tok s).
      rewrite (@firstn_all2 _ (length tok))
        by (rewrite length_skipn; lia).
      rewrite Hs. simpl. apply andb_false_r.
    + rewrite skipn_all2 in * by lia. simpl in *.
      rewrite andb_true_r in *. exact H.
  - rewrite skipn_app. rewrite skipn_all2 by lia. cbn [app].
    rewrite skipn_app.
    replace (j - length pre - length tok) with 0 by lia. simpl skipn.
    set (j' := j - length pre).
    pose proof (length_skipn j' tok) as Lc.
    assert (Hj' : j' < length tok) by (subst j'; lia).
    pose proof (search_None _ _ (isToken_no_placeholder _ Ht) j') as Hno.
    remember (skipn j' tok) as c eqn:Ec.
    rewrite startsWith_split.
    destruct (Nat.lt_ge_cases (length c) (length secretPlaceholder))
      as [Hm|Hm].
    + destruct (boundaryFree_spec _ _ (length c) Hb) as [_ He]; [lia|].
      destruct (startsWith (firstn (length c) secretPlaceholder) c) eqn:E;
        [|reflexivity].
      exfalso. apply startsWith_inv in E.
      rewrite length_firstn in E.
      replace (Nat.min (length c) (length secretPlaceholder))
        with (length c) in E by lia.
      rewrite (skipn_all c), app_nil_r in E.
      unfold endsWith in He. rewrite length_firstn in He.
      replace (Nat.min (length c) (length secretPlaceholder))
        with (length c) in He by lia.
      replace (length tok - length c) with j' in He by lia.
      rewrite <- E in He. rewrite <- Ec in He.
      assert (Hr : jsstring_eqb c c = true) by now apply jsstring_eqb_eq.
      rewrite Hr in He.
      assert (Hl : (length c <=? length tok) = true)
        by (apply Nat.leb_le; lia).
      rewrite Hl in He. discriminate.
    + rewrite firstn_all2 by lia. now rewrite Hno.
Qed.

Lemma inert_search (x s : jsstring) :
  inert x ->
  search secretPlaceholder (x ++ s) =
  option_map (Nat.add (length x)) (search secretPlaceholder s).
Proof. intros H. apply search_skip. intros j Hj. now apply H. Qed.

Lemma inert_replace (x s tok : jsstring) :
  inert x -> isToken tok = true ->
  replace (x ++ s) secretPlaceholder tok =
  x ++ replace s secretPlaceholder tok.
Proof.
  intros Hx Ht. unfold replace. rewrite (inert_search _ s Hx).
  destruct (search secretPlaceholder s) as [i|]; simpl; [|reflexivity].
  rewrite !getSubstitution_plain by now apply isToken_plain.
  rewrite firstn_app_2, <- app_assoc. f_equal. f_equal. f_equal.
  rewrite skipn_app. rewrite skipn_all2 by lia. simpl. f_equal. lia.
Qed.

(** The loop leaves an inert beginning of the text alone. *)
Lemma secretLoop_inert (gen : nat -> jsstring) (x : jsstring) :
  inert x -> (forall k, isToken (gen k) = true) ->
  forall fuel k s,
    secretLoop fuel gen k (x ++ s) =
    option_map (fun r => (x ++ fst r, snd r)) (secretLoop fuel gen k s).
Proof.
  intros Hx Hg. induction fuel as [|fuel IH]; intros k s;
    pose proof (inert_search _ s Hx) as E;
    destruct (search secretPlaceholder s) as [i|] eqn:Es; simpl in E.
  - now rewrite (secretLoop_spent _ _ _ _ E), (secretLoop_spent _ _ _ _ Es).
  - rewrite !secretLoop_done by assumption. reflexivity.
  - rewrite (secretLoop_step _ _ _ _ _ E), (secretLoop_step _ _ _ _ _ Es).
    rewrite inert_replace by auto. apply IH.
  - rewrite !secretLoop_done by assumption. reflexivity.
Qed.

Lemma replaceEachOf_skip (p : jsstring) (gen : nat -> jsstring)
  (a s : jsstring) :
  forall k, replaceEachOf p gen k (length a) (a ++ s)
            = replaceEachOf p gen k 0 s.
Proof.
  induction a as [|c a IH]; intros k; simpl; [|apply IH].
  destruct s; reflexivity.
Qed.

Lemma replaceEachOf_prefix (p : jsstring) (gen : nat -> jsstring) (k : nat)
  (x s : jsstring) :
  (forall j, j < length x -> startsWith p (skipn j (x ++ s)) = false) ->
  replaceEachOf p gen k 0 (x ++ s) = x ++ replaceEachOf p gen k 0 s.
Proof.
  induction x as [|c x IH]; intros H; [reflexivity|].
  pose proof (H 0) as H0. cbn [skipn] in H0.
  change ((c :: x) ++ s) with (c :: x ++ s) in *.
  cbn [replaceEachOf]. rewrite H0 by (cbn [length]; lia).
  cbn [app]. f_equal. apply IH.
  intros j Hj. apply (H (S j)). cbn [length]; lia.
Qed.

Lemma replaceEachOf_match (p : jsstring) (gen : nat -> jsstring) (k : nat)
  (s : jsstring) :
  p <> [] ->
  replaceEachOf p gen k 0 (p ++ s) = gen k ++ replaceEachOf p gen (S k) 0 s.
Proof.
  destruct p as [|c p]; [congruence|]. intros _.
  change ((c :: p) ++ s) with (c :: p ++ s).
  cbn [replaceEachOf].
  change (c :: p ++ s) with ((c :: p) ++ s).
  rewrite startsWith_app. f_equal.
  replace (length (c :: p) - 1) with (length p) by (cbn [length]; lia).
  apply replaceEachOf_skip.
Qed.

Lemma placeholder_cons :
  secretPlaceholder = hd 0%N secretPlaceholder :: tl secretPlaceholder.
Proof. reflexivity. Qed.

Lemma placeholder_nonempty : secretPlaceholder <> [].
Proof. rewrite placeholder_cons. discriminate. Qed.

Lemma replaceEach_prefix (gen : nat -> jsstring) (k : nat) (x s : jsstring) :
  (forall j, j < length x ->
     startsWith secretPlaceholder (skipn j (x ++ s)) = false) ->
  replaceEach gen k 0 (x ++ s) = x ++ replaceEach gen k 0 s.
Proof. apply replaceEachOf_prefix. Qed.

Lemma replaceEach_match (gen : nat -> jsstring) (k : nat) (s : jsstring) :
  replaceEach gen k 0 (secretPlaceholder ++ s) =
  gen k ++ replaceEach gen (S k) 0 s.
Proof. apply replaceEachOf_match. exact placeholder_nonempty. Qed.

Lemma occurrences_skip (p x s : jsstring) :
  (forall j, j < length x -> startsWith p (skipn j (x ++ s)) = false) ->
  occurrences p (x ++ s) = occurrences p s.
Proof.
  induction x as [|c x IH]; intros H; [reflexivity|].
  pose proof (H 0) as H0. simpl in H0. simpl. rewrite H0 by lia.
  simpl. apply IH. intros j Hj. apply (H (S j)). simpl; lia.
Qed.

Lemma occurrences_head (p s : jsstring) :
  p <> [] -> occurrences p (p ++ s) = S (occurrences p (tl p ++ s)).
Proof.
  destruct p as [|c p]; [congruence|]. intros _.
  change ((c :: p) ++ s) with (c :: p ++ s).
  cbn [occurrences tl].
  change (c :: p ++ s) with ((c :: p) ++ s).
  now rewrite startsWith_app.
Qed.

(** The placeholder does not overlap itself. *)
Lemma placeholder_unbordered (s : jsstring) (j : nat) :
  j < length (tl secretPlaceholder) ->
  startsWith secretPlaceholder (skipn j (tl secretPlaceholder ++ s)) = false.
Proof.
  intros Hj. rewrite skipn_app.
  replace (j - length (tl secretPlaceholder)) with 0 by lia.
  cbn [skipn].
  rewrite startsWith_split.
  assert (E : forallb (fun j =>
              negb (startsWith
                      (firstn (length (skipn j (tl secretPlaceholder)))
                         secretPlaceholder)
                      (skipn j (tl secretPlaceholder))))
            (seq 0 (length (tl secretPlaceholder))) = true)
    by (vm_compute; reflexivity).
  rewrite forallb_forall in E.
  assert (Hin : In j (seq 0 (length (tl secretPlaceholder))))
    by (apply in_seq; lia).
  apply E in Hin. apply negb_true_iff in Hin. now rewrite Hin.
Qed.

Lemma occurrences_match (s : jsstring) :
  occurrences secretPlaceholder (secretPlaceholder ++ s) =
  S (occurrences secretPlaceholder s).
Proof.
  rewrite (occurrences_head _ s placeholder_nonempty). apply f_equal.
  apply occurrences_skip. intros j Hj. now apply placeholder_unbordered.
Qed.

Lemma occurrences_zero (p s : jsstring) :
  occurrences p s = 0 <-> search p s = None.
Proof.
  induction s as [|c s IH]; simpl.
  - destruct (startsWith p []); simpl; split; congruence.
  - destruct (startsWith p (c :: s)); simpl.
    + split; [lia|congruence].
    + rewrite IH. destruct (search p s); simpl; split; congruence.
Qed.

(** Splitting a text at the first occurrence of the placeholder. *)
Lemma first_occurrence (t : jsstring) (i : nat) :
  search secretPlaceholder t = Some i ->
  exists pre suf,
    t = pre ++ secretPlaceholder ++ suf /\ length pre = i /\
    (forall j, j < length pre ->
       startsWith secretPlaceholder
         (skipn j (pre ++ secretPlaceholder ++ suf)) = false) /\
    occurrences secretPlaceholder t = S (occurrences secretPlaceholder suf).
Proof.
  intros H. destruct (search_decompose _ _ _ H) as [E L].
  destruct (search_Some _ _ _ H) as (_ & _ & Hn).
  exists (firstn i t), (skipn (i + length secretPlaceholder) t).
  rewrite <- E. repeat split; auto.
  - intros j Hj. apply Hn. lia.
  - rewrite E at 1. rewrite occurrences_skip.
    + apply occurrences_match.
    + intros j Hj. rewrite <- E. apply Hn. lia.
Qed.

(** With good tokens the loop is the replacement of the specification: it
    makes as many calls as the text has occurrences, and the i-th
    occurrence receives the i-th token. *)
Lemma secretLoop_replaceEach (gen : nat -> jsstring) :
  (forall k, goodToken (gen k) = true) ->
  forall fuel t k,
    occurrences secretPlaceholder t <= fuel ->
    secretLoop fuel gen k t =
    Some (replaceEach gen k 0 t, k + occurrences secretPlaceholder t).
Proof.
  intros Hg.
  assert (Ht : forall k, isToken (gen k) = true).
  { intros k. specialize (Hg k). now apply andb_true_iff in Hg as [? _]. }
  assert (Hnone : forall t k, search secretPlaceholder t = None ->
            replaceEach gen k 0 t = t).
  { intros t k Hs. rewrite <- (app_nil_r t) at 1.
    rewrite replaceEach_prefix; [apply app_nil_r|].
    intros j _. rewrite app_nil_r. now apply search_None. }
  induction fuel as [|fuel IH]; intros t k Hle.
  - assert (E : occurrences secretPlaceholder t = 0) by lia.
    rewrite E. apply occurrences_zero in E.
    rewrite secretLoop_done, Hnone by assumption. now rewrite Nat.add_0_r.
  - destruct (search secretPlaceholder t) as [i|] eqn:Es.
    + rewrite (secretLoop_step _ _ _ _ _ Es).
      rewrite (replace_plain _ _ _ _ Es (isToken_plain _ (Ht k))).
      destruct (first_occurrence _ _ Es) as (pre & suf & E & L & Hn & Ho).
      rewrite Ho. rewrite E at 3.
      rewrite replaceEach_prefix by exact Hn.
      rewrite replaceEach_match.
      replace (firstn i t) with pre
        by (subst i; rewrite E; now rewrite firstn_app, firstn_all,
              Nat.sub_diag, app_nil_r).
      replace (skipn (i + length secretPlaceholder) t) with suf.
      2:{ subst i. rewrite E. rewrite app_assoc, skipn_app.
          rewrite skipn_all2 by (rewrite length_app; lia).
          rewrite length_app, Nat.sub_diag. reflexivity. }
      rewrite app_assoc.
      rewrite (secretLoop_inert gen (pre ++ gen k)
                 (inert_fresh _ _ _ Hn (Hg k)) Ht).
      rewrite IH by lia. simpl. rewrite <- app_assoc.
      do 2 f_equal. lia.
    + pose proof Es as Ez. apply occurrences_zero in Ez. rewrite Ez.
      rewrite secretLoop_done, Hnone by assumption. now rewrite Nat.add_0_r.
Qed.

Lemma secretLoop_more_fuel (gen : nat -> jsstring) :
  forall fuel fuel' k t r,
    secretLoop fuel gen k t = Some r -> fuel <= fuel' ->
    secretLoop fuel' gen k t = Some r.
Proof.
  induction fuel as [|fuel IH]; intros fuel' k t r Hr Hle.
  - destruct (search secretPlaceholder t) as [i|] eqn:E.
    + now rewrite (secretLoop_spent _ _ _ _ E) in Hr.
    + rewrite secretLoop_done in Hr by assumption.
      rewrite secretLoop_done by assumption. exact Hr.
  - destruct (search secretPlaceholder t) as [i|] eqn:E.
    + destruct fuel' as [|fuel']; [lia|].
      rewrite (secretLoop_step fuel _ _ _ _ E) in Hr.
      rewrite (secretLoop_step fuel' _ _ _ _ E).
      apply IH with (fuel' := fuel') in Hr; [exact Hr|lia].
    + rewrite secretLoop_done in Hr by assumption.
      rewrite secretLoop_done by assumption. exact Hr.
Qed.

Lemma join_cons (sep x : jsstring) (l : list jsstring) :
  l <> [] -> join sep (x :: l) = x ++ sep ++ join sep l.
Proof. destruct l; [congruence|reflexivity]. Qed.

(** The replacement of the specification, spelled out on the segments of
    the text between the occurrences. *)
Lemma replaceEach_weave (gen : nat -> jsstring) :
  forall n t k,
    occurrences secretPlaceholder t = n ->
    exists segs,
      length segs = S n /\ t = join secretPlaceholder segs /\
      replaceEach gen k 0 t = weave segs (map gen (seq k n)).
Proof.
  induction n as [|n IH]; intros t k Ho.
  - exists [t]. repeat split. simpl.
    apply occurrences_zero in Ho.
    rewrite <- (app_nil_r t) at 1.
    rewrite replaceEach_prefix; [apply app_nil_r|].
    intros j _. rewrite app_nil_r. now apply search_None.
  - destruct (search secretPlaceholder t) as [i|] eqn:Es.
    2:{ apply occurrences_zero in Es. lia. }
    destruct (first_occurrence _ _ Es) as (pre & suf & E & L & Hn & Hc).
    destruct (IH suf (S k)) as (segs & Hl & Hj & Hr); [lia|].
    exists (pre :: segs). split; [simpl; lia|].
    assert (Hne : segs <> []) by (destruct segs; [discriminate|congruence]).
    split.
    + rewrite join_cons by exact Hne. now rewrite <- Hj.
    + rewrite E at 1. rewrite replaceEach_prefix by exact Hn.
      rewrite replaceEach_match, Hr.
      destruct segs as [|s0 segs]; [congruence|]. reflexivity.
Qed.


Lemma digit_alnum (n : nat) : isAlphanumeric (digit n) = true.
Proof.
  unfold digit, isAlphanumeric.
  pose proof (Nat.mod_upper_bound n 10).
  assert (E1 : (48 <=? N.of_nat (48 + n mod 10))%N = true)
    by (apply N.leb_le; lia).
  assert (E2 : (N.of_nat (48 + n mod 10) <=? 57)%N = true)
    by (apply N.leb_le; lia).
  now rewrite E1, E2.
Qed.

Lemma forallb_repeat {A} (f : A -> bool) (x : A) (n : nat) :
  f x = true -> forallb f (repeat x n) = true.
Proof. intros H. induction n; simpl; [reflexivity|]. now rewrite H. Qed.

Lemma hereToken_isToken (k : nat) : isToken (hereToken k) = true.
Proof.
  unfold isToken, hereToken. apply andb_true_iff. split; [reflexivity|].
  rewrite !forallb_app. cbn [forallb]. rewrite !digit_alnum.
  rewrite forallb_repeat by reflexivity.
  rewrite !andb_true_r. vm_compute. reflexivity.
Qed.

Lemma sampleToken_isToken (k : nat) : isToken (sampleToken k) = true.
Proof.
  unfold isToken, sampleToken. apply andb_true_iff. split; [reflexivity|].
  rewrite !forallb_app. cbn [forallb]. rewrite !digit_alnum.
  now rewrite forallb_repeat by reflexivity.
Qed.

Lemma NoDup_map_injective {A B} (f : A -> B) (l : list A) :
  (forall x y, In x l -> In y l -> f x = f y -> x = y) ->
  NoDup l -> NoDup (map f l).
Proof.
  intros Hf Hl. induction Hl as [|x l Hx Hl IH]; simpl; constructor.
  - intros Hin. apply in_map_iff in Hin as (y & E & Hy).
    apply Hf in E; [now subst y|now right|now left].
  - apply IH. intros a b Ha Hb. apply Hf; now right.
Qed.

(** A token whose first and last characters are foreign to the pattern
    completes no occurrence of it. *)
Lemma boundaryFree_ends (p tok mid : jsstring) (a b : jschar) :
  tok = a :: mid ++ [b] -> ~ In a p -> ~ In b p ->
  boundaryFree p tok = true.
Proof.
  intros Et Ha Hb. unfold boundaryFree. apply forallb_forall.
  intros m Hm. apply in_seq in Hm.
  apply andb_true_iff. split; apply negb_true_iff.
  - destruct (skipn m p) as [|c r] eqn:Ek.
    + apply (f_equal (@length _)) in Ek. rewrite length_skipn in Ek.
      simpl in Ek. lia.
    + subst tok. cbn [startsWith].
      destruct (jschar_eqb c a) eqn:Ec; [|reflexivity].
      apply jschar_eqb_eq in Ec. subst c. exfalso. apply Ha.
      apply (in_skipn _ m). rewrite Ek. now left.
  - unfold endsWith. apply andb_false_iff. right.
    destruct (jsstring_eqb _ _) eqn:E; [|reflexivity]. exfalso.
    apply jsstring_eqb_eq in E.
    assert (Hl : length (firstn m p) = m) by (apply firstn_length_le; lia).
    rewrite Hl in E. apply Hb. apply (in_firstn _ m). rewrite <- E.
    subst tok. change (a :: mid ++ [b]) with ((a :: mid) ++ [b]).
    rewrite skipn_app. apply in_or_app. right.
    match goal with
    | |- In b (skipn ?k [b]) =>
        replace k with 0 by (rewrite length_app; cbn [length]; lia)
    end.
    now left.
Qed.

Lemma digit_foreign (n : nat) : ~ In (digit n) secretPlaceholder.
Proof.
  intros Hin.
  assert (E : forallb (fun c => (c <? 48)%N || (57 <? c)%N)
                secretPlaceholder = true) by (vm_compute; reflexivity).
  rewrite forallb_forall in E. apply E in Hin.
  unfold digit in Hin. pose proof (Nat.mod_upper_bound n 10).
  apply orb_true_iff in Hin as [Hin|Hin]; apply N.ltb_lt in Hin; lia.
Qed.

Lemma sampleToken_good (i : nat) : goodToken (sampleToken i) = true.
Proof.
  unfold goodToken. apply andb_true_iff. split.
  - apply sampleToken_isToken.
  - apply (boundaryFree_ends secretPlaceholder (sampleToken i)
             ([digit (i / 100); digit (i / 10); digit i]
              ++ repeat (ch "x") 59) (digit (i / 1000)) (ch "x")).
    + reflexivity.
    + apply digit_foreign.
    + intros Hin. vm_compute in Hin.
      repeat (destruct Hin as [Hin|Hin]; [discriminate|]). exact Hin.
Qed.

(** * The configuration templater *)




(** C7, as the code has it: let the tokens of the random source be such
    that none begins with an end of the placeholder ([e], [re], [ere],
    [here]) or ends with a beginning of it ([p], [pu], [put]).  Then for
    the text that reaches the loop, with N occurrences of the placeholder,
    [populateWpConfig] makes N calls of the generator and returns the text
    in which the i-th occurrence has become the i-th token: the segments
    between the occurrences, with the N tokens in their order between them.
    If the N values the source yields in these calls differ pairwise, so
    do the N secrets of the text. *)
Theorem populateWpConfig_token_per_occurrence
  (gen : nat -> jsstring) (fuel k : nat) (template : jsstring) (env : Env) :
  (forall i, goodToken (gen i) = true) ->
  let text := applyRules (findReplace env) template in
  let N := occurrences secretPlaceholder text in
  N <= fuel ->
  populateWpConfig fuel gen k template env
  = Some (replaceEach gen k 0 text, k + N) /\
  (exists segs,
      length segs = S N /\ text = join secretPlaceholder segs /\
      replaceEach gen k 0 text = weave segs (map gen (seq k N))) /\
  ((forall i j, k <= i < k + N -> k <= j < k + N -> gen i = gen j -> i = j) ->
   NoDup (map gen (seq k N))).
Proof.
  intros Hg text N Hle. split; [|split].
  - unfold populateWpConfig. now apply secretLoop_replaceEach.
  - now apply replaceEach_weave.
  - intros Hinj. apply NoDup_map_injective; [|apply seq_NoDup].
    intros i j Hi Hj. apply in_seq in Hi. apply in_seq in Hj.
    apply Hinj; lia.
Qed.

Lemma populateWpConfig_token_per_occurrence_witness :
  populateWpConfig 2 sampleToken 0
    (js "'put your unique phrase here', 'put your unique phrase here'")
    sampleEnv
  = Some (js "'" ++ sampleToken 0 ++ js "', '" ++ sampleToken 1 ++ js "'", 2)
  /\ NoDup [sampleToken 0; sampleToken 1].
Proof.
  pose proof (populateWpConfig_token_per_occurrence sampleToken 2 0
    (js "'put your unique phrase here', 'put your unique phrase here'")
    sampleEnv sampleToken_good) as H.
  cbv zeta in H.
  assert (Hn : occurrences secretPlaceholder
            (applyRules (findReplace sampleEnv)
               (js "'put your unique phrase here', 'put your unique phrase here'"))
          = 2) by (vm_compute; reflexivity).
  rewrite Hn in H. destruct (H (le_n 2)) as (H1 & _ & H3). split.
  - rewrite H1. vm_compute. reflexivity.
  - apply H3. intros i j Hi Hj E.
    assert (Ci : i = 0 \/ i = 1) by lia.
    assert (Cj : j = 0 \/ j = 1) by lia.
    destruct Ci as [-> | ->], Cj as [-> | ->]; try reflexivity;
      vm_compute in E; discriminate.
Defined.

(** C7 fails as stated.  The first text has one occurrence of the
    placeholder, yet with a source whose tokens begin with [here] two
    tokens are generated: the first token completes a second occurrence
    with the text before it, and is cut up by the second turn.  The second
    template has no occurrence, yet one token is generated: the name of
    the database, put in by the fixed substitutions, is the placeholder. *)
Lemma populateWpConfig_two_tokens_for_one :
  ((forall k, isToken (hereToken k) = true) /\
   hereToken 0 <> hereToken 1 /\
   occurrences secretPlaceholder nestedTemplate = 1 /\
   occurrences secretPlaceholder
     (applyRules (findReplace sampleEnv) nestedTemplate) = 1 /\
   populateWpConfig 5 hereToken 0 nestedTemplate sampleEnv
   = Some (hereToken 1 ++ skipn 4 (hereToken 0), 2)) /\
  (occurrences secretPlaceholder (js "define('DB_NAME', 'database_name_here');")
   = 0 /\
   populateWpConfig 5 sampleToken 0
     (js "define('DB_NAME', 'database_name_here');")
     [(js "DB_NAME", secretPlaceholder)]
   = Some (js "define('DB_NAME', '" ++ sampleToken 0 ++ js "');", 1)).
Proof.
  split.
  - split; [exact hereToken_isToken|]. split; [|split; [|split]].
    + vm_compute. discriminate.
    + vm_compute. reflexivity.
    + vm_compute. reflexivity.
    + vm_compute. reflexivity.
  - split; vm_compute; reflexivity.
Qed.

(** C10, as the code has it: the loop over the secret placeholder stops for
    every template.  A token of the random source, 64 alphanumeric
    characters, holds no space and so never holds the placeholder; every
    turn of the loop takes the four spaces of one occurrence away, so the
    number of spaces of the text goes down by four with every turn, and a
    quarter of the spaces of the text is fuel enough. *)
Theorem populateWpConfig_terminates
  (gen : nat -> jsstring) (k : nat) (template : jsstring) (env : Env) :
  (forall i, isToken (gen i) = true) ->
  (forall i, includesStr (gen i) secretPlaceholder = false) /\
  (forall t i,
      includesStr t secretPlaceholder = true ->
      countChar space (replace t secretPlaceholder (gen i)) + 4
      = countChar space t) /\
  exists out n,
    forall fuel,
      countChar space (applyRules (findReplace env) template) / 4 <= fuel ->
      populateWpConfig fuel gen k template env = Some (out, n).
Proof.
  intros Hg. split; [|split].
  - intros i. unfold includesStr.
    now rewrite (isToken_no_placeholder _ (Hg i)).
  - intros t i Hi. unfold includesStr in Hi.
    destruct (search secretPlaceholder t) as [p|] eqn:E; [|discriminate].
    now apply (replace_spaces _ _ _ (Hg i) E).
  - set (text := applyRules (findReplace env) template).
    destruct (secretLoop_total gen Hg (countChar space text / 4) k text)
      as (out & n & Hr).
    { pose proof (Nat.div_mod_eq (countChar space text) 4).
      pose proof (Nat.mod_upper_bound (countChar space text) 4). lia. }
    exists out, n. intros fuel Hle. unfold populateWpConfig. fold text.
    now apply (secretLoop_more_fuel gen _ fuel _ _ _ Hr).
Qed.

Lemma populateWpConfig_terminates_witness :
  exists out n,
    forall fuel,
      countChar space (applyRules (findReplace sampleEnv) nestedTemplate) / 4
      <= fuel ->
      populateWpConfig fuel hereToken 0 nestedTemplate sampleEnv
      = Some (out, n).
Proof.
  apply (populateWpConfig_terminates hereToken 0 nestedTemplate sampleEnv).
  exact hereToken_isToken.
Defined.

(** C10 fails as stated: a turn of the loop need not bring the number of
    occurrences down.  The text has one occurrence; replacing it by a
    token that begins with [here] leaves a text with one occurrence. *)
Lemma occurrences_not_decreasing :
  isToken (hereToken 0) = true /\
  occurrences secretPlaceholder nestedTemplate = 1 /\
  occurrences secretPlaceholder
    (replace nestedTemplate secretPlaceholder (hereToken 0)) = 1.
Proof. repeat split; vm_compute; reflexivity. Qed.

(** * The sanity checks *)

Section Checks.

Context {F : Type} `{FileSystem F}.

Lemma filterByStatus_true (s : State F) (paths : list jsstring) :
  filterByStatus s paths true
  = filter (fun p => negb (exists_ s p)) paths.
Proof.
  unfold filterByStatus, checkAllPairs.
  induction paths as [|p paths IH]; simpl; [reflexivity|].
  destruct (exists_ s p); simpl; now rewrite IH.
Qed.

Lemma filterByStatus_false (s : State F) (paths : list jsstring) :
  filterByStatus s paths false = filter (exists_ s) paths.
Proof.
  unfold filterByStatus, checkAllPairs.
  induction paths as [|p paths IH]; simpl; [reflexivity|].
  destruct (exists_ s p); simpl; now rewrite IH.
Qed.

Lemma filter_nil_iff {A} (f : A -> bool) (l : list A) :
  filter f l = [] <-> forall x, In x l -> f x = false.
Proof.
  induction l as [|a l IH]; simpl.
  - split; [intros _ x []|reflexivity].
  - destruct (f a) eqn:E.
    + split; [discriminate|]. intros Hx.
      rewrite (Hx a) in E by now left. discriminate.
    + rewrite IH. split.
      * intros Hx x [<-|Hin]; auto.
      * intros Hx x Hin. apply Hx. now right.
Qed.

(** The three outcomes of [checkPresence]. *)
Lemma checkPresence_eq (s : State F) :
  let absent := filter (fun p => negb (exists_ s p)) expectedPresent in
  let present := filter (exists_ s) expectedAbsent in
  checkPresence s =
  match absent, present with
  | _ :: _, _ =>
      Throws (Interruption (js "Expected file(s): " ++ formatPaths absent
                            ++ js " not present")) s
  | [], _ :: _ =>
      Throws (Interruption (js "Unexpected file(s): " ++ formatPaths present
                            ++ js " present")) s
  | [], [] => Returns tt s
  end.
Proof.
  intros absent present.
  unfold checkPresence, bind, gets. cbv beta iota.
  rewrite filterByStatus_true. fold absent.
  destruct absent as [|a absent']; [|reflexivity].
  cbn [length Nat.eqb negb]. cbv beta iota.
  rewrite filterByStatus_false. fold present.
  destruct present as [|p present']; reflexivity.
Qed.

Lemma checkPresence_throws_iff (s : State F) :
  (exists e, checkPresence s = Throws e s) <->
  (exists p, In p expectedPresent /\ exists_ s p = false) \/
  (exists p, In p expectedAbsent /\ exists_ s p = true).
Proof.
  pose proof (checkPresence_eq s) as E. cbv zeta in E. rewrite E.
  set (absent := filter (fun p => negb (exists_ s p)) expectedPresent).
  set (present := filter (exists_ s) expectedAbsent).
  split.
  - intros [e He].
    destruct absent as [|a absent'] eqn:Ea.
    + destruct present as [|p present'] eqn:Ep; [discriminate|].
      right. exists p.
      assert (Hin : In p present) by (rewrite Ep; now left).
      apply filter_In in Hin. exact Hin.
    + left. exists a.
      assert (Hin : In a absent) by (rewrite Ea; now left).
      apply filter_In in Hin as [Hin Hn].
      apply negb_true_iff in Hn. now split.
  - intros [(p & Hin & Hp)|(p & Hin & Hp)].
    + assert (Hf : In p absent)
        by (apply filter_In; split; [exact Hin|now rewrite Hp]).
      destruct absent; [destruct Hf|]. eexists. reflexivity.
    + assert (Hf : In p present) by (apply filter_In; now split).
      destruct absent; [|eexists; reflexivity].
      destruct present; [destruct Hf|]. eexists. reflexivity.
Qed.

(** C3, as the code has it: [checkPresence] throws if and only if an
    expected path is missing or an unexpected one is there.  It probes
    all expected paths first and, if any is missing, reports all the
    missing ones and nothing else; only if none is missing does it probe
    the unexpected paths and report all that are there. *)
Theorem checkPresence_reports (s : State F) :
  let absent := filter (fun p => negb (exists_ s p)) expectedPresent in
  let present := filter (exists_ s) expectedAbsent in
  checkPresence s =
  match absent, present with
  | _ :: _, _ =>
      Throws (Interruption (js "Expected file(s): " ++ formatPaths absent
                            ++ js " not present")) s
  | [], _ :: _ =>
      Throws (Interruption (js "Unexpected file(s): " ++ formatPaths present
                            ++ js " present")) s
  | [], [] => Returns tt s
  end /\
  ((exists e, checkPresence s = Throws e s) <->
   (exists p, In p expectedPresent /\ exists_ s p = false) \/
   (exists p, In p expectedAbsent /\ exists_ s p = true)).
Proof.
  intros absent present. split.
  - exact (checkPresence_eq s).
  - exact (checkPresence_throws_iff s).
Qed.

Lemma includes_In (l : list jsstring) (x : jsstring) :
  includes l x = true <-> In x l.
Proof.
  unfold includes. rewrite existsb_exists. split.
  - intros (y & Hy & E). apply jsstring_eqb_eq in E. now subst y.
  - intros Hx. exists x. split; [exact Hx|]. now apply jsstring_eqb_eq.
Qed.

Lemma intersection_fold (b a acc : list jsstring) :
  let r := fold_left
             (fun result x =>
                if negb (includes result x) && includes b x
                then result ++ [x] else result) a acc in
  (forall x, In x r <-> In x acc \/ (In x a /\ In x b)) /\
  (NoDup acc -> NoDup r).
Proof.
  revert acc. induction a as [|y a IH]; intros acc; simpl.
  - split; [|auto]. intros x. tauto.
  - destruct (includes acc y) eqn:Ei; simpl.
    + apply includes_In in Ei. destruct (IH acc) as [H1 H2].
      split; [|exact H2]. intros x. rewrite H1.
      split; [tauto|]. intros [Hx|[[<-|Hx] Hb]]; tauto.
    + assert (Hn : ~ In y acc).
      { intros Hy. apply includes_In in Hy. congruence. }
      destruct (includes b y) eqn:Eb.
      * apply includes_In in Eb. destruct (IH (acc ++ [y])) as [H1 H2].
        split.
        -- intros x. rewrite H1, in_app_iff. simpl.
           split; [intros [[Hx|[<-|[]]]|Hx]; tauto|].
           intros [Hx|[[<-|Hx] Hb]]; tauto.
        -- intros Hd. apply H2. apply NoDup_app; auto.
           ++ constructor; [intros []|constructor].
           ++ intros x Hx [<-|[]]. contradiction.
      * assert (Hnb : ~ In y b).
        { intros Hy. apply includes_In in Hy. congruence. }
        destruct (IH acc) as [H1 H2]. split; [|exact H2].
        intros x. rewrite H1. split; [tauto|].
        intros [Hx|[[<-|Hx] Hb]]; tauto.
Qed.

(** lodash [intersection] returns the common values, each once. *)
Lemma intersection_spec (a b : list jsstring) :
  (forall x, In x (intersection a b) <-> In x a /\ In x b) /\
  NoDup (intersection a b).
Proof.
  destruct (intersection_fold b a []) as [H1 H2]. split.
  - intros x. unfold intersection. rewrite H1. simpl. tauto.
  - apply H2. constructor.
Qed.

(** [checkConflicts] on the two listings of [globby]. *)
Lemma checkConflicts_eq
  (s : State F) (path1 path2 : jsstring) (in1 in2 : list jsstring) :
  fs_globby (disk s) (abs s path1) = Done in1 ->
  fs_globby (disk s) (abs s path2) = Done in2 ->
  checkConflicts path1 path2 s
  = if negb (length (intersection in1 in2) =? 0)
    then Throws (Interruption
                   (conflictMessage (intersection in1 in2) path1 path2)) s
    else Returns tt s.
Proof.
  intros H1 H2. unfold checkConflicts, bind, globby. rewrite H1. simpl.
  rewrite H2. simpl.
  destruct (negb (length (intersection in1 in2) =? 0)); reflexivity.
Qed.

Lemma fs_globby_entries (d : F) (cwd : jsstring) (entries : list jsstring) :
  fs_entries d cwd = Done entries ->
  fs_globby d cwd = Done (filter (fun name => negb (hidden name)) entries).
Proof. intros E. unfold fs_globby. now rewrite E. Qed.

(** C4, as the code has it: [checkConflicts] compares the entries of the
    two directories that [globby('*')] lists, those whose name does not
    begin with a dot.  It returns if no such name is on both sides; if
    one is, it throws, and the names its message lists are exactly the
    names on both sides that do not begin with a dot, each once. *)
Theorem checkConflicts_intersection
  (s : State F) (path1 path2 : jsstring)
  (entries1 entries2 : list jsstring) :
  fs_entries (disk s) (abs s path1) = Done entries1 ->
  fs_entries (disk s) (abs s path2) = Done entries2 ->
  let common x := In x entries1 /\ In x entries2 /\ hidden x = false in
  ((forall x, ~ common x) ->
   checkConflicts path1 path2 s = Returns tt s) /\
  ((exists x, common x) ->
   exists names,
     checkConflicts path1 path2 s
     = Throws (Interruption
                 (js "Conflict: "
                  ++ (dquote :: join (dquote :: js ", " ++ [dquote]) names
                      ++ [dquote])
                  ++ js " present in both " ++ path1 ++ js " and "
                  ++ path2 ++ js ", remove one to continue")) s /\
     NoDup names /\
     forall x, In x names <-> common x).
Proof.
  intros H1 H2 common.
  set (in1 := filter (fun name => negb (hidden name)) entries1).
  set (in2 := filter (fun name => negb (hidden name)) entries2).
  pose proof (checkConflicts_eq s path1 path2 in1 in2
                (fs_globby_entries _ _ _ H1) (fs_globby_entries _ _ _ H2))
    as E.
  destruct (intersection_spec in1 in2) as [Hs Hd].
  assert (Hc : forall x, In x (intersection in1 in2) <-> common x).
  { intros x. rewrite Hs. unfold in1, in2, common.
    rewrite !filter_In, negb_true_iff. tauto. }
  rewrite E. split.
  - intros Hnone. destruct (intersection in1 in2) as [|x l] eqn:Ei;
      [reflexivity|].
    exfalso. apply (Hnone x). apply Hc. now left.
  - intros (x & Hx). exists (intersection in1 in2).
    split; [|split; [exact Hd|exact Hc]].
    apply Hc in Hx.
    destruct (intersection in1 in2) as [|y l]; [destruct Hx|reflexivity].
Qed.

(** C9: for a path that does not exist, [archive] returns [false] and
    leaves the engine and the world as they are: the disk is the same and
    no call that changes it has been made. *)
Theorem archive_missing (s : State F) (path : jsstring) :
  exists_ s path = false -> archive path s = Returns JsFalse s.
Proof.
  intros E. unfold archive, bind, gets. now rewrite E.
Qed.

End Checks.

Lemma checkConflicts_intersection_witness :
  exists names,
    checkConflicts (js "web/app/themes") (js "web/wp/wp-content/themes")
      (newEngine (js "/site") conflictingDisk [])
    = Throws (Interruption
                (js "Conflict: "
                 ++ (dquote :: join (dquote :: js ", " ++ [dquote]) names
                     ++ [dquote])
                 ++ js " present in both " ++ js "web/app/themes"
                 ++ js " and " ++ js "web/wp/wp-content/themes"
                 ++ js ", remove one to continue"))
        (newEngine (js "/site") conflictingDisk []) /\
    NoDup names /\
    forall x, In x names <-> In x [js "mytheme"]
                             /\ In x [js "mytheme"; js "twentyten"]
                             /\ hidden x = false.
Proof.
  apply (checkConflicts_intersection
           (newEngine (js "/site") conflictingDisk [])
           (js "web/app/themes") (js "web/wp/wp-content/themes")
           [js "mytheme"] [js "mytheme"; js "twentyten"]).
  - vm_compute. reflexivity.
  - vm_compute. reflexivity.
  - exists (js "mytheme"). simpl. split; [tauto|]. split; [tauto|].
    vm_compute. reflexivity.
Defined.

(** C4 fails as stated: in this tree both upload folders hold an entry
    [.gitkeep], and [checkConflicts] returns: [globby('*')] lists no entry
    whose name begins with a dot. *)
Lemma checkConflicts_hidden_entries :
  let s := newEngine (js "/site") hiddenConflictDisk [] in
  fs_entries (disk s) (abs s (js "web/app/uploads")) = Done [js ".gitkeep"] /\
  fs_entries (disk s) (abs s (js "web/wp/wp-content/uploads"))
  = Done [js ".gitkeep"] /\
  checkConflicts (js "web/app/uploads") (js "web/wp/wp-content/uploads") s
  = Returns tt s.
Proof. repeat split; vm_compute; reflexivity. Qed.

Lemma archive_missing_witness :
  archive (js "web/cache") (newEngine (js "/site") sampleDisk [])
  = Returns JsFalse (newEngine (js "/site") sampleDisk []).
Proof.
  apply (archive_missing (newEngine (js "/site") sampleDisk [])
           (js "web/cache")).
  vm_compute. reflexivity.
Defined.

(** C3 fails as stated: in this tree [.env] is missing and
    [web/wp/wp-config.php] is there, two violations; the report names the
    first and is silent about the second. *)
Lemma checkPresence_silent_on_unexpected :
  let s := newEngine (js "/site") halfMigratedDisk [] in
  exists_ s (js ".env") = false /\
  exists_ s (js "web/wp/wp-config.php") = true /\
  exists msg,
    checkPresence s = Throws (Interruption msg) s /\
    msg = js "Expected file(s): " ++ formatPaths [js ".env"]
          ++ js " not present" /\
    includesStr msg (js "web/wp/wp-config.php") = false.
Proof.
  repeat split; try (vm_compute; reflexivity).
  eexists. repeat split; vm_compute; reflexivity.
Qed.

(** * The database procedure *)

Lemma replay_app (a b : list Event) (t : list Row) :
  replay (a ++ b) t = replay b (replay a t).
Proof. apply fold_left_app. Qed.

Lemma replay_queries (qs : list Statement) (t : list Row) :
  replay (map Query qs) t = fold_left (fun t q => execute q t) qs t.
Proof. revert t. induction qs as [|q qs IH]; intros t; simpl; auto. Qed.

Section Database.

Context {F : Type} `{FileSystem F}.
Variable world : Oracle.

Lemma extends_refl (s : State F) : extends s s [].
Proof. unfold extends. rewrite app_nil_r. auto. Qed.

Lemma extends_trans (s1 s2 s3 : State F) (a b : list Event) :
  extends s1 s2 a -> extends s2 s3 b -> extends s1 s3 (a ++ b).
Proof.
  intros (T1 & W1 & E1 & R1) (T2 & W2 & E2 & R2). unfold extends.
  rewrite T2, T1, W2, W1, E2, E1, R2, R1, replay_app, app_assoc. auto.
Qed.

Lemma bind_eq {A B} (m : M F A) (k : A -> M F B) (s : State F) :
  bind m k s = match m s with
               | Returns a s' => k a s'
               | Throws e s' => Throws e s'
               | Crashes m s' => Crashes m s'
               | Diverges => Diverges
               end.
Proof. reflexivity. Qed.

Lemma emit_spec (e : Event) (s : State F) :
  (forall t, replay [e] t = t) ->
  exists s', emit e s = Returns tt s' /\ extends s s' [e] /\
             conn s' = conn s /\ disk s' = disk s /\
             queries s' = queries s /\ calls s' = calls s.
Proof.
  intros He. eexists. split; [reflexivity|]. unfold extends, conn.
  cbn [trace wp_options env root mysql connected disk queries calls].
  rewrite He. auto 10.
Qed.

Lemma envField_spec (key : jsstring) (s : State F) :
  (exists e, env s = Some e /\ envField key s = Returns (env_get e key) s)
  \/ (env s = None /\
      envField key s = Throws (SystemError (js "TypeError")) s).
Proof.
  unfold envField. destruct (env s) as [e|]; [left|right]; eauto.
Qed.

Lemma mutate_spec (e : Event) (op : F -> Try unit * F) (s : State F) :
  (forall t, replay [e] t = t) ->
  exists s',
    (mutate e op s = Returns tt s' /\ fst (op (disk s)) = Done tt
     \/ exists m, mutate e op s = Throws (SystemError m) s'
                  /\ fst (op (disk s)) = Failed m) /\
    extends s s' [e] /\ conn s' = conn s /\ disk s' = snd (op (disk s)) /\
    queries s' = queries s /\ calls s' = calls s.
Proof.
  intros He.
  unfold mutate, bind, emit, gets, setDisk, lift, ret, throw.
  cbn [trace wp_options env root mysql connected disk queries calls].
  destruct (op (disk s)) as [[[]|m] d]; cbn [fst snd]; eexists; (split;
    [first [left; split; reflexivity | right; eexists; split; reflexivity]|]);
    unfold extends, conn;
    cbn [trace wp_options env root mysql connected disk queries calls];
    rewrite He; auto 10.
Qed.

(** A statement is carried out, or it fails and leaves the table as it
    is. *)
Lemma mysqlQuery_spec (q : Statement) (s : State F) :
  exists s',
    (mysqlQuery world q s = Returns tt s' /\ extends s s' [Query q]
     /\ conn s = (true, true)
     \/ exists e, mysqlQuery world q s = Throws (SystemError e) s'
                  /\ extends s s' []) /\
    conn s' = conn s /\ disk s' = disk s.
Proof.
  unfold mysqlQuery, conn.
  destruct (mysql s) eqn:Em; simpl.
  - destruct (connected s) eqn:Ec; simpl.
    + destruct (queryError world (queries s)) as [m|]; eexists;
        (split; [first [left; split; [reflexivity|]
                       | right; eexists; split; [reflexivity|]]|]);
        unfold extends; simpl; rewrite ?app_nil_r, ?Em, ?Ec; auto.
    + eexists. split; [right; eexists; split; [reflexivity|]|];
        unfold extends; simpl; rewrite ?app_nil_r, ?Em, ?Ec; auto.
  - eexists. split; [right; eexists; split; [reflexivity|]|];
      unfold extends; simpl; rewrite ?app_nil_r, ?Em; auto.
Qed.

(** [updateDbSiteUrl], step by step: the statements carried out are a
    beginning of the three it sends, and all three if it returns. *)
Lemma updateDbSiteUrl_spec (s : State F) :
  exists s' qs,
    extends s s' (Enter UpdateDbSiteUrl :: map Query qs
                  ++ (if length qs =? 3 then [Leave UpdateDbSiteUrl]
                      else [])) /\
    conn s' = conn s /\ disk s' = disk s /\
    ((exists e,
         updateDbSiteUrl world s = Returns tt s' /\ env s = Some e /\
         qs = [DeleteOptions [js "siteurl"; js "home"];
               InsertOption (js "siteurl")
                 (toSql (env_get e (js "WP_HOME")));
               InsertOption (js "home")
                 (toSql (env_get e (js "WP_HOME")))])
     \/ (exists e, updateDbSiteUrl world s = Throws (SystemError e) s'
                   /\ length qs < 3)).
Proof.
  unfold updateDbSiteUrl, method.
  rewrite bind_eq.
  destruct (emit_spec (Enter UpdateDbSiteUrl) s (fun t => eq_refl))
    as (s0 & -> & X0 & C0 & D0 & _).
  rewrite !bind_eq.
  destruct (mysqlQuery_spec (DeleteOptions [js "siteurl"; js "home"]) s0)
    as (s1 & [(-> & X1 & _)|(e1 & -> & X1)] & C1 & D1).
  2:{ exists s1, []. pose proof (extends_trans _ _ _ _ _ X0 X1) as X.
      split; [exact X|]. split; [congruence|]. split; [congruence|].
      right. exists e1. split; [reflexivity|simpl; lia]. }
  rewrite bind_eq.
  destruct (envField_spec (js "WP_HOME") s1) as [(e & Ee & ->)|(Ee & ->)].
  2:{ exists s1, [DeleteOptions [js "siteurl"; js "home"]].
      pose proof (extends_trans _ _ _ _ _ X0 X1) as X.
      split; [exact X|]. split; [congruence|]. split; [congruence|].
      right. eexists. split; [reflexivity|simpl; lia]. }
  rewrite bind_eq.
  destruct (mysqlQuery_spec
              (InsertOption (js "siteurl")
                 (toSql (env_get e (js "WP_HOME")))) s1)
    as (s2 & [(-> & X2 & _)|(e2 & -> & X2)] & C2 & D2).
  2:{ exists s2, [DeleteOptions [js "siteurl"; js "home"]].
      pose proof (extends_trans _ _ _ _ _
                    (extends_trans _ _ _ _ _ X0 X1) X2) as X.
      split; [exact X|]. split; [congruence|]. split; [congruence|].
      right. exists e2. split; [reflexivity|simpl; lia]. }
  destruct (mysqlQuery_spec
              (InsertOption (js "home")
                 (toSql (env_get e (js "WP_HOME")))) s2)
    as (s3 & [(-> & X3 & _)|(e3 & -> & X3)] & C3 & D3).
  2:{ exists s3, [DeleteOptions [js "siteurl"; js "home"];
                  InsertOption (js "siteurl")
                    (toSql (env_get e (js "WP_HOME")))].
      pose proof (extends_trans _ _ _ _ _
                    (extends_trans _ _ _ _ _
                       (extends_trans _ _ _ _ _ X0 X1) X2) X3) as X.
      split; [exact X|]. split; [congruence|]. split; [congruence|].
      right. exists e3. split; [reflexivity|simpl; lia]. }
  rewrite bind_eq.
  destruct (emit_spec (Leave UpdateDbSiteUrl) s3 (fun t => eq_refl))
    as (s4 & -> & X4 & C4 & D4 & _).
  exists s4, [DeleteOptions [js "siteurl"; js "home"];
              InsertOption (js "siteurl")
                (toSql (env_get e (js "WP_HOME")));
              InsertOption (js "home")
                (toSql (env_get e (js "WP_HOME")))].
  pose proof (extends_trans _ _ _ _ _
                (extends_trans _ _ _ _ _
                   (extends_trans _ _ _ _ _
                      (extends_trans _ _ _ _ _ X0 X1) X2) X3) X4) as X.
  split; [exact X|]. split; [congruence|]. split; [congruence|].
  left. exists e. repeat split.
  destruct X0 as (_ & _ & E0 & _). destruct X1 as (_ & _ & E1 & _).
  congruence.
Qed.

(** The backup returns with its output piped, throws the error of the
    write stream, or ends the process because the dump utility could not
    be started. *)
Lemma mysqlBackup_spec (s : State F) :
  exists s' evs,
    extends s s' evs /\ conn s' = conn s /\
    ((mysqlBackup world s = Returns tt s' /\ spawnError world = None /\
      exists dest,
        evs = [Enter MysqlBackup; Pipe dest; Leave MysqlBackup])
     \/ (exists e,
            mysqlBackup world s = Throws (SystemError e) s' /\
            (evs = [Enter MysqlBackup]
             \/ exists dest, evs = [Enter MysqlBackup; Pipe dest]))
     \/ (exists m,
            mysqlBackup world s = Crashes m s' /\
            spawnError world = Some m /\ evs = [Enter MysqlBackup])).
Proof.
  unfold mysqlBackup, method. rewrite bind_eq.
  destruct (emit_spec (Enter MysqlBackup) s (fun t => eq_refl))
    as (s0 & -> & X0 & C0 & D0 & _).
  rewrite !bind_eq.
  destruct (envField_spec (js "DB_USER") s0) as [(e & Ee & ->)|(Ee & ->)].
  2:{ exists s0, [Enter MysqlBackup]. split; [exact X0|].
      split; [exact C0|]. right. left. eexists.
      split; [reflexivity|now left]. }
  rewrite bind_eq.
  destruct (envField_spec (js "DB_PASSWORD") s0)
    as [(e' & Ee' & ->)|(Ee' & ->)]; [|congruence].
  rewrite bind_eq.
  destruct (envField_spec (js "DB_NAME") s0)
    as [(e'' & Ee'' & ->)|(Ee'' & ->)]; [|congruence].
  cbv zeta. destruct (spawnError world) as [m|] eqn:Es.
  { match goal with
    | |- context [Crashes m ?st] => exists st, [Enter MysqlBackup]
    end.
    destruct X0 as (T & W & E & R). split; [|split].
    - unfold extends. cbn [trace wp_options env root].
      split; [exact T|split; [exact W|split; [exact E|exact R]]].
    - unfold conn in *. cbn [mysql connected]. exact C0.
    - right. right. exists m. split; [reflexivity|]. split; reflexivity. }
  match goal with
  | |- context [mutate ?ev ?op s0] =>
      destruct (mutate_spec ev op s0 (fun t => eq_refl))
        as (s1 & [(-> & _)|(m & -> & _)] & X1 & C1 & _)
  end.
  - rewrite bind_eq.
    destruct (emit_spec (Leave MysqlBackup) s1 (fun t => eq_refl))
      as (s2 & -> & X2 & C2 & _).
    eexists s2, _. split;
      [exact (extends_trans _ _ _ _ _
                (extends_trans _ _ _ _ _ X0 X1) X2)|].
    split; [congruence|]. left. split; [reflexivity|].
    split; [reflexivity|]. eexists. reflexivity.
  - eexists s1, _. split; [exact (extends_trans _ _ _ _ _ X0 X1)|].
    split; [congruence|]. right. left. exists m. split; [reflexivity|].
    right. eexists. reflexivity.
Qed.

Lemma mysqlConnect_spec (s : State F) :
  exists s',
    (mysqlConnect world s = Returns tt s' /\
     extends s s' [Enter MysqlConnect; Leave MysqlConnect] /\
     conn s' = (true, true))
    \/ (exists e,
           mysqlConnect world s = Throws (SystemError e) s' /\
           extends s s' [Enter MysqlConnect] /\ conn s' = conn s).
Proof.
  unfold mysqlConnect, method. rewrite bind_eq.
  destruct (emit_spec (Enter MysqlConnect) s (fun t => eq_refl))
    as (s0 & -> & X0 & C0 & D0 & _).
  rewrite !bind_eq.
  destruct (envField_spec (js "DB_HOST") s0) as [(e & Ee & ->)|(Ee & ->)].
  2:{ exists s0. right. eexists. split; [reflexivity|]. now split. }
  rewrite bind_eq.
  destruct (envField_spec (js "DB_USER") s0)
    as [(e1 & E1 & ->)|(E1 & ->)]; [|congruence].
  rewrite bind_eq.
  destruct (envField_spec (js "DB_PASSWORD") s0)
    as [(e2 & E2 & ->)|(E2 & ->)]; [|congruence].
  rewrite bind_eq.
  destruct (envField_spec (js "DB_NAME") s0)
    as [(e3 & E3 & ->)|(E3 & ->)]; [|congruence].
  destruct (connectError world) as [m|].
  - exists s0. right. eexists. split; [reflexivity|]. now split.
  - rewrite bind_eq.
    match goal with
    | |- context [emit (Leave MysqlConnect) ?st] =>
        destruct (emit_spec (Leave MysqlConnect) st (fun t => eq_refl))
          as (s2 & -> & X2 & C2 & _);
        assert (X1 : extends s0 st []) by
          (destruct X0 as (? & ? & ? & ?); unfold extends;
           cbn [trace wp_options env root]; rewrite app_nil_r; auto)
    end.
    exists s2. left. split; [reflexivity|]. split; [|exact C2].
    exact (extends_trans _ _ _ _ _
             (extends_trans _ _ _ _ _ X0 X1) X2).
Qed.

Lemma mysqlDisconnect_spec (s : State F) :
  exists s',
    (mysqlDisconnect world s = Returns tt s' /\
     extends s s' [Enter MysqlDisconnect; Leave MysqlDisconnect] /\
     connected s' = false)
    \/ (exists e,
           mysqlDisconnect world s = Throws (SystemError e) s' /\
           extends s s' [Enter MysqlDisconnect] /\ conn s' = conn s).
Proof.
  unfold mysqlDisconnect, method. rewrite bind_eq.
  destruct (emit_spec (Enter MysqlDisconnect) s (fun t => eq_refl))
    as (s0 & -> & X0 & C0 & D0 & _).
  rewrite bind_eq. unfold mysqlEnd.
  destruct (mysql s0) eqn:Em; cbn [negb].
  2:{ exists s0. right. eexists. split; [reflexivity|]. now split. }
  destruct (endError world) as [m|].
  - exists s0. right. eexists. split; [reflexivity|]. now split.
  - rewrite bind_eq.
    match goal with
    | |- context [emit (Leave MysqlDisconnect) ?st] =>
        destruct (emit_spec (Leave MysqlDisconnect) st (fun t => eq_refl))
          as (s2 & -> & X2 & C2 & _);
        assert (X1 : extends s0 st []) by
          (destruct X0 as (? & ? & ? & ?); unfold extends;
           cbn [trace wp_options env root]; rewrite app_nil_r; auto)
    end.
    exists s2. left. split; [reflexivity|]. split.
    + exact (extends_trans _ _ _ _ _
               (extends_trans _ _ _ _ _ X0 X1) X2).
    + unfold conn in C2. cbn [mysql connected] in C2. congruence.
Qed.

(** The runs of [doDb]: where it stops, what it leaves in the trace, and
    whether the connection is open then. *)
Lemma doDb_spec (s : State F) :
  exists s' evs,
    extends s s' evs /\
    ((exists e, doDb world s = Throws (SystemError e) s' /\
                mysqlBackup world s = Throws (SystemError e) s' /\
                conn s' = conn s /\
                (evs = [Enter MysqlBackup]
                 \/ exists dest, evs = [Enter MysqlBackup; Pipe dest]))
     \/ (exists s1, mysqlBackup world s = Returns tt s1) /\
        ((exists e dest,
            doDb world s = Throws (SystemError e) s' /\
            conn s' = conn s /\
            evs = [Enter MysqlBackup; Pipe dest; Leave MysqlBackup;
                   Enter MysqlConnect])
     \/ (exists e dest qs,
            doDb world s = Throws (SystemError e) s' /\
            conn s' = (true, true) /\ length qs < 3 /\
            evs = [Enter MysqlBackup; Pipe dest; Leave MysqlBackup;
                   Enter MysqlConnect; Leave MysqlConnect;
                   Enter UpdateDbSiteUrl] ++ map Query qs)
     \/ (exists e dest qs,
            doDb world s = Throws (SystemError e) s' /\
            conn s' = (true, true) /\
            evs = [Enter MysqlBackup; Pipe dest; Leave MysqlBackup;
                   Enter MysqlConnect; Leave MysqlConnect;
                   Enter UpdateDbSiteUrl] ++ map Query qs
                  ++ [Leave UpdateDbSiteUrl; Enter MysqlDisconnect])
     \/ (exists dest qs,
            doDb world s = Returns tt s' /\ connected s' = false /\
            evs = [Enter MysqlBackup; Pipe dest; Leave MysqlBackup;
                   Enter MysqlConnect; Leave MysqlConnect;
                   Enter UpdateDbSiteUrl] ++ map Query qs
                  ++ [Leave UpdateDbSiteUrl; Enter MysqlDisconnect;
                      Leave MysqlDisconnect]))
     \/ (exists m, doDb world s = Crashes m s' /\
                   mysqlBackup world s = Crashes m s' /\
                   spawnError world = Some m /\
                   conn s' = conn s /\ evs = [Enter MysqlBackup])).
Proof.
  unfold doDb. rewrite bind_eq.
  destruct (mysqlBackup_spec s)
    as (s1 & ev1 & X1 & C1
        & [(E1 & _ & dest & ->)|[(e & E1 & Hev)|(m & E1 & Hm & ->)]]);
    rewrite E1.
  2:{ exists s1, ev1. split; [exact X1|]. left. exists e. auto. }
  2:{ eexists s1, _. split; [exact X1|]. right. right. exists m. auto. }
  rewrite bind_eq.
  destruct (mysqlConnect_spec s1)
    as (s2 & [(E2 & X2 & C2)|(e & E2 & X2 & C2)]); rewrite E2.
  2:{ eexists s2, _. split; [exact (extends_trans _ _ _ _ _ X1 X2)|].
      right. left. split; [eexists; reflexivity|]. left. exists e, dest.
      repeat split. congruence. }
  rewrite bind_eq.
  destruct (updateDbSiteUrl_spec s2)
    as (s3 & qs & X3 & C3 & _ & [(e & E3 & _ & Hq)|(e & E3 & Hq)]);
    rewrite E3.
  2:{ eexists s3, _. split;
        [exact (extends_trans _ _ _ _ _
                  (extends_trans _ _ _ _ _ X1 X2) X3)|].
      right. left. split; [eexists; reflexivity|]. right. left.
      exists e, dest, qs.
      split; [reflexivity|]. split; [congruence|]. split; [exact Hq|].
      destruct (length qs =? 3) eqn:El;
        [apply Nat.eqb_eq in El; lia|].
      cbn [app]. now rewrite app_nil_r. }
  subst qs. cbn [length Nat.eqb] in X3.
  destruct (mysqlDisconnect_spec s3)
    as (s4 & [(E4 & X4 & C4)|(e4 & E4 & X4 & C4)]); rewrite E4.
  - eexists s4, _. split;
      [exact (extends_trans _ _ _ _ _
                (extends_trans _ _ _ _ _
                   (extends_trans _ _ _ _ _ X1 X2) X3) X4)|].
    right. left. split; [eexists; reflexivity|]. right. right. right.
    match type of X3 with context [map Query ?l] => exists dest, l end.
    split; [reflexivity|]. split; [exact C4|]. reflexivity.
  - eexists s4, _. split;
      [exact (extends_trans _ _ _ _ _
                (extends_trans _ _ _ _ _
                   (extends_trans _ _ _ _ _ X1 X2) X3) X4)|].
    right. left. split; [eexists; reflexivity|]. right. right. left.
    match type of X3 with context [map Query ?l] => exists e4, dest, l end.
    split; [reflexivity|]. split; [congruence|]. reflexivity.
Qed.

End Database.

Lemma guarded_seen (evs : list Event) : guarded true evs = true.
Proof.
  induction evs as [|e evs IH]; simpl; [reflexivity|].
  now rewrite orb_true_r, IH.
Qed.

Lemma guarded_sound (evs : list Event) :
  forall seen,
    guarded seen evs = true ->
    forall pre e post,
      evs = pre ++ e :: post -> rewrites e = true ->
      seen = true \/ In (Leave MysqlBackup) pre.
Proof.
  induction evs as [|x evs IH]; intros seen Hg pre e post E He.
  - destruct pre; discriminate.
  - simpl in Hg. apply andb_true_iff in Hg as [H1 H2].
    destruct pre as [|y pre]; simpl in E; injection E as -> ->.
    + rewrite He in H1. simpl in H1. now left.
    + destruct (IH _ H2 pre e post eq_refl He) as [Hs|Hin].
      * apply orb_true_iff in Hs as [Hs|Hs]; [now left|].
        right. left. destruct y as [[]|[]| | | | |]; try discriminate.
        reflexivity.
      * right. now right.
Qed.

Lemma filter_filter_none {A} (p q : A -> bool) (l : list A) :
  (forall x, p x = true -> q x = false) -> filter p (filter q l) = [].
Proof.
  intros Hpq. induction l as [|a l IH]; simpl; [reflexivity|].
  destruct (q a) eqn:Eq; [|exact IH]. simpl.
  destruct (p a) eqn:Ep; [|exact IH].
  apply Hpq in Ep. congruence.
Qed.

Lemma filter_idem {A} (p : A -> bool) (l : list A) :
  filter p (filter p l) = filter p l.
Proof.
  induction l as [|a l IH]; simpl; [reflexivity|].
  destruct (p a) eqn:Ep; simpl; [rewrite Ep|]; now rewrite ?IH.
Qed.

Section DatabaseClaims.

Context {F : Type} `{FileSystem F}.
Variable world : Oracle.

(** The table after the rewrite step. *)
Lemma updateDbSiteUrl_table (s s' : State F) :
  updateDbSiteUrl world s = Returns tt s' ->
  exists e,
    env s = Some e /\
    wp_options s'
    = filter (fun r => negb (isSiteKey r)) (wp_options s)
      ++ [{| option_name := js "siteurl";
             option_value := toSql (env_get e (js "WP_HOME")) |};
          {| option_name := js "home";
             option_value := toSql (env_get e (js "WP_HOME")) |}].
Proof.
  intros E.
  destruct (updateDbSiteUrl_spec world s)
    as (s1 & qs & X & _ & _ & [(e & E1 & Ee & ->)|(e & E1 & _)]);
    rewrite E in E1; [|discriminate].
  injection E1 as <-. exists e. split; [exact Ee|].
  destruct X as (_ & W & _).
  rewrite W. unfold replay. cbn [map app fold_left length Nat.eqb].
  unfold execute. rewrite <- app_assoc. reflexivity.
Qed.

(** C6: when [updateDbSiteUrl] returns, whatever rows the table held for
    [siteurl] and [home] (none, one or several), it holds exactly one row
    for each, with the value of [WP_HOME] of the environment; the rows of
    other keys are as before.  The table is the old one without the rows
    of the two keys, followed by the two new rows. *)
Theorem updateDbSiteUrl_rows (s s' : State F) :
  updateDbSiteUrl world s = Returns tt s' ->
  exists e,
    env s = Some e /\
    let url := toSql (env_get e (js "WP_HOME")) in
    let siteurl := {| option_name := js "siteurl"; option_value := url |} in
    let home := {| option_name := js "home"; option_value := url |} in
    wp_options s'
    = filter (fun r => negb (isSiteKey r)) (wp_options s)
      ++ [siteurl; home] /\
    filter (named (js "siteurl")) (wp_options s') = [siteurl] /\
    filter (named (js "home")) (wp_options s') = [home] /\
    filter (fun r => negb (isSiteKey r)) (wp_options s')
    = filter (fun r => negb (isSiteKey r)) (wp_options s).
Proof.
  intros E.
  destruct (updateDbSiteUrl_spec world s)
    as (s1 & qs & X & _ & _ & [(e & E1 & Ee & ->)|(e & E1 & _)]);
    rewrite E in E1; [|discriminate].
  injection E1 as <-. exists e. split; [exact Ee|].
  destruct X as (_ & W & _). cbn zeta.
  assert (W' : wp_options s'
               = filter (fun r => negb (isSiteKey r)) (wp_options s)
                 ++ [{| option_name := js "siteurl";
                        option_value := toSql (env_get e (js "WP_HOME")) |};
                     {| option_name := js "home";
                        option_value := toSql (env_get e (js "WP_HOME")) |}]).
  { rewrite W. unfold replay. cbn [map app fold_left length Nat.eqb].
    unfold execute. rewrite <- app_assoc. reflexivity. }
  split; [exact W'|]. rewrite W'. rewrite !filter_app.
  split; [|split].
  - rewrite filter_filter_none.
    + reflexivity.
    + intros r Hr. unfold named in Hr. unfold isSiteKey. cbn [existsb].
      now rewrite Hr.
  - rewrite filter_filter_none.
    + reflexivity.
    + intros r Hr. unfold named in Hr. unfold isSiteKey. cbn [existsb].
      rewrite Hr. now rewrite orb_true_r.
  - rewrite filter_idem. apply app_nil_r.
Qed.

Lemma doDb_backup_throws (s s1 : State F) (e : JsError) :
  mysqlBackup world s = Throws e s1 -> doDb world s = Throws e s1.
Proof. intros E. unfold doDb. rewrite bind_eq. now rewrite E. Qed.

Lemma doDb_backup_crashes (s s1 : State F) (m : jsstring) :
  mysqlBackup world s = Crashes m s1 -> doDb world s = Crashes m s1.
Proof. intros E. unfold doDb. rewrite bind_eq. now rewrite E. Qed.

(** C1: in every run of [doDb], whatever fails, the rewrite step is
    entered and its statements are carried out only after [mysqlBackup]
    has returned; the table changes only through the statements of the
    trace; and if the backup throws, or ends the process because the
    dump utility cannot be started, [doDb] ends the same way, the table
    is as before and the rewrite step has not been entered. *)
Theorem doDb_backup_first (s : State F) :
  exists s' evs,
    (doDb world s = Returns tt s'
     \/ (exists e, doDb world s = Throws e s')
     \/ exists m, doDb world s = Crashes m s') /\
    trace s' = trace s ++ evs /\
    wp_options s' = replay evs (wp_options s) /\
    (forall pre e post,
        evs = pre ++ e :: post -> rewrites e = true ->
        In (Leave MysqlBackup) pre) /\
    (forall e s1,
        mysqlBackup world s = Throws e s1 ->
        doDb world s = Throws e s1 /\ s1 = s' /\
        wp_options s1 = wp_options s /\
        forall ev, In ev evs -> rewrites ev = false) /\
    (forall m s1,
        mysqlBackup world s = Crashes m s1 ->
        doDb world s = Crashes m s1 /\ s1 = s' /\
        wp_options s1 = wp_options s /\
        forall ev, In ev evs -> rewrites ev = false).
Proof.
  destruct (doDb_spec world s) as (s' & evs & (T & W & _) & Hc).
  exists s', evs.
  assert (Hg : guarded false evs = true).
  { destruct Hc as [(e & _ & _ & _ & [->|(d & ->)])
                   |[[_ [(e & d & _ & _ & ->)
                        |[(e & d & qs & _ & _ & _ & ->)
                         |[(e & d & qs & _ & _ & ->)
                          |(d & qs & _ & _ & ->)]]]]
                    |(m & _ & _ & _ & _ & ->)]];
      try reflexivity; cbn [app guarded rewrites isLeaveBackup negb orb andb];
      apply guarded_seen. }
  split; [|split; [exact T|split; [exact W|split; [|split]]]].
  - destruct Hc as [(e & E & _)
                   |[[_ [(e & d & E & _)|[(e & d & qs & E & _)
                        |[(e & d & qs & E & _)|(d & qs & E & _)]]]]
                    |(m & E & _)]]; eauto.
  - intros pre e post E He.
    destruct (guarded_sound evs false Hg pre e post E He) as [Hs|Hin];
      [discriminate|exact Hin].
  - intros e s1 Eb. pose proof (doDb_backup_throws _ _ _ Eb) as Ed.
    split; [exact Ed|].
    destruct Hc as [(e' & E & _ & _ & Hev)
                   |[[(s2 & Hb) _]|(m & _ & Hb & _)]];
      [|rewrite Hb in Eb; discriminate|rewrite Hb in Eb; discriminate].
    rewrite E in Ed. injection Ed as <- <-.
    split; [reflexivity|]. split.
    + rewrite W. destruct Hev as [->|(d & ->)]; reflexivity.
    + intros ev Hin.
      destruct Hev as [->|(d & ->)]; simpl in Hin;
        repeat (destruct Hin as [<-|Hin]; [reflexivity|]); destruct Hin.
  - intros m s1 Eb. pose proof (doDb_backup_crashes _ _ _ Eb) as Ed.
    split; [exact Ed|].
    destruct Hc as [(e' & _ & Hb & _)
                   |[[(s2 & Hb) _]|(m' & E & _ & _ & _ & Hev)]];
      [rewrite Hb in Eb; discriminate|rewrite Hb in Eb; discriminate|].
    rewrite E in Ed. injection Ed as <- <-. subst evs.
    split; [reflexivity|]. split; [rewrite W; reflexivity|].
    intros ev [<-|[]]. reflexivity.
Qed.

Ltac in_list :=
  repeat (rewrite in_app_iff || rewrite in_map_iff); simpl;
  intuition (try discriminate);
  repeat match goal with
         | H : exists _, _ |- _ => destruct H as (? & ? & ?)
         end; try discriminate.

(** C2, as the code has it: [doDb] closes the connection at the end of
    its success path only.  [mysqlDisconnect] is entered if and only if
    the rewrite step has returned; if the connection was opened and the
    rewrite step failed, [doDb] throws and leaves the connection open;
    if [doDb] returns, the connection is closed. *)
Theorem doDb_disconnect_on_success_only (s : State F) :
  exists s' evs,
    (doDb world s = Returns tt s'
     \/ (exists e, doDb world s = Throws e s')
     \/ exists m, doDb world s = Crashes m s') /\
    trace s' = trace s ++ evs /\
    (In (Enter MysqlDisconnect) evs <-> In (Leave UpdateDbSiteUrl) evs) /\
    (In (Leave MysqlConnect) evs -> ~ In (Leave UpdateDbSiteUrl) evs ->
     (exists e, doDb world s = Throws e s') /\ connected s' = true) /\
    (doDb world s = Returns tt s' ->
     connected s' = false /\ In (Leave MysqlDisconnect) evs).
Proof.
  destruct (doDb_spec world s) as (s' & evs & (T & _) & Hc).
  exists s', evs.
  destruct Hc as [(e & E & _ & _ & [->|(d & ->)])
                 |[[_ [(e & d & E & _ & ->)
                      |[(e & d & qs & E & C & _ & ->)
                       |[(e & d & qs & E & C & ->)
                        |(d & qs & E & C & ->)]]]]
                  |(m & E & _ & _ & _ & ->)]];
    (split; [eauto|split; [exact T|]]); rewrite E.
  1-3: split; [in_list|split; [in_list|intros; discriminate]].
  - split; [in_list|]. split; [|intros; discriminate].
    intros _ _. split; [eauto|]. unfold conn in C. congruence.
  - split; [in_list|]. split; [|intros; discriminate].
    intros _ Hn. exfalso. apply Hn. in_list.
  - split; [in_list|]. split.
    + intros _ Hn. exfalso. apply Hn. in_list.
    + intros _. split; [exact C|]. in_list.
  - split; [in_list|split; [in_list|intros; discriminate]].
Qed.

End DatabaseClaims.

Lemma updateDbSiteUrl_rows_witness :
  exists s,
    updateDbSiteUrl calmWorld connectedEngine = Returns tt s /\
    filter (named (js "siteurl")) (wp_options s)
    = [{| option_name := js "siteurl";
          option_value := SqlText (js "https://example.com") |}] /\
    filter (named (js "home")) (wp_options s)
    = [{| option_name := js "home";
          option_value := SqlText (js "https://example.com") |}].
Proof.
  destruct (updateDbSiteUrl calmWorld connectedEngine) as [[] s|e s|m s|] eqn:E;
    try (vm_compute in E; discriminate).
  exists s. split; [reflexivity|].
  destruct (updateDbSiteUrl_rows calmWorld connectedEngine s E)
    as (e & Ee & _ & Hs & Hh & _).
  injection Ee as <-. split; [exact Hs|exact Hh].
Defined.

(** C2 fails as stated: the folder of the backup is there and the backup
    goes through, the connection is opened, and the server rejects the
    first statement of the rewrite step; [doDb] throws with the connection
    still open, and [mysqlDisconnect] has not been entered. *)
Lemma doDb_leaves_connection_open :
  exists e s',
    doDb lockedWorld readyEngine = Throws e s' /\
    In (Leave MysqlBackup) (trace s') /\
    In (Leave MysqlConnect) (trace s') /\
    connected s' = true /\
    ~ In (Enter MysqlDisconnect) (trace s').
Proof.
  eexists. eexists. split; [vm_compute; reflexivity|].
  cbn [trace connected]. split; [|split; [|split]].
  - simpl. tauto.
  - simpl. tauto.
  - reflexivity.
  - simpl. intros Hin.
    repeat (destruct Hin as [Hin|Hin]; [discriminate|]). exact Hin.
Qed.

(** * The whole run *)

Section Run.

Context {F : Type} `{FileSystem F}.
Variable world : Oracle.
Variable fuel : nat.

Lemma systemOnly_bind {A B} (m : M F A) (k : A -> M F B) :
  systemOnly m -> (forall a, systemOnly (k a)) -> systemOnly (bind m k).
Proof.
  intros Hm Hk s e s' E. rewrite bind_eq in E.
  destruct (m s) as [a s1|e1 s1|m1 s1|] eqn:Em; try discriminate.
  - exact (Hk a _ _ _ E).
  - injection E as <- <-. exact (Hm _ _ _ Em).
Qed.

Lemma systemOnly_lift {A} (r : Try A) : systemOnly (F := F) (lift r).
Proof.
  intros s e s' E. destruct r; simpl in E; [discriminate|].
  injection E as <- _. eauto.
Qed.

Lemma systemOnly_mutate (ev : Event) (op : F -> Try unit * F) :
  (forall t, replay [ev] t = t) -> systemOnly (mutate ev op).
Proof.
  intros Hev s e s' E.
  destruct (mutate_spec ev op s Hev)
    as (s1 & [(E1 & _)|(m & E1 & _)] & _); rewrite E1 in E;
    [discriminate|].
  injection E as <- _. eauto.
Qed.

Lemma systemOnly_readEnv : systemOnly (F := F) readEnv.
Proof.
  intros s e s' E. unfold readEnv in E.
  destruct (fs_envFile _ _); [discriminate|]. injection E as <- _. eauto.
Qed.

Lemma systemOnly_envToWpConfig : systemOnly (envToWpConfig world fuel).
Proof.
  unfold envToWpConfig. apply systemOnly_bind.
  - intros s e s' E. unfold readFile in E.
    exact (systemOnly_lift _ _ _ _ E).
  - intros template s e s' E.
    destruct (env s) as [en|]; [|injection E as <- _; eauto].
    destruct (populateWpConfig _ _ _ _ _) as [[wpConfig n]|];
      [|discriminate].
    unfold writeFile in E.
    refine (systemOnly_mutate _ _ _ _ _ _ E). intros t. reflexivity.
Qed.

Lemma systemOnly_doDb : systemOnly (doDb world).
Proof.
  intros s e s' E.
  destruct (doDb_spec world s)
    as (s1 & evs & _ & [(m & E1 & _)|[[_ [(m & d & E1 & _)
                       |[(m & d & qs & E1 & _)|[(m & d & qs & E1 & _)
                       |(d & qs & E1 & _)]]]]|(m & E1 & _)]]);
    rewrite E1 in E; try discriminate; injection E as <- _; eauto.
Qed.

(** The phases of [run] after the sanity checks throw no
    [Interruption]. *)
Lemma systemOnly_afterChecks :
  systemOnly ((fun s => makeDir (abs s (js ".debedrockify/old")) s) ;;;
              readEnv ;;; envToWpConfig world fuel ;;; doDb world).
Proof.
  apply systemOnly_bind.
  - intros s e s' E. unfold makeDir in E.
    refine (systemOnly_mutate _ _ _ _ _ _ E). intros t. reflexivity.
  - intros _. apply systemOnly_bind; [exact systemOnly_readEnv|].
    intros _. apply systemOnly_bind; [exact systemOnly_envToWpConfig|].
    intros _. exact systemOnly_doDb.
Qed.

(** [checkConflicts] leaves the engine as it is; it throws an
    [Interruption] only for a name found on both sides. *)
Lemma checkConflicts_spec (s : State F) (path1 path2 : jsstring) :
  checkConflicts path1 path2 s = Returns tt s
  \/ (exists m, checkConflicts path1 path2 s = Throws (SystemError m) s)
  \/ (exists in1 in2 x,
         fs_globby (disk s) (abs s path1) = Done in1 /\
         fs_globby (disk s) (abs s path2) = Done in2 /\
         In x in1 /\ In x in2 /\
         checkConflicts path1 path2 s
         = Throws (Interruption
                     (conflictMessage (intersection in1 in2) path1 path2))
             s).
Proof.
  remember (checkConflicts path1 path2 s) as r eqn:Er.
  unfold checkConflicts in Er. rewrite bind_eq in Er.
  unfold globby at 1 in Er.
  destruct (fs_globby (disk s) (abs s path1)) as [in1|m] eqn:E1;
    cbn [lift ret throw] in Er; [|right; left; eauto].
  rewrite bind_eq in Er. unfold globby at 1 in Er.
  destruct (fs_globby (disk s) (abs s path2)) as [in2|m] eqn:E2;
    cbn [lift ret throw] in Er; [|right; left; eauto].
  cbv zeta in Er.
  destruct (intersection_spec in1 in2) as [Hs _].
  destruct (intersection in1 in2) as [|x l] eqn:Ei;
    cbn [length Nat.eqb negb] in Er; unfold throw, ret in Er.
  - now left.
  - right. right. exists in1, in2, x.
    assert (Hx : In x in1 /\ In x in2) by (apply Hs; now left).
    destruct Hx as [Hx1 Hx2]. repeat split; auto.
    now rewrite Ei.
Qed.

Lemma conflictChecks_spec (folders : list jsstring) (s : State F) :
  let checks :=
    forEach folders
      (fun wpFolder =>
         checkConflicts (js "web/app/" ++ wpFolder)
           (js "web/wp/wp-content/" ++ wpFolder)) in
  checks s = Returns tt s
  \/ (exists m, checks s = Throws (SystemError m) s)
  \/ (exists msg folder in1 in2 x,
         checks s = Throws (Interruption msg) s /\
         In folder folders /\
         fs_globby (disk s) (abs s (js "web/app/" ++ folder)) = Done in1 /\
         fs_globby (disk s) (abs s (js "web/wp/wp-content/" ++ folder))
         = Done in2 /\
         In x in1 /\ In x in2).
Proof.
  induction folders as [|f folders IH]; cbn [forEach]; [now left|].
  rewrite bind_eq.
  destruct (checkConflicts_spec s (js "web/app/" ++ f)
              (js "web/wp/wp-content/" ++ f))
    as [E|[(m & E)|(in1 & in2 & x & G1 & G2 & X1 & X2 & E)]]; rewrite E.
  - destruct IH as [IH|[(m & IH)|(msg & g & in1 & in2 & x & IH & Hg & R)]].
    + now left.
    + right. left. eauto.
    + right. right. exists msg, g, in1, in2, x.
      split; [exact IH|]. split; [now right|exact R].
  - right. left. eauto.
  - right. right. eexists _, f, in1, in2, x.
    split; [reflexivity|]. split; [now left|]. auto.
Qed.

(** The sanity checks change nothing; they throw an [Interruption] only
    for a violation they have found, and always when the presence of a
    path is not as expected. *)
Lemma sanityChecks_spec (s : State F) :
  (sanityChecks s = Returns tt s
   \/ (exists m, sanityChecks s = Throws (SystemError m) s)
   \/ (exists msg, sanityChecks s = Throws (Interruption msg) s /\
                   (presenceViolation s \/ conflictViolation s))) /\
  (presenceViolation s ->
   exists msg, sanityChecks s = Throws (Interruption msg) s).
Proof.
  unfold sanityChecks. rewrite bind_eq.
  pose proof (checkPresence_eq s) as E. cbv zeta in E.
  pose proof (checkPresence_throws_iff s) as Hiff.
  fold (presenceViolation s) in Hiff.
  destruct (filter (fun p => negb (exists_ s p)) expectedPresent)
    as [|a absent].
  - destruct (filter (exists_ s) expectedAbsent) as [|p present].
    + rewrite E. split.
      * destruct (conflictChecks_spec wpFolders s)
          as [C|[(m & C)|(msg & f & in1 & in2 & x & C & Hf & R)]];
          cbv zeta in C; rewrite C.
        -- now left.
        -- right. left. eauto.
        -- right. right. exists msg. split; [reflexivity|].
           right. exists f, in1, in2, x. destruct R as (? & ? & ? & ?).
           repeat split; auto.
      * intros Hv. apply Hiff in Hv. destruct Hv as [e Hv].
        rewrite E in Hv. discriminate.
    + rewrite E. split; [right; right|]; eauto.
      eexists. split; [reflexivity|]. left. apply Hiff. eauto.
  - rewrite E. split; [right; right|]; eauto.
    eexists. split; [reflexivity|]. left. apply Hiff. eauto.
Qed.

Lemma extends_grows (s s' : State F) (evs : list Event) :
  extends s s' evs -> grows s s' evs.
Proof. intros (T & W & _ & R). now repeat split. Qed.

Lemma grows_trans (s1 s2 s3 : State F) (a b : list Event) :
  grows s1 s2 a -> grows s2 s3 b -> grows s1 s3 (a ++ b).
Proof.
  intros (T1 & W1 & R1) (T2 & W2 & R2). unfold grows.
  rewrite T2, T1, W2, W1, R2, R1, replay_app, app_assoc. auto.
Qed.

Lemma sanityChecks_pure (s : State F) :
  sanityChecks s = Returns tt s \/ exists e, sanityChecks s = Throws e s.
Proof.
  destruct (sanityChecks_spec s) as [[E|[(m & E)|(msg & E & _)]] _]; eauto.
Qed.

Lemma readEnv_spec (s : State F) :
  (exists e s',
      readEnv s = Returns tt s' /\
      fs_envFile (disk s) (abs s (js ".env")) = Done e /\
      env s' = Some e /\ grows s s' [] /\ conn s' = conn s /\
      disk s' = disk s /\ calls s' = calls s)
  \/ exists m, readEnv s = Throws (SystemError m) s.
Proof.
  unfold readEnv.
  destruct (fs_envFile (disk s) (abs s (js ".env"))) as [e|m];
    [left|right; eauto].
  eexists e, _. split; [reflexivity|]. unfold grows, conn.
  cbn [trace wp_options root env mysql connected disk calls].
  rewrite app_nil_r. auto 10.
Qed.

(** [envToWpConfig], step by step: the configuration is written in one
    call, after the text is complete. *)
Lemma envToWpConfig_spec (s : State F) :
  envToWpConfig world fuel s = Diverges
  \/ (exists m, envToWpConfig world fuel s = Throws (SystemError m) s)
  \/ exists template e text n s',
       fs_readFile (disk s) (abs s (js "web/wp/wp-config-sample.php"))
       = Done template /\
       env s = Some e /\
       populateWpConfig fuel (generate world) (calls s) template e
       = Some (text, n) /\
       grows s s' [WriteFile (abs s (js "web/wp/wp-config.php")) text] /\
       env s' = env s /\ conn s' = conn s /\
       (envToWpConfig world fuel s = Returns tt s'
        \/ exists m, envToWpConfig world fuel s = Throws (SystemError m) s').
Proof.
  remember (envToWpConfig world fuel s) as r eqn:Er.
  unfold envToWpConfig in Er. rewrite bind_eq in Er. unfold readFile in Er.
  destruct (fs_readFile (disk s) (abs s (js "web/wp/wp-config-sample.php")))
    as [template|m] eqn:Ef; cbn [lift ret throw] in Er;
    [|right; left; eauto].
  destruct (env s) as [e|] eqn:Ee; [|right; left; eauto].
  destruct (populateWpConfig fuel (generate world) (calls s) template e)
    as [[text n]|] eqn:Ep; [|now left].
  right. right. unfold writeFile in Er.
  match type of Er with
  | context [mutate ?ev ?op ?st] =>
      destruct (mutate_spec ev op st (fun t => eq_refl))
        as (s' & Hr & (T & W & E' & R) & C & _)
  end.
  unfold conn in C.
  cbn [trace wp_options env root mysql connected] in T, W, E', R, C.
  exists template, e, text, n, s'.
  split; [first [reflexivity|assumption]|].
  split; [first [reflexivity|assumption]|].
  split; [first [reflexivity|assumption]|].
  split; [unfold grows; auto|]. split; [congruence|].
  split; [exact C|].
  destruct Hr as [(E1 & _)|(m & E1 & _)]; rewrite E1 in Er; eauto.
Qed.

(** A database procedure that returns has gone through all its steps. *)
Lemma doDb_returns (s s' : State F) :
  doDb world s = Returns tt s' ->
  exists e dest,
    env s = Some e /\
    extends s s' (dbTrace dest (toSql (env_get e (js "WP_HOME")))) /\
    connected s' = false.
Proof.
  intros Ed. unfold doDb in Ed. rewrite bind_eq in Ed.
  destruct (mysqlBackup_spec world s)
    as (s1 & ev1 & X1 & C1
        & [(E1 & _ & dest & ->)|[(e & E1 & Hev)|(m & E1 & _)]]);
    rewrite E1 in Ed; [|discriminate|discriminate].
  rewrite bind_eq in Ed.
  destruct (mysqlConnect_spec world s1)
    as (s2 & [(E2 & X2 & C2)|(e & E2 & X2 & C2)]); rewrite E2 in Ed;
    [|discriminate].
  rewrite bind_eq in Ed.
  destruct (updateDbSiteUrl_spec world s2)
    as (s3 & qs & X3 & C3 & _ & [(e & E3 & Ee & Hq)|(e & E3 & Hq)]);
    rewrite E3 in Ed; [|discriminate].
  subst qs. cbn [length Nat.eqb] in X3.
  destruct (mysqlDisconnect_spec world s3)
    as (s4 & [(E4 & X4 & C4)|(e4 & E4 & X4 & C4)]); rewrite E4 in Ed;
    [|discriminate].
  injection Ed as <-. exists e, dest. split.
  - destruct X1 as (_ & _ & Ea & _). destruct X2 as (_ & _ & Eb & _).
    congruence.
  - split; [|exact C4].
    exact (extends_trans _ _ _ _ _
             (extends_trans _ _ _ _ _
                (extends_trans _ _ _ _ _ X1 X2) X3) X4).
Qed.

(** When [checkConflicts] returns, no name is in both listings. *)
Lemma checkConflicts_returns
  (s s' : State F) (path1 path2 : jsstring) (in1 in2 : list jsstring)
  (x : jsstring) :
  checkConflicts path1 path2 s = Returns tt s' ->
  fs_globby (disk s) (abs s path1) = Done in1 ->
  fs_globby (disk s) (abs s path2) = Done in2 ->
  In x in1 -> In x in2 -> False.
Proof.
  intros E G1 G2 H1 H2.
  rewrite (checkConflicts_eq s path1 path2 in1 in2 G1 G2) in E.
  destruct (intersection_spec in1 in2) as [Hs _].
  assert (Hx : In x (intersection in1 in2)) by (apply Hs; now split).
  destruct (intersection in1 in2); [destruct Hx|discriminate].
Qed.

Lemma conflictChecks_returns (folders : list jsstring) (s s' : State F) :
  forEach folders
    (fun wpFolder =>
       checkConflicts (js "web/app/" ++ wpFolder)
         (js "web/wp/wp-content/" ++ wpFolder)) s = Returns tt s' ->
  forall folder in1 in2 x,
    In folder folders ->
    fs_globby (disk s) (abs s (js "web/app/" ++ folder)) = Done in1 ->
    fs_globby (disk s) (abs s (js "web/wp/wp-content/" ++ folder))
    = Done in2 ->
    In x in1 -> In x in2 -> False.
Proof.
  induction folders as [|f folders IH]; cbn [forEach];
    intros E folder in1 in2 x Hf; [destruct Hf|].
  rewrite bind_eq in E.
  destruct (checkConflicts_spec s (js "web/app/" ++ f)
              (js "web/wp/wp-content/" ++ f))
    as [Ec|[(m & Ec)|(i1 & i2 & y & _ & _ & _ & _ & Ec)]];
    rewrite Ec in E; try discriminate.
  destruct Hf as [<-|Hf].
  - exact (checkConflicts_returns _ _ _ _ _ _ _ Ec).
  - exact (IH E folder in1 in2 x Hf).
Qed.

(** Sanity checks that return have found no violation. *)
Lemma sanityChecks_returns (s s' : State F) :
  sanityChecks s = Returns tt s' ->
  s' = s /\ ~ presenceViolation s /\ ~ conflictViolation s.
Proof.
  intros E. destruct (sanityChecks_spec s) as [Hs Hp].
  split; [|split].
  - destruct Hs as [E1|[(m & E1)|(msg & E1 & _)]]; rewrite E1 in E;
      congruence.
  - intros Hv. destruct (Hp Hv) as (msg & E1). rewrite E1 in E.
    discriminate.
  - intros (folder & in1 & in2 & x & Hf & G1 & G2 & H1 & H2).
    unfold sanityChecks in E. rewrite bind_eq in E.
    pose proof (checkPresence_eq s) as Ep. cbv zeta in Ep.
    destruct (filter (fun p => negb (exists_ s p)) expectedPresent);
      [|rewrite Ep in E; discriminate].
    destruct (filter (exists_ s) expectedAbsent);
      [|rewrite Ep in E; discriminate].
    rewrite Ep in E.
    exact (conflictChecks_returns _ _ _ E folder in1 in2 x Hf G1 G2 H1 H2).
Qed.

(** The ends of a run whose sanity checks have returned. *)
Lemma run_ends (s : State F) :
  sanityChecks s = Returns tt s ->
  (exists s',
      run world fuel s = Returns tt s' /\ spawnError world = None /\
      connected s' = false /\ In (Leave MysqlDisconnect) (trace s'))
  \/ (exists m s', run world fuel s = Throws (SystemError m) s')
  \/ (exists m s' evs,
         run world fuel s = Crashes m s' /\ spawnError world = Some m /\
         grows s s' (evs ++ [Enter MysqlBackup]) /\
         forall ev, In ev evs -> rewrites ev = false)
  \/ run world fuel s = Diverges.
Proof.
  intros E0. remember (run world fuel s) as r eqn:Er.
  unfold run in Er. rewrite bind_eq, E0, bind_eq in Er.
  unfold makeDir in Er.
  match type of Er with
  | context [mutate ?ev ?op s] =>
      destruct (mutate_spec ev op s (fun t => eq_refl))
        as (s1 & Hr & X1 & _)
  end.
  apply extends_grows in X1.
  destruct Hr as [(E1 & _)|(m & E1 & _)]; rewrite E1 in Er;
    [|right; left; eauto].
  rewrite bind_eq in Er.
  destruct (readEnv_spec s1)
    as [(e & s2 & E2 & _ & _ & X2 & _)|(m & E2)];
    rewrite E2 in Er; [|right; left; eauto].
  rewrite bind_eq in Er.
  destruct (envToWpConfig_spec s2)
    as [E3|[(m & E3)|(template & e' & text & n & s3 & _ & _ & _ & X3
                      & _ & _ & [E3|(m & E3)])]];
    rewrite E3 in Er;
    [now right; right; right|right; left; eauto| |right; left; eauto].
  pose proof (grows_trans _ _ _ _ _ (grows_trans _ _ _ _ _ X1 X2) X3)
    as X.
  destruct (doDb_spec world s3)
    as (s4 & evs & X4 & [(m & E4 & _)|[[(sb & Eb) Hc]
                                      |(m & E4 & _ & Hm & _ & ->)]]).
  - right. left. rewrite E4 in Er. eauto.
  - assert (Hn : spawnError world = None).
    { destruct (mysqlBackup_spec world s3)
        as (s' & ev' & _ & _ & [(_ & Hn & _)|[(m & Em & _)|(m & Em & _)]]);
        [exact Hn|rewrite Em in Eb; discriminate
        |rewrite Em in Eb; discriminate]. }
    destruct Hc as [(m & d & E4 & _)|[(m & d & qs & E4 & _)
                   |[(m & d & qs & E4 & _)|(d & qs & E4 & C4 & ->)]]];
      rewrite E4 in Er; [right; left; eauto ..|].
    left. exists s4. split; [exact Er|]. split; [exact Hn|].
    split; [exact C4|]. destruct X4 as (T4 & _). rewrite T4.
    repeat (rewrite in_app_iff; right). simpl. tauto.
  - right. right. left. rewrite E4 in Er.
    exists m, s4, (MakeDir (abs s (js ".debedrockify/old")) :: [] ++
                   [WriteFile (abs s2 (js "web/wp/wp-config.php")) text]).
    split; [exact Er|]. split; [exact Hm|]. split.
    + pose proof (grows_trans _ _ _ _ _ X (extends_grows _ _ _ X4)) as X'.
      cbn [app] in X' |- *. exact X'.
    + intros ev Hin. cbn [app] in Hin.
      destruct Hin as [<-|[<-|[]]]; reflexivity.
Qed.

(** X21: the exit code of the process, as the code gives it.  It is 0
    exactly when the run goes through all its phases, and then the
    checks have found no violation, the dump utility has started and the
    connection is closed again.  It is 127 exactly when the run throws an
    error that is no [Interruption].  It is 1 in two cases: the sanity
    checks throw an [Interruption], which they do only for a path whose
    presence is not as expected or for a name found on both sides of a
    content folder, and always for the former; or the dump utility cannot
    be started, which ends the process outside the handler, after the
    configuration is written and before the table is touched. *)
Theorem main_exit_code (cwd : jsstring) (d : F) (table : list Row) :
  let s0 := newEngine cwd d table in
  let code := main world fuel cwd d table in
  (code = Some 0%Z <-> exists s', run world fuel s0 = Returns tt s') /\
  (code = Some 1%Z
   <-> (exists msg, sanityChecks s0 = Throws (Interruption msg) s0)
       \/ exists m s', run world fuel s0 = Crashes m s') /\
  (code = Some 127%Z
   <-> exists msg s', run world fuel s0 = Throws (SystemError msg) s') /\
  ((exists msg, sanityChecks s0 = Throws (Interruption msg) s0) ->
   presenceViolation s0 \/ conflictViolation s0) /\
  (presenceViolation s0 -> code = Some 1%Z) /\
  (forall s', run world fuel s0 = Returns tt s' ->
              ~ presenceViolation s0 /\ ~ conflictViolation s0 /\
              spawnError world = None /\ connected s' = false /\
              In (Leave MysqlDisconnect) (trace s')) /\
  (forall m s',
      run world fuel s0 = Crashes m s' ->
      spawnError world = Some m /\
      ~ presenceViolation s0 /\ ~ conflictViolation s0 /\
      wp_options s' = table /\
      exists evs, trace s' = evs ++ [Enter MysqlBackup]).
Proof.
  intros s0 code. unfold code, main. fold s0.
  destruct (sanityChecks_spec s0) as [Hs Hp].
  assert (Hthrow : forall e, sanityChecks s0 = Throws e s0 ->
                             run world fuel s0 = Throws e s0).
  { intros e E. unfold run. rewrite bind_eq. now rewrite E. }
  destruct Hs as [E|[(m & E)|(msg & E & Hv)]].
  - destruct (sanityChecks_returns _ _ E) as (_ & Hnp & Hnc).
    destruct (run_ends s0 E)
      as [(s' & Er & Hn & Hc & Hl)
         |[(m & s' & Er)|[(m & s' & evs & Er & Hm & (T & W & _) & Hev)|Er]]];
      rewrite Er; cbn [exitCode].
    + split; [split; eauto|]. split.
      { split; [discriminate|].
        intros [(msg & Em)|(m & s1 & Em)]; [rewrite E in Em|];
          discriminate. }
      split; [split; [discriminate|intros (msg & s1 & Em); discriminate]|].
      split; [intros (msg & Em); rewrite E in Em; discriminate|].
      split; [intros Hpv; contradiction|]. split.
      * intros s1 Es. injection Es as <-. auto.
      * intros m s1 Em. discriminate.
    + split; [split; [discriminate|intros (s1 & Em); discriminate]|].
      split.
      { split; [discriminate|].
        intros [(msg & Em)|(m1 & s1 & Em)]; [rewrite E in Em|];
          discriminate. }
      split; [split; eauto|].
      split; [intros (msg & Em); rewrite E in Em; discriminate|].
      split; [intros Hpv; contradiction|].
      split; intros; discriminate.
    + split; [split; [discriminate|intros (s1 & Em); discriminate]|].
      split; [split; eauto|].
      split; [split; [discriminate|intros (msg & s1 & Em); discriminate]|].
      split; [intros (msg & Em); rewrite E in Em; discriminate|].
      split; [intros Hpv; contradiction|]. split.
      * intros s1 Es. discriminate.
      * intros m1 s1 Em. injection Em as <- <-.
        split; [exact Hm|]. split; [exact Hnp|]. split; [exact Hnc|].
        split.
        { rewrite W, replay_app.
          assert (Hq : forall l t,
                     (forall ev, In ev l -> rewrites ev = false) ->
                     replay l t = t).
          { induction l as [|ev l IH]; intros t Hl; [reflexivity|].
            cbn [replay fold_left]. fold (replay l).
            assert (Hr : rewrites ev = false) by (apply Hl; now left).
            destruct ev as [[]|[]|q| | | |]; try discriminate;
              apply IH; intros ev' Hin; apply Hl; now right. }
          rewrite (Hq evs) by exact Hev. reflexivity. }
        exists (trace s0 ++ evs). rewrite T. now rewrite app_assoc.
    + split; [split; [discriminate|intros (s1 & Em); discriminate]|].
      split.
      { split; [discriminate|].
        intros [(msg & Em)|(m1 & s1 & Em)]; [rewrite E in Em|];
          discriminate. }
      split; [split; [discriminate|intros (msg & s1 & Em); discriminate]|].
      split; [intros (msg & Em); rewrite E in Em; discriminate|].
      split; [intros Hpv; contradiction|].
      split; intros; discriminate.
  - assert (Hnp : ~ presenceViolation s0).
    { intros Hpv. destruct (Hp Hpv) as (msg & Em). rewrite E in Em.
      discriminate. }
    rewrite (Hthrow _ E). cbn [exitCode].
    split; [split; [discriminate|intros (s1 & Em); discriminate]|].
    split.
    { split; [discriminate|].
      intros [(msg & Em)|(m1 & s1 & Em)]; [rewrite E in Em|];
        discriminate. }
    split; [split; eauto|].
    split; [intros (msg & Em); rewrite E in Em; discriminate|].
    split; [intros Hpv; contradiction|].
    split; intros; discriminate.
  - rewrite (Hthrow _ E). cbn [exitCode].
    split; [split; [discriminate|intros (s1 & Em); discriminate]|].
    split; [split; eauto|].
    split; [split; [discriminate|intros (m & s1 & Em); discriminate]|].
    split; [intros _; exact Hv|].
    split; [reflexivity|].
    split; intros; discriminate.
Qed.

End Run.

(** C8: the example site on a machine without the dump utility.  The
    sanity checks find nothing and throw no [Interruption]; the child
    process reports that it could not be started, nobody listens, and the
    process ends with exit code 1, not with the 127 of the handler for a
    failure of an external tool. *)
Lemma main_missing_dump_tool :
  spawnError toollessWorld = Some (js "spawn mysqldump ENOENT") /\
  main toollessWorld 2 (js "/site") sampleDisk sampleTable = Some 1%Z /\
  sanityChecks (newEngine (js "/site") sampleDisk sampleTable)
  = Returns tt (newEngine (js "/site") sampleDisk sampleTable) /\
  exists s',
    run toollessWorld 2 (newEngine (js "/site") sampleDisk sampleTable)
    = Crashes (js "spawn mysqldump ENOENT") s' /\
    wp_options s' = sampleTable /\
    fs_access (disk s') (js "/site/web/wp/wp-config.php") = true.
Proof.
  split; [reflexivity|].
  split; [vm_compute; reflexivity|].
  split; [vm_compute; reflexivity|].
  eexists. split; [vm_compute; reflexivity|].
  split; vm_compute; reflexivity.
Qed.

(** * Paths *)

Lemma trimStart_idem (s : jsstring) (c : jschar) :
  trimStart (trimStart s c) c = trimStart s c.
Proof.
  induction s as [|x s IH]; simpl; [reflexivity|].
  destruct (jschar_eqb x c) eqn:E; [exact IH|].
  simpl. now rewrite E.
Qed.

Lemma trimStart_head (s : jsstring) (c : jschar) :
  startsWith [c] (trimStart s c) = false.
Proof.
  induction s as [|x s IH]; simpl; [reflexivity|].
  destruct (jschar_eqb x c) eqn:E; [exact IH|].
  simpl. unfold jschar_eqb in *. rewrite N.eqb_sym, E. reflexivity.
Qed.

Lemma trimStart_repeat (s : jsstring) (c : jschar) :
  exists n, s = repeat c n ++ trimStart s c.
Proof.
  induction s as [|x s (n & IH)]; simpl; [now exists 0|].
  destruct (jschar_eqb x c) eqn:E.
  - apply jschar_eqb_eq in E. subst x. exists (S n). simpl. now f_equal.
  - now exists 0.
Qed.

Lemma trimStart_free (s : jsstring) (c : jschar) :
  startsWith [c] s = false -> trimStart s c = s.
Proof.
  destruct s as [|x s]; simpl; [reflexivity|].
  unfold jschar_eqb. rewrite N.eqb_sym. rewrite andb_true_r.
  now intros ->.
Qed.

(** X1: [trimEnd(cwd, '/')], the root of the engine, is [cwd] without its
    trailing slashes: [cwd] is the root followed by slashes only, and the
    root does not end with a slash; a [cwd] without trailing slash is its
    own root. *)
Theorem trimEnd_root (cwd : jsstring) :
  (exists n, cwd = trimEnd cwd (ch "/") ++ repeat (ch "/") n) /\
  endsWith (js "/") (trimEnd cwd (ch "/")) = false /\
  (endsWith (js "/") cwd = false -> trimEnd cwd (ch "/") = cwd).
Proof.
  assert (Hend : forall s, endsWith (js "/") s
                           = startsWith [ch "/"] (rev s)).
  { intros s. unfold endsWith. change (length (js "/")) with 1.
    destruct (rev s) as [|x r] eqn:Er.
    - apply (f_equal (@rev _)) in Er. rewrite rev_involutive in Er.
      subst s. reflexivity.
    - apply (f_equal (@rev _)) in Er. rewrite rev_involutive in Er.
      subst s. cbn [rev]. rewrite length_app. cbn [length].
      replace (1 <=? length (rev r) + 1) with true
        by (symmetry; apply Nat.leb_le; lia).
      replace (length (rev r) + 1 - 1) with (length (rev r)) by lia.
      rewrite skipn_app, skipn_all, Nat.sub_diag. cbn [skipn app andb].
      cbn [jsstring_eqb startsWith]. unfold jschar_eqb.
      rewrite N.eqb_sym. change (ch "/") with 47%N.
      destruct (47 =? x)%N; reflexivity. }
  unfold trimEnd. split; [|split].
  - destruct (trimStart_repeat (rev cwd) (ch "/")) as (n & E).
    exists n. apply (f_equal (@rev _)) in E.
    rewrite rev_involutive, rev_app_distr, rev_repeat in E. exact E.
  - rewrite Hend, rev_involutive. apply trimStart_head.
  - rewrite Hend. intros Hs. rewrite trimStart_free by exact Hs.
    apply rev_involutive.
Qed.

Lemma trimEnd_root_witness : trimEnd (js "/site") (ch "/") = js "/site".
Proof.
  apply (proj2 (proj2 (trimEnd_root (js "/site")))). reflexivity.
Defined.

Section Paths.

Context {F : Type} `{FileSystem F}.

Lemma abs_cons_slash (s : State F) (path : jsstring) :
  abs s (ch "/" :: path) = abs s path.
Proof. unfold abs. cbn [trimStart]. now rewrite jschar_eqb_refl. Qed.

(** X2: [abs] joins the root and the path with one slash: the leading
    slashes of the path do not count, and what follows the slash after the
    root does not begin with a slash. *)
Theorem abs_leading_slashes (s : State F) (path : jsstring) :
  abs s (ch "/" :: path) = abs s path /\
  abs s (trimStart path (ch "/")) = abs s path /\
  exists rest,
    abs s path = root s ++ js "/" ++ rest /\
    startsWith (js "/") rest = false /\
    exists n, path = repeat (ch "/") n ++ rest.
Proof.
  unfold abs. split; [|split].
  - cbn [trimStart]. now rewrite jschar_eqb_refl.
  - now rewrite trimStart_idem.
  - exists (trimStart path (ch "/")). split; [reflexivity|].
    split; [apply trimStart_head|apply trimStart_repeat].
Qed.

(** X3: [archive] does not mind leading slashes: archiving [/path] is
    archiving [path]. *)
Theorem archive_leading_slash (s : State F) (path : jsstring) :
  archive (ch "/" :: path) s = archive path s.
Proof.
  unfold archive, exists_.
  pose proof (abs_cons_slash s path) as E.
  rewrite !bind_eq. unfold gets. rewrite E.
  cbn [trimStart]. now rewrite jschar_eqb_refl.
Qed.

(** X4: for a path that exists, [archive] makes one call of [mv], from the
    path to the same relative path below [.debedrockify/old], and nothing
    else: it returns [undefined] if the move succeeds, and throws the
    error of the move, which is no [Interruption], if it fails.  The table
    is untouched either way. *)
Theorem archive_existing (s : State F) (path : jsstring) :
  exists_ s path = true ->
  let rel := trimStart path (ch "/") in
  let src := root s ++ js "/" ++ rel in
  let dest := root s ++ js "/" ++ js ".debedrockify/old/" ++ rel in
  exists s',
    trace s' = trace s ++ [Mv src dest] /\
    disk s' = snd (fs_mv (disk s) src dest) /\
    wp_options s' = wp_options s /\
    (archive path s = Returns JsUndefined s' /\
     fst (fs_mv (disk s) src dest) = Done tt
     \/ exists m, archive path s = Throws (SystemError m) s' /\
                  fst (fs_mv (disk s) src dest) = Failed m).
Proof.
  intros E rel src dest.
  assert (Ea : abs s rel = src).
  { unfold abs, src, rel. now rewrite trimStart_idem. }
  assert (Eb : abs s (js ".debedrockify/old/" ++ rel) = dest)
    by reflexivity.
  unfold archive. rewrite bind_eq. unfold gets. rewrite E. cbn [negb].
  rewrite bind_eq. fold rel. rewrite Ea, Eb. unfold mv.
  destruct (mutate_spec (Mv src dest) (fun d => fs_mv d src dest) s
              (fun t => eq_refl))
    as (s' & Hr & (T & W & _) & _ & D & _).
  exists s'. split; [exact T|]. split; [exact D|]. split; [exact W|].
  destruct Hr as [(-> & Hd)|(m & -> & Hd)]; [left|right; exists m];
    split; auto.
Qed.

(** X5: [moveWpContents] skips a content folder that does not exist: it
    returns [false] and changes nothing. *)
Theorem moveWpContents_missing (s : State F) (wpFolder : jsstring) :
  exists_ s (js "web/app/" ++ wpFolder) = false ->
  moveWpContents wpFolder s = Returns JsFalse s.
Proof.
  intros E. unfold moveWpContents. cbv zeta. rewrite bind_eq.
  unfold gets. now rewrite E.
Qed.

Lemma moves_spec (wpFolder : jsstring) (files : list jsstring) :
  forall s : State F,
    let loop :=
      forEach files
        (fun file =>
           let src := js "web/app/" ++ wpFolder ++ js "/" ++ file in
           let dest := js "web/wp/wp-content/" ++ wpFolder ++ js "/"
                       ++ file in
           fun s => mv (abs s src) (abs s dest) s) in
    let '(n, result, final) := moveAll (root s) wpFolder files (disk s) in
    exists s',
      n <= length files /\
      trace s' = trace s ++ movesOf (root s) wpFolder (firstn n files) /\
      wp_options s' = wp_options s /\ root s' = root s /\
      disk s' = final /\
      match result with
      | Done _ => loop s = Returns tt s' /\ n = length files
      | Failed m => loop s = Throws (SystemError m) s' /\ 0 < n
      end.
Proof.
  induction files as [|f files IH]; intros s.
  - exists s. cbn [forEach firstn length]. unfold movesOf.
    cbn [map]. rewrite app_nil_r. repeat split; auto.
  - cbv zeta.
    match goal with
    | |- context [forEach (f :: files) ?body s] =>
        remember (forEach (f :: files) body s) as r eqn:Er
    end.
    cbn [forEach] in Er. rewrite bind_eq in Er. unfold mv at 1 in Er.
    match type of Er with
    | context [mutate ?ev ?op s] =>
        destruct (mutate_spec ev op s (fun t => eq_refl))
          as (s1 & Hr & (T & W & _ & R) & _ & D & _)
    end.
    cbn [replay fold_left] in W. cbn [moveAll].
    change (root s ++ js "/" ++ js "web/app/" ++ wpFolder ++ js "/" ++ f)
      with (abs s (js "web/app/" ++ wpFolder ++ js "/" ++ f)).
    change (root s ++ js "/" ++ js "web/wp/wp-content/" ++ wpFolder
            ++ js "/" ++ f)
      with (abs s (js "web/wp/wp-content/" ++ wpFolder ++ js "/" ++ f)).
    destruct (fs_mv (disk s)
                (abs s (js "web/app/" ++ wpFolder ++ js "/" ++ f))
                (abs s (js "web/wp/wp-content/" ++ wpFolder ++ js "/" ++ f)))
      as [[[]|m] d1] eqn:Emv; cbn [fst snd] in Hr, D.
    + destruct Hr as [(E & _)|(m & _ & Hf)]; [|discriminate].
      rewrite E in Er. specialize (IH s1). cbv zeta in IH.
      rewrite R, D in IH.
      destruct (moveAll (root s) wpFolder files d1) as [[n result] final].
      destruct IH as (s2 & Hn & T2 & W2 & R2 & D2 & Hl).
      exists s2. cbn [length firstn]. split; [lia|].
      split.
      { rewrite T2, T, <- app_assoc. reflexivity. }
      split; [congruence|]. split; [congruence|]. split; [exact D2|].
      rewrite Er.
      destruct result as [[]|m]; destruct Hl as [-> Hl];
        (split; [reflexivity|lia]).
    + destruct Hr as [(_ & Hf)|(m' & E & Hf)]; [discriminate|].
      injection Hf as <-. rewrite E in Er.
      exists s1. cbn [length firstn]. split; [lia|].
      split; [exact T|]. split; [exact W|].
      split; [exact R|]. split; [exact D|]. rewrite Er.
      split; [reflexivity|lia].
Qed.

End Paths.

Section Moves.

Context {F : Type} `{FileSystem F}.

(** X6: for a content folder that exists, [moveWpContents] creates the
    destination folder, lists the source folder, and moves the entries one
    by one, in the order of the listing, each to the entry of the same name
    in the destination, each on the disk the moves before it have left.
    If all moves succeed it returns [undefined]; the first move that fails
    stops it with the error of that move, the entries before it stay
    moved.  The table is untouched. *)
Theorem moveWpContents_moves
  (s : State F) (wpFolder : jsstring) (files : list jsstring) :
  let dest := abs s (js "web/wp/wp-content/" ++ wpFolder) in
  exists_ s (js "web/app/" ++ wpFolder) = true ->
  fst (fs_makeDir (disk s) dest) = Done tt ->
  fs_globby (snd (fs_makeDir (disk s) dest)) (js "web/app/" ++ wpFolder)
  = Done files ->
  let '(n, result, final) :=
    moveAll (root s) wpFolder files (snd (fs_makeDir (disk s) dest)) in
  exists s',
    n <= length files /\
    trace s' = trace s ++ MakeDir dest
                          :: movesOf (root s) wpFolder (firstn n files) /\
    disk s' = final /\
    wp_options s' = wp_options s /\
    match result with
    | Done _ =>
        moveWpContents wpFolder s = Returns JsUndefined s' /\
        n = length files
    | Failed m =>
        moveWpContents wpFolder s = Throws (SystemError m) s' /\ 0 < n
    end.
Proof.
  intros dest E Hm Hg.
  remember (moveWpContents wpFolder s) as r eqn:Er.
  unfold moveWpContents in Er. cbv zeta in Er. rewrite bind_eq in Er.
  unfold gets in Er. rewrite E in Er. cbn [negb] in Er.
  rewrite bind_eq in Er. fold dest in Er. unfold makeDir in Er.
  destruct (mutate_spec (MakeDir dest) (fun d => fs_makeDir d dest) s
              (fun t => eq_refl))
    as (s1 & Hr & (T & W & _ & R) & _ & D & _).
  cbn [replay fold_left] in W.
  destruct Hr as [(E1 & _)|(m & _ & Hf)]; [|congruence].
  rewrite E1 in Er. rewrite bind_eq in Er. unfold globby in Er.
  rewrite D, Hg in Er. cbn [lift ret] in Er. rewrite bind_eq in Er.
  pose proof (moves_spec wpFolder files s1) as Hl. cbv zeta in Hl.
  rewrite R, D in Hl.
  destruct (moveAll (root s) wpFolder files (snd (fs_makeDir (disk s) dest)))
    as [[n result] final].
  destruct Hl as (s2 & Hn & T2 & W2 & R2 & D2 & Hl).
  exists s2. split; [exact Hn|]. split.
  { rewrite T2, T, <- app_assoc. reflexivity. }
  split; [exact D2|]. split; [congruence|]. rewrite Er.
  destruct result as [[]|m]; destruct Hl as [-> Hl];
    (split; [reflexivity|exact Hl]).
Qed.

End Moves.

Lemma archive_existing_witness :
  exists s',
    archive (js "/composer.json") (newEngine (js "/site") archiveDisk [])
    = Returns JsUndefined s' /\
    trace s' = [Mv (js "/site/composer.json")
                   (js "/site/.debedrockify/old/composer.json")].
Proof.
  assert (H1 : exists_ (newEngine (js "/site") archiveDisk [])
                 (js "/composer.json") = true) by (vm_compute; reflexivity).
  destruct (archive_existing (newEngine (js "/site") archiveDisk [])
              (js "/composer.json") H1)
    as (s' & T & _ & _ & [(E & _)|(m & _ & Hf)]).
  - exists s'. split; [exact E|exact T].
  - vm_compute in Hf. discriminate.
Defined.

Lemma moveWpContents_missing_witness :
  moveWpContents (js "plugins") (newEngine (js "/site") sampleDisk [])
  = Returns JsFalse (newEngine (js "/site") sampleDisk []).
Proof.
  apply (moveWpContents_missing (newEngine (js "/site") sampleDisk [])
           (js "plugins")).
  vm_compute. reflexivity.
Defined.

Lemma moveWpContents_moves_witness :
  exists s',
    moveWpContents (js "themes") (newEngine (js "/site") sampleProc [])
    = Returns JsUndefined s' /\
    trace s' = [MakeDir (js "/site/web/wp/wp-content/themes");
                Mv (js "/site/web/app/themes/mytheme")
                   (js "/site/web/wp/wp-content/themes/mytheme")] /\
    fs_access (disk s') (js "/site/web/wp/wp-content/themes/mytheme") = true
    /\
    fs_access (disk s') (js "/site/web/app/themes/mytheme") = false.
Proof.
  pose (s := newEngine (js "/site") sampleProc []).
  assert (H1 : exists_ s (js "web/app/" ++ js "themes") = true)
    by (vm_compute; reflexivity).
  assert (H2 : fst (fs_makeDir (disk s)
                      (abs s (js "web/wp/wp-content/" ++ js "themes")))
               = Done tt) by (vm_compute; reflexivity).
  assert (H3 : fs_globby
                 (snd (fs_makeDir (disk s)
                         (abs s (js "web/wp/wp-content/" ++ js "themes"))))
                 (js "web/app/" ++ js "themes") = Done [js "mytheme"])
    by (vm_compute; reflexivity).
  pose proof (moveWpContents_moves s (js "themes") [js "mytheme"] H1 H2 H3)
    as H.
  destruct (moveAll (root s) (js "themes") [js "mytheme"]
              (snd (fs_makeDir (disk s)
                      (abs s (js "web/wp/wp-content/" ++ js "themes")))))
    as [[n result] final] eqn:Em.
  vm_compute in Em. injection Em as <- <- <-.
  destruct H as (s' & _ & T & D & _ & E & _).
  exists s'. split; [exact E|]. split; [exact T|].
  rewrite D. split; vm_compute; reflexivity.
Defined.

(** * The phases of a run *)

Section Phases.

Context {F : Type} `{FileSystem F}.
Variable world : Oracle.
Variable fuel : nat.

(** X7: the sanity checks change nothing, whatever they find: they return
    or throw in the state they started from; and when they throw, [run]
    throws the same error in that state, before any other phase. *)
Theorem sanityChecks_change_nothing (s : State F) :
  sanityChecks s = Returns tt s \/
  exists e,
    sanityChecks s = Throws e s /\ run world fuel s = Throws e s.
Proof.
  destruct (sanityChecks_spec s) as [[E|[(m & E)|(msg & E & _)]] _].
  - now left.
  - right. eexists. split; [exact E|]. unfold run. rewrite bind_eq.
    now rewrite E.
  - right. eexists. split; [exact E|]. unfold run. rewrite bind_eq.
    now rewrite E.
Qed.

(** X8: a run that goes through has done this, in this order: created
    [.debedrockify/old], read [.env], written [web/wp/wp-config.php] with a
    text that holds no secret placeholder, backed the database up, and
    replaced the rows of [siteurl] and [home] by one row each with the
    value of [WP_HOME] of the [.env] it read.  It has moved nothing, and
    the connection is closed. *)
Theorem run_returns (s s' : State F) :
  run world fuel s = Returns tt s' ->
  let old := abs s (js ".debedrockify/old") in
  exists e text dest,
    fs_envFile (snd (fs_makeDir (disk s) old)) (abs s (js ".env")) = Done e /\
    trace s' = trace s
               ++ [MakeDir old;
                   WriteFile (abs s (js "web/wp/wp-config.php")) text]
               ++ dbTrace dest (toSql (env_get e (js "WP_HOME"))) /\
    search secretPlaceholder text = None /\
    wp_options s'
    = filter (fun r => negb (isSiteKey r)) (wp_options s)
      ++ [{| option_name := js "siteurl";
             option_value := toSql (env_get e (js "WP_HOME")) |};
          {| option_name := js "home";
             option_value := toSql (env_get e (js "WP_HOME")) |}] /\
    connected s' = false.
Proof.
  intros Er old. unfold run in Er. rewrite bind_eq in Er.
  destruct (sanityChecks_pure s) as [E0|(e0 & E0)];
    rewrite E0 in Er; [|discriminate].
  rewrite bind_eq in Er. fold old in Er. unfold makeDir in Er.
  destruct (mutate_spec (MakeDir old) (fun d => fs_makeDir d old) s
              (fun t => eq_refl))
    as (s1 & Hr & X1 & _ & D1 & _ & K1).
  destruct Hr as [(E1 & _)|(m & E1 & _)]; rewrite E1 in Er; [|discriminate].
  rewrite bind_eq in Er.
  destruct (readEnv_spec s1)
    as [(e & s2 & E2 & Hf & He & X2 & _ & D2 & K2)|(m & E2)];
    rewrite E2 in Er; [|discriminate].
  rewrite bind_eq in Er.
  destruct (envToWpConfig_spec world fuel s2)
    as [E3|[(m & E3)|(template & e' & text & n & s3 & _ & He' & Hp & X3
                      & He3 & _ & [E3|(m & E3)])]];
    rewrite E3 in Er; try discriminate.
  destruct (doDb_returns world _ _ Er) as (e4 & dest & He4 & X4 & C4).
  assert (e4 = e) by congruence. subst e4.
  pose proof (grows_trans _ _ _ _ _
                (grows_trans _ _ _ _ _
                   (grows_trans _ _ _ _ _ (extends_grows _ _ _ X1) X2) X3)
                (extends_grows _ _ _ X4)) as (T & W & R).
  assert (R1 : root s1 = root s) by (destruct X1 as (_ & _ & _ & R1); auto).
  assert (R2 : root s2 = root s)
    by (destruct X2 as (_ & _ & R2); congruence).
  assert (A1 : abs s1 (js ".env") = abs s (js ".env"))
    by (unfold abs; now rewrite R1).
  assert (A2 : abs s2 (js "web/wp/wp-config.php")
               = abs s (js "web/wp/wp-config.php"))
    by (unfold abs; now rewrite R2).
  rewrite A1, D1 in Hf. rewrite A2 in T, W.
  exists e, text, dest. split; [exact Hf|]. split.
  { rewrite T. cbn [app]. reflexivity. }
  split.
  { unfold populateWpConfig in Hp. exact (secretLoop_clean _ _ _ _ _ _ Hp). }
  split; [|exact C4].
  rewrite W. unfold replay, dbTrace, rewriteStatements.
  cbn [app map fold_left]. unfold execute. rewrite <- app_assoc.
  reflexivity.
Qed.

End Phases.

(** * More on the database procedure *)

Section Rewrite.

Context {F : Type} `{FileSystem F}.
Variable world : Oracle.


Lemma isSiteKey_filter (t : list Row) (a b : Row) :
  isSiteKey a = true -> isSiteKey b = true ->
  filter (fun r => negb (isSiteKey r))
    (filter (fun r => negb (isSiteKey r)) t ++ [a; b])
  = filter (fun r => negb (isSiteKey r)) t.
Proof.
  intros Ha Hb. rewrite filter_app, filter_idem. cbn [filter].
  rewrite Ha, Hb. apply app_nil_r.
Qed.

(** X9: [updateDbSiteUrl] can be repeated: run again on the table it has
    left, it leaves the same table. *)
Theorem updateDbSiteUrl_idempotent (s s1 s2 : State F) :
  updateDbSiteUrl world s = Returns tt s1 ->
  updateDbSiteUrl world s1 = Returns tt s2 ->
  wp_options s2 = wp_options s1.
Proof.
  intros E1 E2.
  destruct (updateDbSiteUrl_table world s s1 E1) as (e & Ee & W1).
  destruct (updateDbSiteUrl_table world s1 s2 E2) as (e' & Ee' & W2).
  cbv zeta in W1, W2.
  assert (e' = e).
  { destruct (updateDbSiteUrl_spec world s)
      as (s' & qs & (_ & _ & V & _) & _ & _ & [(x & Ex & _)|(x & Ex & _)]);
      rewrite E1 in Ex; [|discriminate].
    injection Ex as <-. congruence. }
  subst e'. rewrite W2. rewrite W1 at 1.
  rewrite isSiteKey_filter by reflexivity. now rewrite <- W1.
Qed.


End Rewrite.

Lemma updateDbSiteUrl_idempotent_witness :
  exists s1 s2,
    updateDbSiteUrl calmWorld connectedEngine = Returns tt s1 /\
    updateDbSiteUrl calmWorld s1 = Returns tt s2 /\
    wp_options s2 = wp_options s1.
Proof.
  destruct (updateDbSiteUrl calmWorld connectedEngine)
    as [[] s1|e s1|m s1|] eqn:E1;
    try (vm_compute in E1; discriminate).
  destruct (updateDbSiteUrl calmWorld s1) as [[] s2|e s2|m s2|] eqn:E2.
  - exists s1, s2. split; [reflexivity|]. split; [exact E2|].
    exact (updateDbSiteUrl_idempotent calmWorld connectedEngine s1 s2 E1 E2).
  - exfalso. vm_compute in E1. injection E1 as <-. vm_compute in E2.
    discriminate.
  - exfalso. vm_compute in E1. injection E1 as <-. vm_compute in E2.
    discriminate.
  - exfalso. vm_compute in E1. injection E1 as <-. vm_compute in E2.
    discriminate.
Defined.


(** * Reports and rules *)

Lemma join_occurs (sep : jsstring) (paths : list jsstring) (p : jsstring) :
  In p paths -> exists a b, join sep paths = a ++ p ++ b.
Proof.
  induction paths as [|x l IH]; intros Hin; [destruct Hin|].
  destruct Hin as [->|Hin].
  - destruct l as [|y l].
    + exists [], []. simpl. now rewrite app_nil_r.
    + exists [], (sep ++ join sep (y :: l)). reflexivity.
  - destruct (IH Hin) as (a & b & E).
    destruct l as [|y l]; [destruct Hin|].
    exists (x ++ sep ++ a), b.
    change (join sep (x :: y :: l)) with (x ++ sep ++ join sep (y :: l)).
    rewrite E. now rewrite <- !app_assoc.
Qed.

(** Every path handed to [formatPaths] can be read in its result. *)
Lemma formatPaths_lists (paths : list jsstring) (p : jsstring) :
  In p paths -> forall before after,
    includesStr (before ++ formatPaths paths ++ after) p = true.
Proof.
  intros Hin before after. destruct (join_occurs (dquote :: js ", " ++ [dquote])
                                       paths p Hin) as (a & b & E).
  unfold includesStr, formatPaths. rewrite E.
  replace (before ++ (dquote :: (a ++ p ++ b) ++ [dquote]) ++ after)
    with ((before ++ dquote :: a) ++ p ++ (b ++ [dquote] ++ after)).
  - destruct (search p _) eqn:Es; [reflexivity|].
    now apply search_occurs in Es.
  - repeat (rewrite <- app_assoc || rewrite <- app_comm_cons).
    reflexivity.
Qed.

Section Reports.

Context {F : Type} `{FileSystem F}.

(** X11: the report of [checkPresence] names every path of the kind it
    reports: every expected path that is missing can be read in it; and if
    none is missing, every unexpected path that is there. *)
Theorem checkPresence_names_paths (s s' : State F) (e : JsError) :
  checkPresence s = Throws e s' ->
  exists msg,
    e = Interruption msg /\
    (forall p, In p expectedPresent -> exists_ s p = false ->
               includesStr msg p = true) /\
    ((forall p, In p expectedPresent -> exists_ s p = true) ->
     forall p, In p expectedAbsent -> exists_ s p = true ->
               includesStr msg p = true).
Proof.
  intros E. pose proof (checkPresence_eq s) as Er. cbv zeta in Er.
  rewrite Er in E. clear Er.
  destruct (filter (fun p => negb (exists_ s p)) expectedPresent)
    as [|a absent] eqn:Ea.
  - destruct (filter (exists_ s) expectedAbsent) as [|q present] eqn:Ep;
      [discriminate|].
    match type of E with
    | Throws (Interruption ?m) _ = _ => exists m; split; [congruence|]
    end. split.
    + intros p Hin Hp.
      assert (Hf : In p (filter (fun p => negb (exists_ s p))
                           expectedPresent))
        by (apply filter_In; split; [exact Hin|now rewrite Hp]).
      rewrite Ea in Hf. destruct Hf.
    + intros _ p Hin Hp. apply formatPaths_lists. rewrite <- Ep.
      apply filter_In. now split.
  - match type of E with
    | Throws (Interruption ?m) _ = _ => exists m; split; [congruence|]
    end. split.
    + intros p Hin Hp. apply formatPaths_lists. rewrite <- Ea.
      apply filter_In. split; [exact Hin|now rewrite Hp].
    + intros Hall p Hin Hp.
      assert (Hf : In a (filter (fun p => negb (exists_ s p))
                           expectedPresent)) by (rewrite Ea; now left).
      apply filter_In in Hf as [Hf Hn]. rewrite (Hall a Hf) in Hn.
      discriminate.
Qed.

(** X12: the report of [checkConflicts] names every entry found on both
    sides, and both folders. *)
Theorem checkConflicts_names_entries
  (s s' : State F) (path1 path2 msg : jsstring) (in1 in2 : list jsstring) :
  fs_globby (disk s) (abs s path1) = Done in1 ->
  fs_globby (disk s) (abs s path2) = Done in2 ->
  checkConflicts path1 path2 s = Throws (Interruption msg) s' ->
  (forall x, In x in1 -> In x in2 -> includesStr msg x = true) /\
  includesStr msg path1 = true /\ includesStr msg path2 = true.
Proof.
  intros G1 G2 E.
  destruct (checkConflicts_spec s path1 path2)
    as [E1|[(m & E1)|(a & b & x & Ha & Hb & _ & _ & E1)]];
    rewrite E1 in E; try discriminate.
  assert (Em : msg = conflictMessage (intersection a b) path1 path2)
    by congruence.
  rewrite Em. clear E Em.
  assert (a = in1) by congruence. assert (b = in2) by congruence.
  subst a b. unfold conflictMessage. split; [|split].
  - intros y H1 H2. apply formatPaths_lists.
    apply (proj1 (intersection_spec in1 in2)). now split.
  - replace (js "Conflict: " ++ formatPaths (intersection in1 in2)
             ++ js " present in both " ++ path1 ++ js " and " ++ path2
             ++ js ", remove one to continue")
      with ((js "Conflict: " ++ formatPaths (intersection in1 in2)
             ++ js " present in both ") ++ path1
            ++ (js " and " ++ path2 ++ js ", remove one to continue"))
      by (rewrite <- !app_assoc; reflexivity).
    unfold includesStr. destruct (search path1 _) eqn:Es; [reflexivity|].
    now apply search_occurs in Es.
  - replace (js "Conflict: " ++ formatPaths (intersection in1 in2)
             ++ js " present in both " ++ path1 ++ js " and " ++ path2
             ++ js ", remove one to continue")
      with ((js "Conflict: " ++ formatPaths (intersection in1 in2)
             ++ js " present in both " ++ path1 ++ js " and ") ++ path2
            ++ js ", remove one to continue")
      by (rewrite <- !app_assoc; reflexivity).
    unfold includesStr. destruct (search path2 _) eqn:Es; [reflexivity|].
    now apply search_occurs in Es.
Qed.

End Reports.

Lemma checkPresence_names_paths_witness :
  exists msg,
    checkPresence (newEngine (js "/site") halfMigratedDisk [])
    = Throws (Interruption msg) (newEngine (js "/site") halfMigratedDisk [])
    /\ includesStr msg (js ".env") = true.
Proof.
  destruct (checkPresence (newEngine (js "/site") halfMigratedDisk []))
    as [[] s1|e s1|m s1|] eqn:E; try (vm_compute in E; discriminate).
  destruct (checkPresence_names_paths _ _ _ E) as (msg & -> & Hp & _).
  exists msg. split.
  - vm_compute in E. injection E as E <-. rewrite <- E. reflexivity.
  - apply Hp; [now left|]. vm_compute. reflexivity.
Defined.

Lemma checkConflicts_names_entries_witness :
  exists msg s',
    checkConflicts (js "web/app/themes") (js "web/wp/wp-content/themes")
      (newEngine (js "/site") conflictingDisk [])
    = Throws (Interruption msg) s' /\
    includesStr msg (js "mytheme") = true.
Proof.
  destruct (checkConflicts (js "web/app/themes")
              (js "web/wp/wp-content/themes")
              (newEngine (js "/site") conflictingDisk []))
    as [[] s1|[msg|msg] s1|m s1|] eqn:E; try (vm_compute in E; discriminate).
  exists msg, s1. split; [reflexivity|].
  assert (G1 : fs_globby (disk (newEngine (js "/site") conflictingDisk []))
                 (abs (newEngine (js "/site") conflictingDisk [])
                    (js "web/app/themes")) = Done [js "mytheme"])
    by (vm_compute; reflexivity).
  assert (G2 : fs_globby (disk (newEngine (js "/site") conflictingDisk []))
                 (abs (newEngine (js "/site") conflictingDisk [])
                    (js "web/wp/wp-content/themes"))
               = Done [js "mytheme"; js "twentyten"])
    by (vm_compute; reflexivity).
  destruct (checkConflicts_names_entries _ _ _ _ _ _ _ G1 G2 E) as [Hx _].
  apply Hx; simpl; tauto.
Defined.

Lemma replace_same (s pat : jsstring) :
  existsb (jschar_eqb (ch "$")) pat = false -> replace s pat pat = s.
Proof.
  intros Hp. destruct (search pat s) as [i|] eqn:E.
  - rewrite (replace_plain _ _ _ _ E Hp).
    symmetry. exact (proj1 (search_decompose _ _ _ E)).
  - unfold replace. now rewrite E.
Qed.

(** X13: the two conditional rules.  The rule for [WP_DEBUG] turns the
    first [define('WP_DEBUG', false)] into [define('WP_DEBUG', true)]
    exactly when [WP_ENV] is [development], and otherwise leaves the text
    as it is; the rule for the table prefix is skipped when [DB_PREFIX] is
    missing or empty.  Outside development and without a prefix, the fixed
    substitutions are those of the four database placeholders. *)
Theorem conditional_rules (env : Env) (template : jsstring) :
  let text4 := applyRules (firstn 4 (findReplace env)) template in
  let text5 :=
    if strictEq (env_get env (js "WP_ENV")) (js "development")
    then replace text4 (js "define('WP_DEBUG', false)")
           (js "define('WP_DEBUG', true)")
    else text4 in
  applyRules (findReplace env) template
  = if truthy (env_get env (js "DB_PREFIX"))
    then replaceTablePrefix text5
           (js "$table_prefix = '" ++ toStr (env_get env (js "DB_PREFIX"))
              ++ js "'")
    else text5.
Proof.
  intros text4 text5. unfold applyRules, findReplace in *.
  cbn [firstn fold_left] in *. fold text4.
  assert (E5 : applyRule text4
                 (Lit (js "define('WP_DEBUG', false)"),
                  Some (js "define('WP_DEBUG', "
                        ++ (if strictEq (env_get env (js "WP_ENV"))
                                 (js "development")
                            then js "true" else js "false")
                        ++ js ")")) = text5).
  { unfold text5. cbn [applyRule].
    destruct (strictEq (env_get env (js "WP_ENV")) (js "development")).
    - reflexivity.
    - change (js "define('WP_DEBUG', " ++ js "false" ++ js ")")
        with (js "define('WP_DEBUG', false)").
      apply replace_same. vm_compute. reflexivity. }
  rewrite E5.
  destruct (truthy (env_get env (js "DB_PREFIX"))); reflexivity.
Qed.

(** * Every run *)

Lemma forallb_queries (qs : list Statement) :
  forallb isDbEvent (map Query qs) = true.
Proof. induction qs; simpl; auto. Qed.

Section Invariant.

Context {F : Type} `{FileSystem F}.
Variable world : Oracle.
Variable fuel : nat.

Lemma doDb_events (s : State F) :
  exists s' evs,
    (doDb world s = Returns tt s'
     \/ (exists e, doDb world s = Throws e s')
     \/ exists m, doDb world s = Crashes m s') /\
    grows s s' evs /\ forallb isDbEvent evs = true /\
    guarded false evs = true.
Proof.
  destruct (doDb_spec world s) as (s' & evs & X & Hc).
  exists s', evs. split; [|split; [exact (extends_grows _ _ _ X)|split]].
  - destruct Hc as [(e & E & _)|[[_ [(e & d & E & _)|[(e & d & qs & E & _)
                   |[(e & d & qs & E & _)|(d & qs & E & _)]]]]
                   |(m & E & _)]]; eauto.
  - destruct Hc as [(e & _ & _ & _ & [->|(d & ->)])
                   |[[_ [(e & d & _ & _ & ->)
                        |[(e & d & qs & _ & _ & _ & ->)
                         |[(e & d & qs & _ & _ & ->)
                          |(d & qs & _ & _ & ->)]]]]
                    |(m & _ & _ & _ & _ & ->)]];
      try reflexivity; cbn [app forallb isDbEvent andb];
      rewrite ?forallb_app, forallb_queries; reflexivity.
  - destruct Hc as [(e & _ & _ & _ & [->|(d & ->)])
                   |[[_ [(e & d & _ & _ & ->)
                        |[(e & d & qs & _ & _ & _ & ->)
                         |[(e & d & qs & _ & _ & ->)
                          |(d & qs & _ & _ & ->)]]]]
                    |(m & _ & _ & _ & _ & ->)]];
      try reflexivity;
      cbn [app guarded rewrites isLeaveBackup negb orb andb];
      apply guarded_seen.
Qed.

(** The traces of [run]: nothing, the creation of the quarantine folder,
    or that, the configuration file and the events of the database
    procedure. *)
Lemma run_shape (s s' : State F) :
  (run world fuel s = Returns tt s'
   \/ (exists e, run world fuel s = Throws e s')
   \/ exists m, run world fuel s = Crashes m s') ->
  exists evs,
    grows s s' evs /\
    (evs = [] \/ evs = [MakeDir (abs s (js ".debedrockify/old"))] \/
     exists text dbevs,
       evs = MakeDir (abs s (js ".debedrockify/old"))
             :: WriteFile (abs s (js "web/wp/wp-config.php")) text
             :: dbevs /\
       search secretPlaceholder text = None /\
       forallb isDbEvent dbevs = true /\ guarded false dbevs = true).
Proof.
  intros Hout.
  remember (run world fuel s) as r eqn:Er.
  unfold run in Er. rewrite bind_eq in Er.
  destruct (sanityChecks_pure s)
    as [E0|(e0 & E0)]; rewrite E0 in Er.
  2:{ exists []. split; [|now left].
      assert (s' = s) by (destruct Hout as [Ho|[(e & Ho)|(m' & Ho)]]; congruence).
      subst s'. unfold grows. rewrite app_nil_r. auto. }
  rewrite bind_eq in Er. unfold makeDir in Er.
  match type of Er with
  | context [mutate ?ev ?op s] =>
      destruct (mutate_spec ev op s (fun t => eq_refl))
        as (s1 & Hr & X1 & _)
  end.
  apply extends_grows in X1.
  destruct Hr as [(E1 & _)|(m & E1 & _)]; rewrite E1 in Er.
  2:{ eexists. split; [|right; left; reflexivity].
      assert (s' = s1) by (destruct Hout as [Ho|[(e & Ho)|(m' & Ho)]]; congruence).
      now subst s'. }
  rewrite bind_eq in Er.
  destruct (readEnv_spec s1)
    as [(e & s2 & E2 & _ & _ & X2 & _)|(m & E2)]; rewrite E2 in Er.
  2:{ eexists. split; [|right; left; reflexivity].
      assert (s' = s1) by (destruct Hout as [Ho|[(e & Ho)|(m' & Ho)]]; congruence).
      now subst s'. }
  pose proof (grows_trans _ _ _ _ _ X1 X2) as X12.
  cbn [app] in X12.
  assert (R2 : root s2 = root s) by (destruct X12 as (_ & _ & R); auto).
  rewrite bind_eq in Er.
  destruct (envToWpConfig_spec world fuel s2)
    as [E3|[(m & E3)|(template & e' & text & n & s3 & _ & _ & Hp & X3
                      & _ & _ & Hr3)]].
  - rewrite E3 in Er. destruct Hout as [Ho|[(e1 & Ho)|(m' & Ho)]]; congruence.
  - rewrite E3 in Er. eexists. split; [|right; left; reflexivity].
    assert (s' = s2) by (destruct Hout as [Ho|[(e1 & Ho)|(m' & Ho)]]; congruence).
    now subst s'.
  - assert (A2 : abs s2 (js "web/wp/wp-config.php")
                 = abs s (js "web/wp/wp-config.php"))
      by (unfold abs; now rewrite R2).
    rewrite A2 in X3.
    pose proof (grows_trans _ _ _ _ _ X12 X3) as X123. cbn [app] in X123.
    assert (Hclean : search secretPlaceholder text = None).
    { unfold populateWpConfig in Hp.
      exact (secretLoop_clean _ _ _ _ _ _ Hp). }
    destruct Hr3 as [E3|(m & E3)]; rewrite E3 in Er.
    + destruct (doDb_events s3) as (s4 & dbevs & Hd & X4 & Hall & Hg).
      assert (s' = s4).
      { destruct Hd as [Hd|[(e4 & Hd)|(m4 & Hd)]]; rewrite Hd in Er;
          destruct Hout as [Ho|[(e1 & Ho)|(m' & Ho)]]; congruence. }
      subst s4. pose proof (grows_trans _ _ _ _ _ X123 X4) as X.
      cbn [app] in X. eexists. split; [exact X|].
      right. right. exists text, dbevs. auto.
    + assert (s' = s3) by (destruct Hout as [Ho|[(e1 & Ho)|(m' & Ho)]]; congruence).
      subst s'. eexists. split; [exact X123|].
      right. right. exists text, []. auto.
Qed.

(** X14: in every run, however it ends, the process cut short by a dump
    utility that cannot be started included: nothing is moved; the only file
    the engine writes itself is [web/wp/wp-config.php], in one call, and
    the text it writes holds no secret placeholder; and the database
    procedure (backup included) starts only after that file has been
    written.  The table changes only through the statements in the
    trace. *)
Theorem run_invariant (s s' : State F) :
  (run world fuel s = Returns tt s'
   \/ (exists e, run world fuel s = Throws e s')
   \/ exists m, run world fuel s = Crashes m s') ->
  exists evs,
    trace s' = trace s ++ evs /\
    wp_options s' = replay evs (wp_options s) /\
    (forall ev, In ev evs -> isMove ev = false) /\
    (forall p text,
        In (WriteFile p text) evs ->
        p = abs s (js "web/wp/wp-config.php") /\
        search secretPlaceholder text = None) /\
    (forall pre ev post,
        evs = pre ++ ev :: post -> isDbEvent ev = true ->
        exists text,
          In (WriteFile (abs s (js "web/wp/wp-config.php")) text) pre).
Proof.
  intros Hout. pose proof (run_shape s s' Hout) as Hshape.
  destruct Hshape as (evs & (T & W & _) & Hs).
  exists evs. split; [exact T|]. split; [exact W|].
  assert (Hdb : forall l ev, forallb isDbEvent l = true -> In ev l ->
                             isDbEvent ev = true).
  { intros l ev Hl. rewrite forallb_forall in Hl. apply Hl. }
  destruct Hs as [->|[->|(text & dbevs & -> & Hc & Hall & _)]].
  - split; [intros ev []|]. split; [intros p t []|].
    intros pre ev post E. destruct pre; discriminate.
  - split; [intros ev [<-|[]]; reflexivity|].
    split; [intros p t [Hx|[]]; discriminate|].
    intros pre ev post E Hev.
    destruct pre as [|x pre]; [injection E as <- _; discriminate|].
    destruct pre; discriminate.
  - split; [|split].
    + intros ev [<-|[<-|Hin]]; try reflexivity.
      apply (Hdb _ _ Hall) in Hin. destruct ev; try discriminate; reflexivity.
    + intros p t [Hx|[Hx|Hin]]; [discriminate| |].
      * injection Hx as <- <-. auto.
      * apply (Hdb _ _ Hall) in Hin. discriminate.
    + intros pre ev post E Hev.
      destruct pre as [|x pre]; [injection E as <- _; discriminate|].
      destruct pre as [|y pre];
        [injection E as _ <- _; discriminate|].
      injection E as <- <- _. exists text. right. now left.
Qed.

(** X15: the safety property of the database procedure holds for the
    whole run: however a run ends, the process cut short by a dump utility
    that cannot be started included, the rewrite step is entered and its
    statements are carried out only after [mysqlBackup] has returned. *)
Theorem run_backup_first (s s' : State F) :
  (run world fuel s = Returns tt s'
   \/ (exists e, run world fuel s = Throws e s')
   \/ exists m, run world fuel s = Crashes m s') ->
  exists evs,
    trace s' = trace s ++ evs /\
    wp_options s' = replay evs (wp_options s) /\
    forall pre ev post,
      evs = pre ++ ev :: post -> rewrites ev = true ->
      In (Leave MysqlBackup) pre.
Proof.
  intros Hout. destruct (run_shape s s' Hout) as (evs & (T & W & _) & Hs).
  exists evs. split; [exact T|]. split; [exact W|].
  assert (Hg : guarded false evs = true).
  { destruct Hs as [->|[->|(text & dbevs & -> & _ & _ & Hg)]];
      try reflexivity. cbn [guarded rewrites isLeaveBackup negb orb andb].
    exact Hg. }
  intros pre ev post E Hev.
  destruct (guarded_sound evs false Hg pre ev post E Hev) as [Hs'|Hin];
    [discriminate|exact Hin].
Qed.

Lemma bind_never {A B} (m : M F A) (k : A -> M F B) (v : B) :
  (forall a s s', k a s <> Returns v s') ->
  forall s s', bind m k s <> Returns v s'.
Proof.
  intros Hk s s'. rewrite bind_eq.
  destruct (m s) as [a s1|e s1|m1 s1|]; [apply Hk|discriminate ..].
Qed.

(** X16: in the first draft [exists] returns nothing, so [archive] and
    [moveWpContents] take every path for missing: they return [false] and
    change nothing, whatever is on the disk.  They do what the final
    methods do exactly for the paths that are missing. *)
Theorem draft_archive_moves_nothing (s : State F) (path : jsstring) :
  archiveDraft path s = Returns JsFalse s /\
  moveWpContentsDraft path s = Returns JsFalse s /\
  (archiveDraft path s = archive path s <-> exists_ s path = false) /\
  (moveWpContentsDraft path s = moveWpContents path s
   <-> exists_ s (js "web/app/" ++ path) = false).
Proof.
  assert (Ea : archiveDraft path s = Returns JsFalse s) by reflexivity.
  assert (Em : moveWpContentsDraft path s = Returns JsFalse s)
    by reflexivity.
  split; [exact Ea|]. split; [exact Em|]. rewrite Ea, Em. split.
  - unfold archive. rewrite bind_eq. unfold gets.
    destruct (exists_ s path); cbn [negb].
    + split; [|discriminate]. intros E. symmetry in E.
      apply bind_never in E; [destruct E|]. discriminate.
    + split; reflexivity.
  - unfold moveWpContents. cbv zeta. rewrite bind_eq. unfold gets.
    destruct (exists_ s (js "web/app/" ++ path)); cbn [negb].
    + split; [|discriminate]. intros E. symmetry in E.
      apply bind_never in E; [destruct E|].
      intros _ s1 s2. apply bind_never.
      intros files s3 s4. apply bind_never. discriminate.
    + split; reflexivity.
Qed.

Lemma compact_absent (s : State F) (paths : list jsstring) :
  compact (absentDraft s paths)
  = filter (fun p => negb (exists_ s p) && negb (length p =? 0)) paths.
Proof.
  unfold absentDraft, exists_.
  induction paths as [|p paths IH]; [reflexivity|].
  cbn [map compact flat_map filter]. fold (compact (absentDraft s paths)).
  unfold absentDraft in *.
  destruct (fs_access (disk s) (abs s p)); cbn [negb andb app].
  - exact IH.
  - destruct p as [|c r]; cbn [length Nat.eqb negb app].
    + exact IH.
    + now rewrite <- IH.
Qed.

(** X17: [checkPresence] of the first draft, for the paths it is given,
    reports exactly the paths that are missing and not empty, all of them
    in one report, and returns if there is none; a missing path that is
    the empty string is never reported. *)
Theorem checkPresenceDraft_reports (s : State F) (paths : list jsstring) :
  let absent :=
    filter (fun p => negb (exists_ s p) && negb (length p =? 0)) paths in
  checkPresenceDraft paths s =
  match absent with
  | [] => Returns tt s
  | _ :: _ =>
      Throws (Interruption (formatPaths absent ++ js " not present")) s
  end.
Proof.
  intros absent. unfold checkPresenceDraft. rewrite bind_eq. unfold gets.
  rewrite compact_absent. fold absent.
  destruct absent; reflexivity.
Qed.

End Invariant.

Lemma run_returns_witness :
  exists s' text,
    run calmWorld 2 (newEngine (js "/site/") sampleDisk sampleTable)
    = Returns tt s' /\
    In (WriteFile (js "/site/web/wp/wp-config.php") text) (trace s') /\
    search secretPlaceholder text = None /\
    filter (named (js "home")) (wp_options s')
    = [{| option_name := js "home";
          option_value := SqlText (js "https://example.com") |}] /\
    connected s' = false.
Proof.
  destruct (run calmWorld 2 (newEngine (js "/site/") sampleDisk sampleTable))
    as [[] s1|e s1|m s1|] eqn:E; try (vm_compute in E; discriminate).
  destruct (run_returns calmWorld 2 _ s1 E)
    as (e & text & dest & He & T & Hc & W & C).
  exists s1, text. split; [reflexivity|]. split.
  - rewrite T. cbn [trace newEngine app]. right. now left.
  - split; [exact Hc|]. split; [|exact C].
    vm_compute in He. injection He as <-. rewrite W. vm_compute. reflexivity.
Defined.

Lemma run_invariant_witness :
  exists s' evs,
    run lockedWorld 2 (newEngine (js "/site") sampleDisk sampleTable)
    = Throws (SystemError (js "ER_LOCK_WAIT_TIMEOUT")) s' /\
    trace s' = evs /\ forall ev, In ev evs -> isMove ev = false.
Proof.
  destruct (run lockedWorld 2 (newEngine (js "/site") sampleDisk sampleTable))
    as [[] s1|e s1|m s1|] eqn:E; try (vm_compute in E; discriminate).
  destruct (run_invariant lockedWorld 2 _ s1
              (or_intror (or_introl (ex_intro _ e E))))
    as (evs & T & _ & Hm & _).
  exists s1, evs. split; [|split; [exact T|exact Hm]].
  vm_compute in E. injection E as <- _. reflexivity.
Defined.

Lemma run_backup_first_witness :
  exists s' evs,
    run calmWorld 2 (newEngine (js "/site/") sampleDisk sampleTable)
    = Returns tt s' /\
    trace s' = evs /\
    forall pre ev post,
      evs = pre ++ ev :: post -> rewrites ev = true ->
      In (Leave MysqlBackup) pre.
Proof.
  destruct (run calmWorld 2 (newEngine (js "/site/") sampleDisk sampleTable))
    as [[] s1|e s1|m s1|] eqn:E; try (vm_compute in E; discriminate).
  destruct (run_backup_first calmWorld 2 _ s1 (or_introl E))
    as (evs & T & _ & Hg).
  exists s1, evs. split; [reflexivity|]. split; [exact T|exact Hg].
Defined.

(** * Values as replacement patterns, and the backup *)

Lemma getSubstitution_app_plain (matched before after x r : jsstring) :
  existsb (jschar_eqb (ch "$")) x = false ->
  getSubstitution matched before after (x ++ r)
  = x ++ getSubstitution matched before after r.
Proof.
  induction x as [|c x IH]; intros Hx; [reflexivity|].
  cbn [existsb] in Hx. apply orb_false_iff in Hx as [Hc Hx].
  assert (E : jschar_eqb c (ch "$") = false).
  { unfold jschar_eqb in *. rewrite N.eqb_sym. exact Hc. }
  change ((c :: x) ++ r) with (c :: x ++ r).
  cbn [getSubstitution]. rewrite E. cbn [app]. f_equal. now apply IH.
Qed.

Lemma rule_with_pattern (pre find suf x y rest : jsstring) (d : ascii) :
  search find (pre ++ find ++ suf) = Some (length pre) ->
  existsb (jschar_eqb (ch "$")) x = false ->
  getSubstitution find pre suf (ch "$" :: ch d :: y) = rest ++ y ->
  applyRule (pre ++ find ++ suf) (Lit find, Some (x ++ ch "$" :: ch d :: y))
  = pre ++ (x ++ rest ++ y) ++ suf.
Proof.
  intros Hs Hx Hd.
  assert (Hb : firstn (length pre) (pre ++ find ++ suf) = pre).
  { now rewrite firstn_app, firstn_all, Nat.sub_diag, app_nil_r. }
  assert (Ha : skipn (length pre + length find) (pre ++ find ++ suf) = suf).
  { rewrite app_assoc, skipn_app.
    rewrite skipn_all2 by (rewrite length_app; lia).
    rewrite length_app, Nat.sub_diag. reflexivity. }
  cbn [applyRule]. unfold replace. rewrite Hs, Hb, Ha.
  rewrite getSubstitution_app_plain by exact Hx. now rewrite Hd.
Qed.

Ltac decide_chars :=
  cbn [getSubstitution];
  repeat match goal with
         | |- context [jschar_eqb (ch ?a) (ch ?b)] =>
             let v := eval vm_compute in (jschar_eqb (ch a) (ch b)) in
             change (jschar_eqb (ch a) (ch b)) with v
         end;
  cbv iota.

(** X18: the values of the environment are replacement patterns of
    [String.replace], not plain text.  Where the text is split around the
    first occurrence of the placeholder, a value with [$&] brings the
    placeholder itself back, [$$] gives one dollar sign, and [$`] and [$']
    copy the text before and after the occurrence into the value. *)
Theorem value_dollar_patterns (pre find suf x y : jsstring) :
  search find (pre ++ find ++ suf) = Some (length pre) ->
  existsb (jschar_eqb (ch "$")) x = false ->
  existsb (jschar_eqb (ch "$")) y = false ->
  let t := pre ++ find ++ suf in
  applyRule t (Lit find, Some (x ++ js "$&" ++ y))
  = pre ++ (x ++ find ++ y) ++ suf /\
  applyRule t (Lit find, Some (x ++ js "$$" ++ y))
  = pre ++ (x ++ js "$" ++ y) ++ suf /\
  applyRule t (Lit find, Some (x ++ js "$`" ++ y))
  = pre ++ (x ++ pre ++ y) ++ suf /\
  applyRule t (Lit find, Some (x ++ js "$'" ++ y))
  = pre ++ (x ++ suf ++ y) ++ suf.
Proof.
  intros Hs Hx Hy t. subst t.
  pose proof (getSubstitution_plain find pre suf y Hy) as Py.
  repeat split.
  - change (js "$&" ++ y) with (ch "$" :: ch "&" :: y).
    apply rule_with_pattern; auto. decide_chars. now rewrite Py.
  - change (js "$$" ++ y) with (ch "$" :: ch "$" :: y).
    apply rule_with_pattern; auto. decide_chars. now rewrite Py.
  - change (js "$`" ++ y) with (ch "$" :: ch "`" :: y).
    apply rule_with_pattern; auto. decide_chars. now rewrite Py.
  - change (js "$'" ++ y) with (ch "$" :: ch "'" :: y).
    apply rule_with_pattern; auto. decide_chars. now rewrite Py.
Qed.

Lemma value_dollar_patterns_witness :
  applyRule (js "define('DB_PASSWORD', 'password_here');")
    (Lit (js "password_here"), Some (js "pa" ++ js "$&" ++ js "ss"))
  = js "define('DB_PASSWORD', '" ++ (js "pa" ++ js "password_here" ++ js "ss")
    ++ js "');".
Proof.
  apply (value_dollar_patterns (js "define('DB_PASSWORD', '")
           (js "password_here") (js "');") (js "pa") (js "ss"));
    vm_compute; reflexivity.
Defined.

Section Backup.

Context {F : Type} `{FileSystem F}.
Variable world : Oracle.

(** X19: a backup that returns has piped the output of the dump utility
    for the table as it is then, and for the user, password and database
    of the environment, into [.debedrockify/mysql_backup_<time>.sql] below
    the root, where [<time>] is the clock reading; it has done nothing
    else to the disk and nothing to the table, and the dump utility could
    be started.  A missing password is passed as [-pundefined]. *)
Theorem mysqlBackup_dumps_table (s s' : State F) :
  mysqlBackup world s = Returns tt s' ->
  exists e,
    env s = Some e /\
    let dest := root s ++ js "/" ++ js ".debedrockify/mysql_backup_"
                ++ getTime world ++ js ".sql" in
    let args := {| dump_user := env_get e (js "DB_USER");
                   dump_password :=
                     js "-p" ++ toStr (env_get e (js "DB_PASSWORD"));
                   dump_database := env_get e (js "DB_NAME") |} in
    let piped := fs_pipe (disk s) dest (mysqldump world args (wp_options s)) in
    fst piped = Done tt /\ disk s' = snd piped /\
    wp_options s' = wp_options s /\
    trace s' = trace s ++ [Enter MysqlBackup; Pipe dest; Leave MysqlBackup] /\
    spawnError world = None.
Proof.
  intros Er. unfold mysqlBackup, method in Er. rewrite bind_eq in Er.
  destruct (emit_spec (Enter MysqlBackup) s (fun t => eq_refl))
    as (s0 & E0 & (T0 & W0 & V0 & R0) & _ & D0 & _). rewrite E0 in Er.
  cbn [replay fold_left] in W0.
  rewrite !bind_eq in Er.
  destruct (envField_spec (js "DB_USER") s0) as [(e & Ee & E1)|(Ee & E1)];
    rewrite E1 in Er; [|discriminate].
  rewrite bind_eq in Er.
  destruct (envField_spec (js "DB_PASSWORD") s0)
    as [(e' & Ee' & E2)|(Ee' & E2)]; rewrite E2 in Er; [|discriminate].
  rewrite bind_eq in Er.
  destruct (envField_spec (js "DB_NAME") s0)
    as [(e'' & Ee'' & E3)|(Ee'' & E3)]; rewrite E3 in Er; [|discriminate].
  assert (e' = e) by congruence. assert (e'' = e) by congruence.
  subst e' e''. cbv zeta in Er.
  destruct (spawnError world) as [m|] eqn:Es; [discriminate|].
  match type of Er with
  | context [mutate ?ev ?op s0] =>
      destruct (mutate_spec ev op s0 (fun t => eq_refl))
        as (s1 & Hr & (T1 & W1 & _) & _ & D1 & _)
  end.
  cbn [replay fold_left] in W1.
  destruct Hr as [(E4 & Hd)|(m & E4 & _)]; rewrite E4 in Er;
    [|discriminate].
  rewrite bind_eq in Er.
  destruct (emit_spec (Leave MysqlBackup) s1 (fun t => eq_refl))
    as (s2 & E5 & (T2 & W2 & _) & _ & D2 & _). rewrite E5 in Er.
  cbn [replay fold_left] in W2.
  injection Er as <-. exists e. split; [congruence|]. cbv zeta.
  assert (A : abs s0 (js ".debedrockify/mysql_backup_" ++ getTime world
                      ++ js ".sql")
              = root s ++ js "/" ++ js ".debedrockify/mysql_backup_"
                ++ getTime world ++ js ".sql").
  { unfold abs. rewrite R0. reflexivity. }
  rewrite A, W0, D0 in Hd, D1. rewrite A in T1.
  split; [exact Hd|]. split; [congruence|]. split; [congruence|].
  split; [|reflexivity].
  rewrite T2, T1, T0, <- !app_assoc. reflexivity.
Qed.

End Backup.

Lemma mysqlBackup_dumps_table_witness :
  exists s',
    mysqlBackup calmWorld readyEngine = Returns tt s' /\
    fs_readFile (disk s')
      (js "/site/.debedrockify/mysql_backup_1500000000000.sql")
    = Done (js "-- dump") /\
    wp_options s' = sampleTable.
Proof.
  destruct (mysqlBackup calmWorld readyEngine) as [[] s1|e s1|m s1|] eqn:E;
    try (vm_compute in E; discriminate).
  destruct (mysqlBackup_dumps_table calmWorld readyEngine s1 E)
    as (e & Ee & _ & D & W & _).
  exists s1. split; [reflexivity|]. split; [|exact W].
  rewrite D. vm_compute. reflexivity.
Defined.

(** * The table prefix *)

Lemma skipWhiteSpace_app (ws : jsstring) (c : jschar) (r : jsstring) :
  forallb isWhiteSpace ws = true -> isWhiteSpace c = false ->
  skipWhiteSpace (ws ++ c :: r) = (length ws, c :: r).
Proof.
  intros Hw Hc. induction ws as [|w ws IH].
  - cbn [app skipWhiteSpace length]. now rewrite Hc.
  - cbn [forallb] in Hw. apply andb_true_iff in Hw as [H1 H2].
    cbn [app skipWhiteSpace length]. rewrite H1, (IH H2). reflexivity.
Qed.

Lemma tablePrefixAt_match (ws1 ws2 suf : jsstring) :
  forallb isWhiteSpace ws1 = true -> forallb isWhiteSpace ws2 = true ->
  tablePrefixAt (js "$table_prefix" ++ ws1 ++ js "=" ++ ws2 ++ js "'wp_'"
                 ++ suf)
  = Some (length (js "$table_prefix" ++ ws1 ++ js "=" ++ ws2 ++ js "'wp_'")).
Proof.
  intros H1 H2. unfold tablePrefixAt. cbv zeta.
  rewrite startsWith_app.
  rewrite skipn_app, skipn_all, Nat.sub_diag. cbn [skipn app].
  change (js "=" ++ ws2 ++ js "'wp_'" ++ suf)
    with (ch "=" :: ws2 ++ js "'wp_'" ++ suf).
  rewrite skipWhiteSpace_app by (auto; reflexivity).
  rewrite jschar_eqb_refl.
  change (js "'wp_'" ++ suf) with (ch "'" :: (tl (js "'wp_'") ++ suf)).
  rewrite skipWhiteSpace_app by (auto; reflexivity).
  change (ch "'" :: (tl (js "'wp_'") ++ suf)) with (js "'wp_'" ++ suf).
  rewrite startsWith_app. f_equal.
  rewrite !length_app. change (length (js "=")) with 1. lia.
Qed.

Lemma tablePrefixAt_dollar (c : jschar) (r : jsstring) :
  jschar_eqb (ch "$") c = false -> tablePrefixAt (c :: r) = None.
Proof.
  intros Hc. unfold tablePrefixAt. cbv zeta.
  change (js "$table_prefix") with (ch "$" :: tl (js "$table_prefix")).
  cbn [startsWith]. now rewrite Hc.
Qed.

Lemma searchTablePrefix_skip (pre r : jsstring) (len : nat) :
  existsb (jschar_eqb (ch "$")) pre = false ->
  tablePrefixAt r = Some len ->
  searchTablePrefix (pre ++ r) = Some (length pre, len).
Proof.
  intros Hp Hr. induction pre as [|c pre IH].
  - destruct r; cbn [app searchTablePrefix length]; now rewrite Hr.
  - cbn [existsb] in Hp. apply orb_false_iff in Hp as [Hc Hp].
    cbn [app searchTablePrefix length].
    rewrite tablePrefixAt_dollar by exact Hc. now rewrite (IH Hp).
Qed.

Lemma getSubstitution_dollar_other (matched before after r : jsstring)
  (d : jschar) :
  jschar_eqb d (ch "$") = false -> jschar_eqb d (ch "&") = false ->
  jschar_eqb d (ch "`") = false -> jschar_eqb d (ch "'") = false ->
  getSubstitution matched before after (ch "$" :: d :: r)
  = ch "$" :: d :: getSubstitution matched before after r.
Proof.
  intros E1 E2 E3 E4.
  cbn [getSubstitution]. rewrite jschar_eqb_refl, E1, E2, E3, E4.
  reflexivity.
Qed.

Lemma prefixAssignment_head :
  js "$table_prefix = '" = ch "$" :: ch "t" :: js "able_prefix = '".
Proof. vm_compute. reflexivity. Qed.

Lemma replaceTablePrefix_at (pre m suf repl : jsstring) :
  searchTablePrefix (pre ++ m ++ suf) = Some (length pre, length m) ->
  replaceTablePrefix (pre ++ m ++ suf) repl
  = pre ++ getSubstitution m pre suf repl ++ suf.
Proof.
  intros Hm.
  assert (Hb : firstn (length pre) (pre ++ m ++ suf) = pre).
  { rewrite firstn_app, firstn_all, Nat.sub_diag. cbn [firstn].
    apply app_nil_r. }
  assert (Hs : skipn (length pre) (pre ++ m ++ suf) = m ++ suf).
  { rewrite skipn_app, skipn_all, Nat.sub_diag. reflexivity. }
  assert (Ha : skipn (length pre + length m) (pre ++ m ++ suf) = suf).
  { rewrite (Nat.add_comm (length pre)), <- skipn_skipn, Hs.
    rewrite skipn_app, skipn_all, Nat.sub_diag. reflexivity. }
  assert (Hf : firstn (length m) (m ++ suf) = m).
  { rewrite firstn_app, firstn_all, Nat.sub_diag. cbn [firstn].
    apply app_nil_r. }
  unfold replaceTablePrefix. rewrite Hm. cbv zeta.
  rewrite Ha, Hb, Hs, Hf. reflexivity.
Qed.

(** X20: the rule for the table prefix.  In a template without a dollar
    sign before its assignment of the default prefix, whatever white space
    stands around the equals sign, a prefix of the environment (not empty,
    without dollar sign) turns the assignment into
    [$table_prefix = '<prefix>'], with one space on either side of the
    equals sign, and leaves the rest of the text as it is. *)
Theorem tablePrefix_rule (pre ws1 ws2 suf pfx : jsstring) :
  existsb (jschar_eqb (ch "$")) pre = false ->
  forallb isWhiteSpace ws1 = true -> forallb isWhiteSpace ws2 = true ->
  existsb (jschar_eqb (ch "$")) pfx = false ->
  replaceTablePrefix
    (pre ++ (js "$table_prefix" ++ ws1 ++ js "=" ++ ws2 ++ js "'wp_'") ++ suf)
    (js "$table_prefix = '" ++ pfx ++ js "'")
  = pre ++ (js "$table_prefix = '" ++ pfx ++ js "'") ++ suf.
Proof.
  intros Hp H1 H2 Hx.
  remember (js "$table_prefix" ++ ws1 ++ js "=" ++ ws2 ++ js "'wp_'")
    as m eqn:Em.
  assert (Hm : tablePrefixAt (m ++ suf) = Some (length m)).
  { subst m. rewrite <- !app_assoc. now apply tablePrefixAt_match. }
  rewrite (replaceTablePrefix_at pre m suf _
             (searchTablePrefix_skip pre (m ++ suf) (length m) Hp Hm)).
  apply f_equal. apply (f_equal (fun x => x ++ suf)).
  rewrite prefixAssignment_head. cbn [app].
  rewrite getSubstitution_dollar_other
    by (vm_compute; reflexivity).
  do 2 apply f_equal.
  apply getSubstitution_plain.
  rewrite !existsb_app, Hx. vm_compute. reflexivity.
Qed.

Lemma tablePrefix_rule_witness :
  replaceTablePrefix
    (js "<?php "
     ++ (js "$table_prefix" ++ js "  " ++ js "=" ++ js " " ++ js "'wp_'")
     ++ js ";")
    (js "$table_prefix = '" ++ js "blog_" ++ js "'")
  = js "<?php " ++ (js "$table_prefix = '" ++ js "blog_" ++ js "'") ++ js ";".
Proof.
  apply (tablePrefix_rule (js "<?php ") (js "  ") (js " ") (js ";")
           (js "blog_")); vm_compute; reflexivity.
Defined.
